(** * clinicalBERT preprocessing: a shallow embedding of [mimic_preprocess.py]

    The development follows the script top to bottom: the vocabulary builder
    [featureToIdx], the ICD hierarchy reduction [getICDlevel1] and the code
    mapper [map_ICD9_to_CCS], the medication normaliser
    [get_unique_ordered_medication], the admission labelling statements, the
    note chunker [preprocessing] and the train/validation/test split.

    Python dictionaries are finite maps ([gmap]), lists are lists, a pandas
    Series is a list of (index label, value) pairs, a missing value
    (NaN / NaT / None) is [None].

    Sections 7 to 11 add the vocabulary files written by [writeToJSON], the
    selection of the discharge summaries, [less_n_days_data], and two parts
    of [run_readmission-original.py]: [copy_optimizer_params_to_model] and
    the positions of the additional features. Sections 12 and 13 hold the
    value a backward fill leaves and a hospital whose stays all last one
    day. *)

From stdpp Require Import gmap strings list fin_maps pretty.
From Stdlib Require Import Ascii QArith Qround Sorted.

Local Open Scope string_scope.
Local Open Scope list_scope.
Local Open Scope nat_scope.

(** ** 0. Python helpers shared by the stages *)

(** The elements of [l] in first-seen order, leaving out those already in
    [seen]: what a loop [if x not in seen: seen.append(x)] keeps. *)
Fixpoint first_seen {A} `{EqDecision A} (seen : list A) (l : list A) : list A :=
  match l with
  | [] => []
  | x :: rest =>
      if decide (x ∈ seen) then first_seen seen rest
      else x :: first_seen (x :: seen) rest
  end.

(** [if x not in l: l.append(x)] *)
Definition append_if_absent {A} `{EqDecision A} (l : list A) (x : A) : list A :=
  if decide (x ∈ l) then l else l ++ [x].

(** A loop whose body may raise: the first error ends it. *)
Fixpoint foldl_opt {S B} (f : S → B → option S) (st : S) (l : list B) : option S :=
  match l with
  | [] => Some st
  | x :: rest => match f st x with Some st' => foldl_opt f st' rest | None => None end
  end.

(** ** 1. [featureToIdx]: the code vocabulary *)

Module Vocabulary.

(** The loop state: the dictionary [feature2idx] and the counter [idx]. *)
Definition vocab_state : Type := gmap string nat * nat.

(** <<
    feature2idx = {}
    feature2idx["0"] = 0
    idx = 1
>> *)
Definition init_state : vocab_state := (<["0" := 0]> ∅, 1).

(** One iteration of [for entry in features]. *)
Definition featureToIdx_step (st : vocab_state) (entry : string) : vocab_state :=
  match st.1 !! entry with
  | Some _ => st
  | None => (<[entry := st.2]> st.1, S st.2)
  end.

Definition featureToIdx_loop (st : vocab_state) (features : list string) : vocab_state :=
  foldl featureToIdx_step st features.

Definition featureToIdx (features : list string) : gmap string nat :=
  (featureToIdx_loop init_state features).1.

(** What the loop keeps true: [ds] are the codes given an index so far, in
    order; the code at position [k] has index [k + 1], ["0"] has index 0 and
    nothing else is in the dictionary. *)
Record vocab_inv (ds : list string) (st : vocab_state) : Prop := {
  inv_idx : st.2 = S (length ds);
  inv_zero : st.1 !! "0" = Some 0;
  inv_fwd : ∀ k c, ds !! k = Some c → st.1 !! c = Some (S k);
  inv_bwd : ∀ c i, st.1 !! c = Some i →
              (c = "0" ∧ i = 0) ∨ (∃ k, i = S k ∧ ds !! k = Some c);
  inv_nozero : "0" ∉ ds
}.

End Vocabulary.

(** ** 2. [getICDlevel1] and [map_ICD9_to_CCS] *)

Module ICD.

(** [icd9_code[:n]] *)
Definition py_prefix_slice (n : nat) (s : string) : string := String.substring 0 n s.

(** The function has no [else] branch for a code that starts with neither
    letter: Python then returns [None]. *)
Definition getICDlevel1 (icd9_code : string) : option string :=
  if String.prefix "P" icd9_code then Some (py_prefix_slice 4 icd9_code)
  else if String.prefix "D" icd9_code then
    if String.prefix "D_E" icd9_code then Some (py_prefix_slice 6 icd9_code)
    else Some (py_prefix_slice 5 icd9_code)
  else None.

(** State of the loops of [map_ICD9_to_CCS]: the two lists of the current
    row and the two counters, which run over all rows. *)
Record row_state := RowState {
  tempSmallICDCodeList : list (option string);
  tempCCSCodeList : list string;
  mapped : nat;
  unmapped : nat
}.

(** One iteration of [for ICD9 in row.ICD9_CODE]. *)
Definition code_step (icd9TOCCS_Map : gmap string string)
    (st : row_state) (ICD9 : string) : row_state :=
  let smallICD := getICDlevel1 ICD9 in
  let small' := append_if_absent (tempSmallICDCodeList st) smallICD in
  match icd9TOCCS_Map !! ICD9 with
  | Some CCS_code =>
      RowState small' (tempCCSCodeList st ++ [CCS_code]) (S (mapped st)) (unmapped st)
  | None =>
      RowState small' (tempCCSCodeList st) (mapped st) (S (unmapped st))
  end.

(** The body of [for row in pandasDataFrame.itertuples()], started from the
    counters reached so far. *)
Definition process_row (icd9TOCCS_Map : gmap string string)
    (mapped0 unmapped0 : nat) (ICD9_CODE : list string) : row_state :=
  foldl (code_step icd9TOCCS_Map) (RowState [] [] mapped0 unmapped0) ICD9_CODE.

Record map_state := MapState {
  mappedSmallICDList : list (list (option string));
  mappedCCSList : list (list string);
  total_mapped : nat;
  total_unmapped : nat
}.

Definition row_step (icd9TOCCS_Map : gmap string string)
    (st : map_state) (ICD9_CODE : list string) : map_state :=
  let r := process_row icd9TOCCS_Map (total_mapped st) (total_unmapped st) ICD9_CODE in
  MapState (mappedSmallICDList st ++ [tempSmallICDCodeList r])
           (mappedCCSList st ++ [tempCCSCodeList r])
           (mapped r) (unmapped r).

(** [map_ICD9_to_CCS] on the [ICD9_CODE] column of its argument; the result
    is the pair [(mappedCCSList, mappedSmallICDList)]. The vocabulary files it
    writes on the side are built by [Vocabulary.featureToIdx]. *)
Definition map_ICD9_to_CCS (icd9TOCCS_Map : gmap string string)
    (ICD9_CODE_column : list (list string))
    : list (list string) * list (list (option string)) :=
  let st := foldl (row_step icd9TOCCS_Map) (MapState [] [] 0 0) ICD9_CODE_column in
  (mappedCCSList st, mappedSmallICDList st).

(** Two diabetes codes of one admission that fall into the same CCS group. *)
Definition ccs_example_map : gmap string string :=
  <["D_25000" := "49"]> (<["D_25001" := "49"]> ∅).
Definition ccs_example_codes : list string := ["D_25000"; "D_25001"].

End ICD.

(** ** 3. [get_unique_ordered_medication] *)

Module Medication.

(** An element of an [NDC] cell. The column holds integer drug codes; pandas
    reads it as float64 because entries are missing, so an element is NaN or
    an integral float, and [int(value)] of the latter is the code itself. *)
Inductive ndc_value := NaN | Num (z : Z).

#[export] Instance ndc_value_eq_dec : EqDecision ndc_value.
Proof. solve_decision. Defined.

(** The loop variable [value] after the first [if]: still the float read from
    the cell, or the int object [0] assigned by [value = 0]. *)
Inductive py_value := Float (v : ndc_value) | IntZero.

(** [value in used_medications]. The elements of a cell are distinct float
    objects and NaN is not equal to itself, so a NaN is never found in the
    set; two equal numbers are. *)
Definition py_in (value : ndc_value) (used : list ndc_value) : bool :=
  match value with
  | NaN => false
  | Num z => bool_decide (Num z ∈ used)
  end.

(** [int(value)]: raises ValueError on NaN. *)
Definition py_int (value : py_value) : option Z :=
  match value with
  | Float NaN => None
  | Float (Num z) => Some z
  | IntZero => Some 0%Z
  end.

(** [str(i)] for an int [i]. *)
Definition py_str (i : Z) : string := pretty i.

(** [pd.isna(value) or value==0.0 or str(int(value)) not in RxNormNdcs];
    [or] short-circuits, so [int] is not applied to NaN. *)
Definition is_invalid (RxNormNdcs : gset string) (value : ndc_value) : bool :=
  match value with
  | NaN => true
  | Num z => (z =? 0)%Z || negb (bool_decide (py_str z ∈ RxNormNdcs))
  end.

(** [value is not 0] *)
Definition is_not_int_zero (value : py_value) : bool :=
  match value with IntZero => false | Float _ => true end.

Record med_state := MedState {
  used_medications : list ndc_value;
  unique_medication : list string;
  temp_cuis_list : list string;
  mapped : nat;
  unmapped : nat
}.

(** One iteration of [for value in pandasDataFrame.loc[index, column]]. *)
Definition med_step (ndcCuiMap : gmap string string)
    (st : med_state) (value0 : ndc_value) : option med_state :=
  let RxNormNdcs : gset string := dom ndcCuiMap in
  '(used', value, unique') ←
    (if negb (py_in value0 (used_medications st)) then
       let value := if is_invalid RxNormNdcs value0 then IntZero else Float value0 in
       unique' ← (if is_not_int_zero value
                  then i ← py_int value; Some (unique_medication st ++ [py_str i])
                  else Some (unique_medication st));
       Some (value0 :: used_medications st, value, unique')
     else Some (used_medications st, Float value0, unique_medication st));
  i ← py_int value;
  let '(mapped', unmapped') :=
    if negb (i =? 0)%Z && bool_decide (py_str i ∈ RxNormNdcs)
    then (S (mapped st), unmapped st) else (mapped st, S (unmapped st)) in
  let cuis' :=
    match ndcCuiMap !! py_str i with
    | Some cui => append_if_absent (temp_cuis_list st) cui
    | None => temp_cuis_list st
    end in
  Some (MedState used' unique' cuis' mapped' unmapped').

(** The inner loop on one cell, from the counters reached so far. *)
Definition process_cell (ndcCuiMap : gmap string string)
    (mapped0 unmapped0 : nat) (values : list ndc_value) : option med_state :=
  foldl_opt (med_step ndcCuiMap) (MedState [] [] [] mapped0 unmapped0) values.

(** *** The data frame and the object store *)

Inductive cell :=
  | CInt (z : Z)
  | CFloats (l : list ndc_value)
  | CStrs (l : list string).

Record DataFrame := MkFrame {
  df_index : list nat;
  df_columns : list string;
  df_data : gmap (string * nat) cell
}.

(** [df.loc[index, column]] *)
Definition loc (df : DataFrame) (index : nat) (column : string) : option cell :=
  df_data df !! (column, index).

(** [df.at[index, column] = v] *)
Definition at_set (df : DataFrame) (index : nat) (column : string) (v : cell) : DataFrame :=
  MkFrame (df_index df) (df_columns df) (<[(column, index) := v]> (df_data df)).

(** Objects live in a store; a variable holds a reference. *)
Definition ref := nat.

Record fun_state := FunState {
  heap : gmap ref DataFrame;
  unique_cuis_list : list (list string);
  fmapped : nat;
  funmapped : nat
}.

(** <<
    if "NDC" in pandasDataFrame.columns.values: column = "NDC"
    elif "DRUG" in pandasDataFrame.columns.values: column = "DRUG"
>>  With neither column the name stays unbound. *)
Definition choose_column (df : DataFrame) : option string :=
  if decide ("NDC" ∈ df_columns df) then Some "NDC"
  else if decide ("DRUG" ∈ df_columns df) then Some "DRUG"
  else None.

(** One iteration of [for index in pandasDataFrame.index]. Reading an unbound
    [column], a missing cell or a cell that is not a list of floats raises. *)
Definition index_step (ndcCuiMap : gmap string string) (pandasDataFrame : ref)
    (column : option string) (st : fun_state) (index : nat) : option fun_state :=
  col ← column;
  df ← heap st !! pandasDataFrame;
  c ← loc df index col;
  values ← (match c with CFloats l => Some l | _ => None end);
  r ← process_cell ndcCuiMap (fmapped st) (funmapped st) values;
  Some (FunState
          (<[pandasDataFrame := at_set df index col (CStrs (unique_medication r))]> (heap st))
          (unique_cuis_list st ++ [temp_cuis_list r])
          (mapped r) (unmapped r)).

(** The function on the store: it returns the reference it was given and the
    list of concept lists. *)
Definition get_unique_ordered_medication (ndcCuiMap : gmap string string)
    (pandasDataFrame : ref) (h : gmap ref DataFrame)
    : option (gmap ref DataFrame * (ref * list (list string))) :=
  df ← h !! pandasDataFrame;
  let column := choose_column df in
  st ← foldl_opt (index_step ndcCuiMap pandasDataFrame column)
         (FunState h [] 0 0) (df_index df);
  Some (heap st, (pandasDataFrame, unique_cuis_list st)).

(** *** Descriptions the loop is compared with *)

(** A value that is kept: a number other than zero whose string is in the
    NDC universe. *)
Definition valid_code (RxNormNdcs : gset string) (value : ndc_value) : option string :=
  match value with
  | NaN => None
  | Num z => if is_invalid RxNormNdcs (Num z) then None else Some (py_str z)
  end.

(** The strings of the kept values, each once, at its first occurrence. *)
Definition dedup_codes (RxNormNdcs : gset string) (values : list ndc_value) : list string :=
  first_seen [] (omap (valid_code RxNormNdcs) values).

(** Appending each resolved concept once, in order of the keys. *)
Definition resolve_concepts (ndcCuiMap : gmap string string) (keys : list string) : list string :=
  foldl (λ cuis key, match ndcCuiMap !! key with
                     | Some cui => append_if_absent cuis cui
                     | None => cuis
                     end) [] keys.

(** The lookup keys if every entry were looked up under its original value
    (a missing entry has none). *)
Definition original_keys (values : list ndc_value) : list string :=
  omap (λ v, match v with NaN => None | Num z => Some (py_str z) end) values.

(** The keys the loop uses. An entry that went through the sentinel
    replacement (a NaN, or the first occurrence of a number that is zero or
    outside the NDC universe) is looked up under ["0"], any other entry under
    its own number; [seen] are the values met before it. *)
Definition step_key (RxNormNdcs : gset string) (seen : list ndc_value)
    (v : ndc_value) : string :=
  if negb (py_in v seen) && is_invalid RxNormNdcs v then "0"
  else match v with NaN => "0" | Num z => py_str z end.

Definition step_seen (seen : list ndc_value) (v : ndc_value) : list ndc_value :=
  if py_in v seen then seen else v :: seen.

Fixpoint lookup_keys (RxNormNdcs : gset string) (seen : list ndc_value)
    (values : list ndc_value) : list string :=
  match values with
  | [] => []
  | v :: rest => step_key RxNormNdcs seen v :: lookup_keys RxNormNdcs (step_seen seen v) rest
  end.

(** The concept list of the cell at [index] of the frame [df]. *)
Definition cell_concepts (ndcCuiMap : gmap string string) (df : DataFrame)
    (column : string) (index : nat) : list string :=
  match loc df index column with
  | Some (CFloats l) => resolve_concepts ndcCuiMap (lookup_keys (dom ndcCuiMap) [] l)
  | _ => []
  end.

(** A concept table that has an entry for the code 0, and an admission with
    one drug code outside the table. *)
Definition zero_key_map : gmap string string := <["0" := "C0000000"]> ∅.
Definition zero_key_values : list ndc_value := [Num 999].

(** An admission with a repeated code, a zero and a missing entry. *)
Definition spec_example_values : list ndc_value :=
  [Num 123; Num 123; Num 0; NaN; Num 456].

(** A frame with the columns HADM_ID and NDC and two rows, at reference 0. *)
Definition example_frame : DataFrame :=
  MkFrame [0; 1] ["HADM_ID"; "NDC"]
    (<[("HADM_ID", 0) := CInt 100001]>
     (<[("NDC", 0) := CFloats [Num 123; Num 123; Num 0; NaN; Num 456]]>
      (<[("HADM_ID", 1) := CInt 100002]>
       (<[("NDC", 1) := CFloats [NaN; Num 456]]> ∅)))).
Definition example_map : gmap string string :=
  <["123" := "C0000123"]> (<["456" := "C0000456"]> ∅).
Definition example_heap : gmap ref DataFrame := <[0 := example_frame]> ∅.

End Medication.

(** ** 4. The admission table: next/previous admission, gaps and label *)

Module Labeler.

(** A row of ADMISSIONS after the three [pd.to_datetime(..., errors='coerce')]
    statements: a timestamp is a number of seconds (the format has no
    fraction) or NaT. *)
Record Admission := MkAdmission {
  SUBJECT_ID : Z;
  HADM_ID : Z;
  ADMITTIME : option Z;
  DISCHTIME : option Z;
  DEATHTIME : option Z;
  ADMISSION_TYPE : option string
}.

(** The row once the four shifted columns exist. *)
Record Linked := MkLinked {
  adm : Admission;
  NEXT_ADMITTIME : option Z;
  NEXT_ADMISSION_TYPE : option string;
  PREV_DISCHTIME : option Z;
  PREV_ADMISSION_TYPE : option string
}.

(** The row of the final table. A gap in days is the exact quotient of a
    number of seconds by 86400; the float the script computes compares with
    30 (and with 2 and 3) the same way, both being a correctly rounded
    quotient of an integer below 2^53. *)
Record Row := MkRow {
  linked : Linked;
  DAYS_NEXT_ADMIT : option Q;
  DAYS_PREV_ADMIT : option Q;
  OUTPUT_LABEL : Z;
  DURATION : option Q
}.

(** *** [sort_values(['SUBJECT_ID','ADMITTIME'])] *)

(** The order of the sort keys: by patient, then by admission time with NaT
    last. *)
Definition key_le (a b : Admission) : bool :=
  if (SUBJECT_ID a <? SUBJECT_ID b)%Z then true
  else if (SUBJECT_ID b <? SUBJECT_ID a)%Z then false
  else match ADMITTIME a, ADMITTIME b with
       | Some x, Some y => (x <=? y)%Z
       | Some _, None => true
       | None, Some _ => false
       | None, None => true
       end.

Section Sort.
Context {R : Type} (key : R → Admission).

Fixpoint insert_sorted (r : R) (l : list R) : list R :=
  match l with
  | [] => [r]
  | y :: l' => if key_le (key r) (key y) then r :: l else y :: insert_sorted r l'
  end.

(** The sort on several columns is stable; a stable sort has one result,
    computed here by insertion. *)
Definition sort_values (df : list R) : list R := foldr insert_sorted [] df.
End Sort.

(** *** The shifted columns *)

Definition same_subject (a b : Admission) : bool :=
  (SUBJECT_ID a =? SUBJECT_ID b)%Z.

(** The four [groupby('SUBJECT_ID').X.shift(∓1)] statements: each row reads
    the next row of its patient (in [rest]) and the previous one (in
    [before], nearest first). *)
Fixpoint link_rows (before rest : list Admission) : list Linked :=
  match rest with
  | [] => []
  | r :: rest' =>
      let nxt := List.find (same_subject r) rest' in
      let prv := List.find (same_subject r) before in
      MkLinked r (nxt ≫= ADMITTIME) (nxt ≫= ADMISSION_TYPE)
                 (prv ≫= DISCHTIME) (prv ≫= ADMISSION_TYPE)
      :: link_rows (r :: before) rest'
  end.

(** <<
    rows = df_adm.NEXT_ADMISSION_TYPE == 'ELECTIVE'
    df_adm.loc[rows,'NEXT_ADMITTIME'] = pd.NaT
    df_adm.loc[rows,'NEXT_ADMISSION_TYPE'] = np.NaN
>> *)
Definition is_elective (t : option string) : bool :=
  bool_decide (t = Some "ELECTIVE").

Definition null_elective_row (r : Linked) : Linked :=
  if is_elective (NEXT_ADMISSION_TYPE r)
  then MkLinked (adm r) None None (PREV_DISCHTIME r) (PREV_ADMISSION_TYPE r)
  else r.

Definition null_elective (df : list Linked) : list Linked := map null_elective_row df.

(** [x if x is not missing else y] *)
Definition or_else {V} (x y : option V) : option V :=
  match x with Some _ => x | None => y end.

Definition same_subject_l (a b : Linked) : bool := same_subject (adm a) (adm b).

(** [groupby(['SUBJECT_ID'])[['NEXT_ADMITTIME','NEXT_ADMISSION_TYPE']].fillna(method='bfill')]:
    each column on its own takes, where it is missing, the next value of the
    patient that is not; the next row of the patient is already filled. *)
Fixpoint bfill_next (df : list Linked) : list Linked :=
  match df with
  | [] => []
  | r :: rest =>
      let rest' := bfill_next rest in
      let nxt := List.find (same_subject_l r) rest' in
      MkLinked (adm r)
        (or_else (NEXT_ADMITTIME r) (nxt ≫= NEXT_ADMITTIME))
        (or_else (NEXT_ADMISSION_TYPE r) (nxt ≫= NEXT_ADMISSION_TYPE))
        (PREV_DISCHTIME r) (PREV_ADMISSION_TYPE r)
      :: rest'
  end.

(** The same fill on the two PREV columns. *)
Fixpoint bfill_prev (df : list Linked) : list Linked :=
  match df with
  | [] => []
  | r :: rest =>
      let rest' := bfill_prev rest in
      let nxt := List.find (same_subject_l r) rest' in
      MkLinked (adm r) (NEXT_ADMITTIME r) (NEXT_ADMISSION_TYPE r)
        (or_else (PREV_DISCHTIME r) (nxt ≫= PREV_DISCHTIME))
        (or_else (PREV_ADMISSION_TYPE r) (nxt ≫= PREV_ADMISSION_TYPE))
      :: rest'
  end.

(** [(a - b).dt.total_seconds()/(24*60*60)] *)
Definition days_between (a b : option Z) : option Q :=
  match a, b with
  | Some x, Some y => Some (Qmake (x - y) 86400)
  | _, _ => None
  end.

(** [(col < bound)] on a float column: a missing value compares false. *)
Definition lt_days (d : option Q) (bound : Q) : bool :=
  match d with
  | Some x => negb (Qle_bool bound x)
  | None => false
  end.

(** [(col >= bound)] *)
Definition ge_days (d : option Q) (bound : Q) : bool :=
  match d with
  | Some x => Qle_bool bound x
  | None => false
  end.

(** The statements up to the fill of the NEXT columns. *)
Definition link_admissions (df_adm : list Admission) : list Linked :=
  let df := sort_values id df_adm in
  let df := link_rows [] df in
  let df := null_elective df in
  let df := sort_values adm df in
  bfill_next df.

(** The DAYS columns and the label of a row. The script computes
    [DAYS_NEXT_ADMIT] one statement before the PREV fill; the fill leaves
    [NEXT_ADMITTIME] and [DISCHTIME] alone, so the row after both fills gives
    the same value. *)
Definition label_row (r : Linked) : Row :=
  let days_next := days_between (NEXT_ADMITTIME r) (DISCHTIME (adm r)) in
  let days_prev := days_between (ADMITTIME (adm r)) (PREV_DISCHTIME r) in
  MkRow r days_next days_prev (if lt_days days_next 30 then 1 else 0)%Z None.

Definition label_admissions (df_adm : list Admission) : list Row :=
  map label_row (bfill_prev (link_admissions df_adm)).

(** <<
    df_adm = df_adm[df_adm['ADMISSION_TYPE']!='NEWBORN']
    df_adm = df_adm[df_adm.DEATHTIME.isnull()]
    df_adm['DURATION'] = (df_adm['DISCHTIME']-df_adm['ADMITTIME']).dt.total_seconds()/(24*60*60)
>> *)
Definition not_newborn (r : Row) : bool :=
  negb (bool_decide (ADMISSION_TYPE (adm (linked r)) = Some "NEWBORN")).

Definition death_isnull (r : Row) : bool :=
  match DEATHTIME (adm (linked r)) with None => true | Some _ => false end.

Definition set_duration (r : Row) : Row :=
  MkRow (linked r) (DAYS_NEXT_ADMIT r) (DAYS_PREV_ADMIT r) (OUTPUT_LABEL r)
        (days_between (DISCHTIME (adm (linked r))) (ADMITTIME (adm (linked r)))).

(** The final admission table. *)
Definition final_admissions (df_adm : list Admission) : list Row :=
  map set_duration
    (List.filter death_isnull (List.filter not_newborn (label_admissions df_adm))).

(** The first later admission of the patient of [r] that is not ELECTIVE. *)
Definition next_non_elective (r : Admission) (later : list Admission) : option Admission :=
  List.find (λ r', same_subject r r' && negb (is_elective (ADMISSION_TYPE r'))) later.

(** The NEXT_ADMITTIME column written as a function of the sorted admissions
    alone: the value left by the shift and the ELECTIVE rule, or else the
    filled value of the patient's next row. *)
Definition shifted_next_time (a : Admission) (later : list Admission) : option Z :=
  match List.find (same_subject a) later with
  | Some n => if is_elective (ADMISSION_TYPE n) then None else ADMITTIME n
  | None => None
  end.

Fixpoint next_time_column (l : list Admission) : list (Admission * option Z) :=
  match l with
  | [] => []
  | a :: later =>
      let col := next_time_column later in
      (a, or_else (shifted_next_time a later)
                  (List.find (λ p, same_subject a p.1) col ≫= snd))
      :: col
  end.

(** The frame is in the order of the sort keys. *)
Definition key_sorted (l : list Admission) : Prop :=
  StronglySorted (λ a b, key_le a b = true) l.

(** A patient with an emergency stay, a planned stay a week later and a
    second emergency stay after three weeks. *)
Definition elective_example : list Admission :=
  [ MkAdmission 9 300 (Some 0%Z) (Some 86400%Z) None (Some "EMERGENCY");
    MkAdmission 9 301 (Some 604800%Z) (Some 691200%Z) None (Some "ELECTIVE");
    MkAdmission 9 302 (Some 1814400%Z) (Some 1900800%Z) None (Some "EMERGENCY") ].

(** A patient whose second stay starts before the recorded discharge of the
    first one. *)
Definition overlap_example : list Admission :=
  [ MkAdmission 7 100 (Some 0%Z) (Some 100000%Z) None (Some "EMERGENCY");
    MkAdmission 7 101 (Some 50000%Z) (Some 200000%Z) None (Some "EMERGENCY") ].

End Labeler.

(** ** 5. [preprocess1] and [preprocessing]: cleaning and chunking the notes *)

Module Chunker.

(** A character of a text is a code point below 256 (U+0000 to U+00FF, which
    holds the ASCII characters of the notes); the character classes below
    are Python's [str] classes on that range. *)
Definition code (c : ascii) : nat := nat_of_ascii c.

(** Whitespace for [str.split()] and [str.strip()]: U+0009 to U+000D,
    U+001C to U+0020, the next-line character U+0085 and the no-break space
    U+00A0. *)
Definition is_space (c : ascii) : bool :=
  let n := code c in
  ((9 <=? n) && (n <=? 13)) || ((28 <=? n) && (n <=? 32))
  || (n =? 133) || (n =? 160).

Definition is_digit (c : ascii) : bool :=
  let n := code c in (48 <=? n) && (n <=? 57).

Definition is_empty (s : string) : bool :=
  match s with EmptyString => true | String _ _ => false end.

Definition snoc (s : string) (c : ascii) : string := s +:+ String c EmptyString.

(** [s.replace(old, ' ')] for a one-character [old]. *)
Fixpoint replace_char (old : ascii) (s : string) : string :=
  match s with
  | EmptyString => EmptyString
  | String c s' =>
      String (if decide (c = old) then " "%char else c) (replace_char old s')
  end.

Fixpoint lstrip (s : string) : string :=
  match s with
  | EmptyString => EmptyString
  | String c s' => if is_space c then lstrip s' else s
  end.

Fixpoint rstrip (s : string) : string :=
  match s with
  | EmptyString => EmptyString
  | String c s' =>
      let r := rstrip s' in
      if is_empty r && is_space c then EmptyString else String c r
  end.

Definition strip (s : string) : string := rstrip (lstrip s).

(** [str.lower()] on one character: the upper-case letters below U+0100 are
    A to Z and U+00C0 to U+00DE without the multiplication sign U+00D7, and
    the lower-case letter of each is 32 places further. *)
Definition lower_char (c : ascii) : ascii :=
  let n := code c in
  if ((65 <=? n) && (n <=? 90))
     || ((192 <=? n) && (n <=? 222) && negb (n =? 215))
  then ascii_of_nat (n + 32) else c.

Fixpoint lower (s : string) : string :=
  match s with
  | EmptyString => EmptyString
  | String c s' => String (lower_char c) (lower s')
  end.

(** [re.sub('\\[(.*?)\\]','',x)]: from a [[] to the nearest []], unless a
    line feed comes first, which [.] does not match. [pending] holds the text
    read since an open bracket that is still unmatched. *)
Fixpoint sub_brackets (pending : option string) (x : string) : string :=
  match x with
  | EmptyString => default EmptyString pending
  | String c x' =>
      match pending with
      | None =>
          if decide (c = "["%char) then sub_brackets (Some "[") x'
          else String c (sub_brackets None x')
      | Some p =>
          if decide (c = "]"%char) then sub_brackets None x'
          else if decide (c = "010"%char) then snoc p c +:+ sub_brackets None x'
          else sub_brackets (Some (snoc p c)) x'
      end
  end.

(** [re.sub('[0-9]+\.','',y)]: a run of digits followed by a dot. [digits]
    holds the run being read. *)
Fixpoint sub_numbers (digits : string) (y : string) : string :=
  match y with
  | EmptyString => digits
  | String c y' =>
      if is_digit c then sub_numbers (snoc digits c) y'
      else if bool_decide (c = "."%char) && negb (is_empty digits) then sub_numbers EmptyString y'
      else digits +:+ String c (sub_numbers EmptyString y')
  end.

(** [re.sub('p1|p2|...', rep, y)] for literal alternatives: the leftmost
    matches, which do not overlap. [skip] counts the characters of a match
    still to be passed over. *)
Fixpoint sub_literals (pats : list string) (rep : string) (skip : nat) (y : string) : string :=
  match y with
  | EmptyString => EmptyString
  | String c y' =>
      match skip with
      | S k => sub_literals pats rep k y'
      | 0 =>
          match List.find (λ p, String.prefix p y) pats with
          | Some p => rep +:+ sub_literals pats rep (String.length p - 1) y'
          | None => String c (sub_literals pats rep 0 y')
          end
      end
  end.

Definition preprocess1 (x : string) : string :=
  let y := sub_brackets None x in
  let y := sub_numbers EmptyString y in
  let y := sub_literals ["dr."] "doctor" 0 y in
  let y := sub_literals ["m.d."] "md" 0 y in
  let y := sub_literals ["admission date:"] "" 0 y in
  let y := sub_literals ["discharge date:"] "" 0 y in
  let y := sub_literals ["--"; "__"; "=="] "" 0 y in
  y.

(** The six statements on the TEXT column at the head of [preprocessing]. *)
Definition clean_text (TEXT : option string) : string :=
  let t := default " " TEXT in
  let t := replace_char "010"%char t in
  let t := replace_char "013"%char t in
  let t := strip t in
  let t := lower t in
  preprocess1 t.

(** [s.split()]: the maximal runs of characters that are not whitespace.
    [tok] is the run being read. *)
Fixpoint split_from (tok : string) (s : string) : list string :=
  match s with
  | EmptyString => if is_empty tok then [] else [tok]
  | String c s' =>
      if is_space c
      then (if is_empty tok then split_from EmptyString s' else tok :: split_from EmptyString s')
      else split_from (snoc tok c) s'
  end.

Definition split (s : string) : list string := split_from EmptyString s.

(** A token: not empty, and free of whitespace. *)
Fixpoint no_space (s : string) : bool :=
  match s with
  | EmptyString => true
  | String c s' => negb (is_space c) && no_space s'
  end.

Definition is_token (w : string) : bool := negb (is_empty w) && no_space w.

(** [x[a:b]] for [0 <= a <= b] *)
Definition slice {A} (a b : nat) (x : list A) : list A := take (b - a) (drop a x).

(** [x[-k:]]; [-0] is [0], and a [k] beyond the length gives the whole list. *)
Definition last_slice {A} (k : nat) (x : list A) : list A :=
  if k =? 0 then x else drop (length x - k) x.

(** The token lists of the rows appended for one text [x], for chunks of
    [size] tokens and a remainder kept when longer than [keep]:
    <<
    n=int(len(x)/318)
    for j in range(n): ... x[j*318:(j+1)*318]
    if len(x)%318>10: ... x[-(len(x)%318):]
>>  [len(x)/318] is a float quotient; its integer part is the integer
    quotient for every length a list can have. *)
Definition chunk_tokens_by {A} (size keep : nat) (x : list A) : list (list A) :=
  let n := length x / size in
  map (λ j, slice (j * size) ((j + 1) * size) x) (seq 0 n)
  ++ (if keep <? length x mod size then [last_slice (length x mod size) x] else []).

Definition chunk_tokens (x : list string) : list (list string) :=
  chunk_tokens_by 318 10 x.

(** [' '.join(tokens)] *)
Definition join (tokens : list string) : string := String.concat " " tokens.

(** A row of the admission-level note table and a row of the chunk table;
    [F] stands for the structured columns copied from one to the other. *)
Record NoteRow (F : Type) := MkNoteRow {
  HADM_ID : Z;
  OUTPUT_LABEL : Z;
  features : F;
  TEXT : option string
}.

Record ChunkRow (F : Type) := MkChunkRow {
  c_HADM_ID : Z;
  c_Label : Z;
  c_features : F;
  c_TEXT : string
}.

Arguments MkNoteRow {F}.
Arguments HADM_ID {F}.
Arguments OUTPUT_LABEL {F}.
Arguments features {F}.
Arguments TEXT {F}.
Arguments MkChunkRow {F}.
Arguments c_HADM_ID {F}.
Arguments c_Label {F}.
Arguments c_features {F}.
Arguments c_TEXT {F}.

(** The rows appended to [want] in iteration [i]. *)
Definition chunk_rows {F} (r : NoteRow F) : list (ChunkRow F) :=
  map (λ toks, MkChunkRow (HADM_ID r) (OUTPUT_LABEL r) (features r) (join toks))
      (chunk_tokens (split (clean_text (TEXT r)))).

Definition preprocessing {F} (df_less_n : list (NoteRow F)) : list (ChunkRow F) :=
  flat_map chunk_rows df_less_n.

(** A text of [n] words separated by single spaces. *)
Definition words (n : nat) : list string := replicate n "w".

End Chunker.

(** ** 6. The train / validation / test split *)

Module Split.

Import Chunker.

(** A pandas Series of admission ids: index labels with their values. *)
Definition Series : Type := list (nat * Z).
Definition index (s : Series) : list nat := map fst s.
Definition values (s : Series) : list Z := map snd s.

(** *** Sampling

    [obj.sample(..., random_state=1)] seeds a new generator at every call and
    takes the head of a permutation of the positions, so what it returns
    depends on the length of [obj] alone. [draws] are the raw numbers the
    generator yields for that length; position [k mod remaining] is drawn
    and removed, which gives every permutation for some [draws]. *)
Fixpoint pick {A} (draws : list nat) (n : nat) (pool : list A) : list A :=
  match n with
  | 0 => []
  | S n' =>
      match pool with
      | [] => []
      | a :: _ =>
          let k := hd 0 draws mod length pool in
          default a (pool !! k) :: pick (tl draws) n' (delete k pool)
      end
  end.

(** Python's [round]: to the nearest integer, a tie to the even one. *)
Definition py_round (q : Q) : Z :=
  let f := Qfloor q in
  match Qcompare (q - inject_Z f) (1 # 2) with
  | Lt => f
  | Gt => (f + 1)%Z
  | Eq => if Z.even f then f else (f + 1)%Z
  end.

Section Sampling.
(** The generator seeded with 1: the draws for each population size. *)
Variable rng : nat → list nat.

(** [obj.sample(n=n, random_state=1)]; a sample larger than the population
    raises ValueError. *)
Definition sample_n {A} (n : nat) (obj : list A) : option (list A) :=
  if n <=? length obj then Some (pick (rng (length obj)) n obj) else None.

(** [obj.sample(frac=frac, random_state=1)], with [n = round(frac * len)]. *)
Definition sample_frac {A} (frac : Q) (obj : list A) : list A :=
  let n := Z.to_nat (py_round (frac * inject_Z (Z.of_nat (length obj)))) in
  pick (rng (length obj)) n obj.

(** [s.drop(labels)] *)
Definition drop_labels (labels : list nat) (s : Series) : Series :=
  List.filter (λ iv, negb (bool_decide (iv.1 ∈ labels))) s.

(** [s.drop_duplicates(keep=False)]: the rows whose value occurs once. *)
Definition drop_duplicates_keep_false (s : Series) : Series :=
  List.filter (λ iv, length (List.filter (Z.eqb iv.2) (values s)) =? 1) s.

(** [col.isin(ids)] *)
Definition isin (ids : list Z) (x : Z) : bool := bool_decide (x ∈ ids).

Definition row_id (r : Labeler.Row) : Z :=
  Labeler.HADM_ID (Labeler.adm (Labeler.linked r)).

(** [df_adm[df_adm.OUTPUT_LABEL == label].HADM_ID]; the merged frame is
    indexed by position. *)
Definition ids_with_label (label : Z) (df_adm : list Labeler.Row) : Series :=
  omap (λ ir : nat * Labeler.Row,
          if (Labeler.OUTPUT_LABEL ir.2 =? label)%Z then Some (ir.1, row_id ir.2) else None)
       (imap pair df_adm).

(** [list(zip(ids, [1]*len(t) + [0]*len(f)))] *)
Definition id_label (ids t f : Series) : list (Z * Z) :=
  zip (values ids) (replicate (length t) 1%Z ++ replicate (length f) 0%Z).

Record IdSplit := MkIdSplit {
  readmit_ID : Series;
  not_readmit_ID : Series;
  not_readmit_ID_use : Series;
  id_train_t : Series; id_train_f : Series;
  id_val_t : Series; id_val_f : Series;
  id_test_t : Series; id_test_f : Series;
  id_train : Series; id_val : Series; id_test : Series;
  train_id_label : list (Z * Z);
  val_id_label : list (Z * Z);
  test_id_label : list (Z * Z);
  df : Series
}.

(** The statements from [readmit_ID = ...] to the reserve pool [df]. *)
Definition split_ids (df_adm : list Labeler.Row) : option IdSplit :=
  let readmit_ID := ids_with_label 1 df_adm in
  let not_readmit_ID := ids_with_label 0 df_adm in
  not_readmit_ID_use ← sample_n (length readmit_ID) not_readmit_ID;
  let id_val_test_t := sample_frac (2 # 10) readmit_ID in
  let id_val_test_f := sample_frac (2 # 10) not_readmit_ID_use in
  let id_train_t := drop_labels (index id_val_test_t) readmit_ID in
  let id_train_f := drop_labels (index id_val_test_f) not_readmit_ID_use in
  let id_val_t := sample_frac (5 # 10) id_val_test_t in
  let id_test_t := drop_labels (index id_val_t) id_val_test_t in
  let id_val_f := sample_frac (5 # 10) id_val_test_f in
  let id_test_f := drop_labels (index id_val_f) id_val_test_f in
  let id_test := id_test_t ++ id_test_f in
  let id_val := id_val_t ++ id_val_f in
  let id_train := id_train_t ++ id_train_f in
  let df := drop_duplicates_keep_false (not_readmit_ID_use ++ not_readmit_ID) in
  Some (MkIdSplit readmit_ID not_readmit_ID not_readmit_ID_use
          id_train_t id_train_f id_val_t id_val_f id_test_t id_test_f
          id_train id_val id_test
          (id_label id_train id_train_t id_train_f)
          (id_label id_val id_val_t id_val_f)
          (id_label id_test id_test_t id_test_f)
          df).

Context {F : Type}.

(** [frame[frame.HADM_ID.isin(ids)]] *)
Definition rows_in (ids : list Z) (frame : list (ChunkRow F)) : list (ChunkRow F) :=
  List.filter (λ r, isin ids (c_HADM_ID r)) frame.

Record DischargeSplit := MkDischargeSplit {
  not_readmit_ID_more : Series;
  discharge_train_snippets : list (ChunkRow F);
  discharge_val : list (ChunkRow F);
  discharge_test : list (ChunkRow F)
}.

(** The discharge-summary files. *)
Definition discharge_split (s : IdSplit) (df_discharge : list (ChunkRow F))
    : option DischargeSplit :=
  let discharge_train := rows_in (map fst (train_id_label s)) df_discharge in
  let discharge_val := rows_in (map fst (val_id_label s)) df_discharge in
  let discharge_test := rows_in (map fst (test_id_label s)) df_discharge in
  not_readmit_ID_more ← sample_n 400 (df s);
  let snippets := rows_in (values not_readmit_ID_more) df_discharge ++ discharge_train in
  Some (MkDischargeSplit not_readmit_ID_more (sample_frac 1 snippets)
          discharge_val discharge_test).

Record EarlySplit := MkEarlySplit {
  early_train_snippets : list (ChunkRow F);
  early_val : list (ChunkRow F);
  early_test : list (ChunkRow F);
  early_test_2days : list (ChunkRow F)
}.

(** [df_adm[df_adm['DURATION'] >= n].HADM_ID] *)
Definition actionable_ID (n : Q) (df_adm : list Labeler.Row) : list Z :=
  map row_id (List.filter (λ r, Labeler.ge_days (Labeler.DURATION r) n) df_adm).

(** [test_id_label[test_id_label.id.isin(actionable)]] *)
Definition actionable_rows (actionable : list Z) (id_label : list (Z * Z)) : list (Z * Z) :=
  List.filter (λ il, isin actionable il.1) id_label.

(** The early-notes files. *)
Definition early_split (s : IdSplit) (df_adm : list Labeler.Row)
    (df_less_3 df_less_2 : list (ChunkRow F)) : option EarlySplit :=
  let early_train := rows_in (map fst (train_id_label s)) df_less_3 in
  not_readmit_ID_more ← sample_n 500 (df s);
  let snippets := rows_in (values not_readmit_ID_more) df_less_3 ++ early_train in
  let early_val := rows_in (map fst (val_id_label s)) df_less_3 in
  let actionable_ID_3days := actionable_ID 3 df_adm in
  let test_actionable_id_label := actionable_rows actionable_ID_3days (test_id_label s) in
  let early_test := rows_in (map fst test_actionable_id_label) df_less_3 in
  let actionable_ID_2days := actionable_ID 2 df_adm in
  let test_actionable_id_label_2days := actionable_rows actionable_ID_2days (test_id_label s) in
  let early_test_2days := rows_in (map fst test_actionable_id_label_2days) df_less_2 in
  Some (MkEarlySplit (sample_frac 1 snippets) early_val early_test early_test_2days).
End Sampling.

(** *** A small hospital

    Eight patients with a stay and a second stay ten days after the start of
    the first, and five hundred patients with a single stay; a stay lasts
    four days for the patients with an even number and one day for the
    others. Every admission has one note of eleven words. [zero_rng] is the
    generator whose draws are all 0: one generator among all, used where an
    example needs one; statements about the split hold for every
    generator. *)
Definition day : Z := 86400.

Definition stay_days (i : nat) : Z := if Nat.even i then 4 else 1.

Definition stay (i : nat) (hadm start : Z) : Labeler.Admission :=
  Labeler.MkAdmission (Z.of_nat i) hadm (Some start)
    (Some (start + stay_days i * day)%Z) None (Some "EMERGENCY").

Definition returning_patient (i : nat) : list Labeler.Admission :=
  [ stay i (1000 + Z.of_nat i) 0; stay i (2000 + Z.of_nat i) (10 * day) ].

Definition single_patient (i : nat) : list Labeler.Admission :=
  [ stay i (3000 + Z.of_nat i) 0 ].

Definition hospital : list Labeler.Admission :=
  flat_map returning_patient (seq 1 8) ++ flat_map single_patient (seq 9 500).

Definition hospital_adm : list Labeler.Row := Labeler.final_admissions hospital.

Definition hospital_notes : list (NoteRow unit) :=
  map (λ r, MkNoteRow (row_id r) (Labeler.OUTPUT_LABEL r) tt (Some (join (words 11))))
      hospital_adm.

Definition hospital_chunks : list (ChunkRow unit) := preprocessing hospital_notes.

Definition zero_rng : nat → list nat := λ _, [].

End Split.

(** ** 7. [writeToJSON] and the vocabulary files *)

Module Files.

(** The files the script writes are JSON objects from codes to indices; the
    file system maps a path to the object stored there. *)
Definition filesystem : Type := gmap string (gmap string nat).

(** [writeToJSON(content, filepath)]. The result is the file system after
    the call and the dictionary [content], which [content.update(baseContent)]
    changes in place when the file exists: the entries read from the file
    replace those of [content] with the same key. *)
Definition writeToJSON (content : gmap string nat) (filepath : string)
    (fs : filesystem) : filesystem * gmap string nat :=
  match fs !! filepath with
  | Some baseContent =>
      let content' := baseContent ∪ content in
      (<[filepath := content']> fs, content')
  | None => (<[filepath := content]> fs, content)
  end.

(** The pattern of every vocabulary file:
    <<
    if not os.path.isfile(path):
        writeToJSON(featureToIdx(codes), path)
>>  [codes] is the sequence in which the set of codes is iterated. *)
Definition persist_vocabulary (codes : list string) (path : string)
    (fs : filesystem) : filesystem :=
  match fs !! path with
  | Some _ => fs
  | None => (writeToJSON (Vocabulary.featureToIdx codes) path fs).1
  end.

End Files.

(** ** 8. A small clinic

    Ten patients who come back ten days after the start of a first stay and
    ten patients with a single stay, as in the hospital of the split. *)

Module Clinic.

Definition clinic : list Labeler.Admission :=
  flat_map Split.returning_patient (seq 1 10) ++ flat_map Split.single_patient (seq 11 10).

Definition clinic_adm : list Labeler.Row := Labeler.final_admissions clinic.

End Clinic.

(** ** 9. Character classes of the cleaned text *)

Module TextClass.

Import Chunker.

(** An upper-case ASCII letter. *)
Definition is_upper (c : ascii) : bool :=
  let n := code c in (65 <=? n) && (n <=? 90).

(** A line feed or a carriage return. *)
Definition is_line_break (c : ascii) : bool :=
  let n := code c in (n =? 10) || (n =? 13).

(** A character a cleaned text may hold. *)
Definition is_clean (c : ascii) : bool := negb (is_upper c) && negb (is_line_break c).

Fixpoint all_chars (P : ascii → bool) (s : string) : bool :=
  match s with
  | EmptyString => true
  | String c s' => P c && all_chars P s'
  end.

(** A note whose text has a no-break space (U+00A0) between its first two
    words: [str.split()] cuts there, so the text has eleven tokens. *)
Definition no_break_space_text : string :=
  String "a" (String (ascii_of_nat 160) "b c d e f g h i j k").

Definition no_break_space_row : NoteRow unit :=
  MkNoteRow 700 1 tt (Some no_break_space_text).

End TextClass.

(** ** 10. The note tables: discharge summaries and early notes *)

Module Notes.

(** A row of [df_adm_notes], the admission table merged with the notes:
    the keys, the two dates the early-notes filter compares (seconds, or
    NaT), the category and the text of the note, the label; [F] stands for
    the other admission columns, which the functions below only copy. *)
Record AdmNote (F : Type) := MkAdmNote {
  SUBJECT_ID : Z;
  HADM_ID : Z;
  ADMITTIME_C : option Z;
  CHARTDATE : option Z;
  CATEGORY : option string;
  TEXT : option string;
  OUTPUT_LABEL : Z;
  features : F
}.

(** A row of the table [less_n_days_data] returns. *)
Record EarlyRow (F : Type) := MkEarlyRow {
  e_HADM_ID : Z;
  e_TEXT : string;
  e_OUTPUT_LABEL : Z;
  e_SUBJECT_ID : Z;
  e_features : F
}.

Arguments MkAdmNote {F}.
Arguments SUBJECT_ID {F}.
Arguments HADM_ID {F}.
Arguments ADMITTIME_C {F}.
Arguments CHARTDATE {F}.
Arguments CATEGORY {F}.
Arguments TEXT {F}.
Arguments OUTPUT_LABEL {F}.
Arguments features {F}.
Arguments MkEarlyRow {F}.
Arguments e_HADM_ID {F}.
Arguments e_TEXT {F}.
Arguments e_OUTPUT_LABEL {F}.
Arguments e_SUBJECT_ID {F}.
Arguments e_features {F}.

(** [sort_values] on key columns without missing values: a stable sort,
    computed by insertion. *)
Fixpoint insert_by {R} (le : R → R → bool) (r : R) (l : list R) : list R :=
  match l with
  | [] => [r]
  | y :: l' => if le r y then r :: l else y :: insert_by le r l'
  end.

Definition sort_by {R} (le : R → R → bool) (l : list R) : list R :=
  foldr (insert_by le) [] l.

(** The order of two key columns. *)
Definition pair_le (a b : Z * Z) : bool :=
  (a.1 <? b.1)%Z || ((a.1 =? b.1)%Z && (a.2 <=? b.2)%Z).

(** The group keys of a [groupby]: each key once, in ascending order. *)
Definition group_keys {K} `{EqDecision K} (le : K → K → bool) (keys : list K) : list K :=
  sort_by le (first_seen [] keys).

Section Tables.
Context {F : Type}.

(** [df['TEXT'].notnull()] *)
Definition text_notnull (r : AdmNote F) : bool :=
  match TEXT r with Some _ => true | None => false end.

(** *** The discharge summaries
    <<
    df_discharge = df_adm_notes[df_adm_notes['CATEGORY'] == 'Discharge summary']
    df_discharge = (df_discharge.groupby(['SUBJECT_ID','HADM_ID']).nth(-1)).reset_index()
    df_discharge = df_discharge[df_discharge['TEXT'].notnull()]
>> *)
Definition is_discharge_summary (r : AdmNote F) : bool :=
  bool_decide (CATEGORY r = Some "Discharge summary").

Definition note_key (r : AdmNote F) : Z * Z := (SUBJECT_ID r, HADM_ID r).

Definition of_key (k : Z * Z) (df : list (AdmNote F)) : list (AdmNote F) :=
  List.filter (λ r, bool_decide (note_key r = k)) df.

Definition select_discharge (df_adm_notes : list (AdmNote F)) : list (AdmNote F) :=
  let df_discharge := List.filter is_discharge_summary df_adm_notes in
  let lasts :=
    omap (λ k, last (of_key k df_discharge))
         (group_keys pair_le (map note_key df_discharge)) in
  List.filter text_notnull lasts.

(** *** [less_n_days_data] *)

(** [df_adm_notes['CHARTDATE']-df_adm_notes['ADMITTIME_C']]: the difference
    of two dates is a number of nanoseconds held in 64 bits, so it is there
    only for dates at most 9223372036 seconds (about 292 years) apart; the
    subtraction of the columns raises OverflowError when the difference of
    some row does not fit. A missing date gives a missing difference. *)
Definition max_timedelta : Z := 9223372036.

Definition gap_fits (r : AdmNote F) : bool :=
  match CHARTDATE r, ADMITTIME_C r with
  | Some x, Some y => (Z.abs (x - y) <=? max_timedelta)%Z
  | _, _ => true
  end.

(** [((CHARTDATE - ADMITTIME_C).dt.total_seconds()/(24*60*60)) < n] at a
    row, once the subtraction of the columns has not raised. *)
Definition within_days (n : Q) (r : AdmNote F) : bool :=
  Labeler.lt_days (Labeler.days_between (CHARTDATE r) (ADMITTIME_C r)) n.

(** The local [df_less_n]. *)
Definition early_notes (n : Q) (df_adm_notes : list (AdmNote F)) : list (AdmNote F) :=
  List.filter text_notnull (List.filter (within_days n) df_adm_notes).

(** [df_less_n[df_less_n['HADM_ID']==x]] *)
Definition of_admission (x : Z) (df : list (AdmNote F)) : list (AdmNote F) :=
  List.filter (λ r, (HADM_ID r =? x)%Z) df.

(** The row of [df_concat] for the admission [x]: the texts of its notes
    joined by a space ([join] raises on a missing text), and for every other
    column [.values[0]] of the notes of [x], which raises when there is
    none. *)
Definition concat_row (df_less_n : list (AdmNote F)) (x : Z) : option (EarlyRow F) :=
  let rows := of_admission x df_less_n in
  texts ← mapM TEXT rows;
  first ← head rows;
  Some (MkEarlyRow x (Chunker.join texts) (OUTPUT_LABEL first) (SUBJECT_ID first)
          (features first)).

Definition row_key (r : EarlyRow F) : Z * Z := (e_SUBJECT_ID r, e_HADM_ID r).

Definition row_le (a b : EarlyRow F) : bool := pair_le (row_key a) (row_key b).

(** The function; [None] is an exception: the overflow of the first
    statement, or an error of the statements on [df_concat]. *)
Definition less_n_days_data (df_adm_notes : list (AdmNote F)) (n : Q)
    : option (list (EarlyRow F)) :=
  if forallb gap_fits df_adm_notes then
    let df_less_n := early_notes n df_adm_notes in
    df_concat ← mapM (concat_row df_less_n)
                     (group_keys Z.leb (map HADM_ID df_less_n));
    Some (sort_by row_le df_concat)
  else None.

End Tables.

(** An admission with two discharge summaries, the second without text, and
    a nursing note written on the day of admission. *)
Definition addendum_example : list (AdmNote unit) :=
  [ MkAdmNote 5 500 (Some 0%Z) (Some 0%Z) (Some "Nursing") (Some "stable") 0 tt;
    MkAdmNote 5 500 (Some 0%Z) (Some 345600%Z) (Some "Discharge summary")
      (Some "discharged home") 0 tt;
    MkAdmNote 5 500 (Some 0%Z) (Some 432000%Z) (Some "Discharge summary") None 0 tt ].

(** A note dated in 2200 for an admission of 1700, about 500 years
    before. *)
Definition far_dates_example : list (AdmNote unit) :=
  [ MkAdmNote 6 600 (Some (-8520336000)%Z) (Some 7258118400%Z) (Some "Nursing")
      (Some "stable") 0 tt ].

End Notes.

(** ** 11. [run_readmission-original.py]: parameter copy and feature positions *)

Module Trainer.

(** How a loop over the zipped parameter lists ends. *)
Inductive outcome :=
  | Done
  | NameMismatch   (* [raise ValueError] *)
  | CopyFailed.    (* the error of [copy_] *)

#[export] Instance outcome_eq_dec : EqDecision outcome.
Proof. solve_decision. Defined.

Section Params.
(** The data of a parameter, and [dst.copy_(src)]: the data [dst] holds
    afterwards, or an error (shapes that do not match). *)
Context {T : Type} (copy_ : T → T → option T).

(** [copy_optimizer_params_to_model]: the parameters of the model after the
    call, which are updated in place, and how the loop ended. [zip] stops
    at the end of the shorter list. *)
Fixpoint copy_optimizer_params_to_model
    (named_params_model named_params_optimizer : list (string * T))
    : list (string * T) * outcome :=
  match named_params_optimizer, named_params_model with
  | (name_opti, param_opti) :: opti', (name_model, param_model) :: model' =>
      if decide (name_opti ≠ name_model) then (named_params_model, NameMismatch)
      else match copy_ param_model param_opti with
           | None => (named_params_model, CopyFailed)
           | Some data =>
               let '(rest, out) := copy_optimizer_params_to_model model' opti' in
               ((name_model, data) :: rest, out)
           end
  | _, _ => (named_params_model, Done)
  end.

(** The parameter at position [i] after a copy from the optimizer. *)
Definition copied (model opti : list (string * T)) (i : nat) : option (string * T) :=
  '(name, param_model) ← model !! i;
  '(_, param_opti) ← opti !! i;
  data ← copy_ param_model param_opti;
  Some (name, data).

End Params.

(** The tensors of a batch are named here by what they hold. *)
Record feature_state := FeatureState {
  tensors : list string;
  featurePositionDict : gmap string nat;
  positionIdx : nat
}.

(** <<
    if name in args.additional_features:
        tensors.append(torch.tensor([f.name for f in train_features], ...))
        featurePositionDict[name] = positionIdx
        positionIdx+=1
>> *)
Definition add_feature (additional_features : list string) (name : string)
    (st : feature_state) : feature_state :=
  if decide (name ∈ additional_features)
  then FeatureState (tensors st ++ [name])
         (<[name := positionIdx st]> (featurePositionDict st))
         (S (positionIdx st))
  else st.

(** The statements from [tensors = [...]] to the call of [TensorDataset],
    the same before training and before evaluation. *)
Definition feature_tensors (additional_features : option (list string)) : feature_state :=
  let st := FeatureState ["input_ids"; "input_mask"; "segment_ids"; "label_ids"] ∅ 0 in
  match additional_features with
  | None => st
  | Some feats =>
      let st := add_feature feats "admittime" st in
      let st := add_feature feats "daystonextadmit" st in
      let st := add_feature feats "duration" st in
      let st := add_feature feats "diag_icd9" st in
      let st := add_feature feats "diag_ccs" st in
      let st := add_feature feats "proc_icd9" st in
      let st := add_feature feats "proc_ccs" st in
      let st := add_feature feats "ndc" st in
      st
  end.

(** [input_ids, input_mask, segment_ids, label_ids, *extraFeatures = batch] *)
Definition extraFeatures (batch : list string) : list string := drop 4 batch.

(** The features the script knows, in the order of its [if] statements. *)
Definition feature_order : list string :=
  ["admittime"; "daystonextadmit"; "duration"; "diag_icd9"; "diag_ccs";
   "proc_icd9"; "proc_ccs"; "ndc"].

(** What the [if] statements keep true, [done] being the names tried so
    far. *)
Definition feature_inv (feats done : list string) (st : feature_state) : Prop :=
  tensors st
  = ["input_ids"; "input_mask"; "segment_ids"; "label_ids"]
    ++ List.filter (λ name, bool_decide (name ∈ feats)) done
  ∧ positionIdx st = length (List.filter (λ name, bool_decide (name ∈ feats)) done)
  ∧ ∀ name pos,
      featurePositionDict st !! name = Some pos
      ↔ List.filter (λ name, bool_decide (name ∈ feats)) done !! pos = Some name.

End Trainer.

(** ** 12. The value a backward fill leaves *)

Module Fill.

(** [fillna(method='bfill')] puts at a missing position the next value of
    the group that is not missing: of the values from a position on, the
    first that is there. *)
Fixpoint first_valid {V} (col : list (option V)) : option V :=
  match col with
  | [] => None
  | x :: rest => Labeler.or_else x (first_valid rest)
  end.

(** Four stays of one patient; the second has no discharge time. *)
Definition missing_discharge_example : list Labeler.Admission :=
  [ Labeler.MkAdmission 3 10 (Some 0%Z) (Some 100%Z) None (Some "EMERGENCY");
    Labeler.MkAdmission 3 11 (Some 1000%Z) None None (Some "EMERGENCY");
    Labeler.MkAdmission 3 12 (Some 2000%Z) (Some 2300%Z) None (Some "EMERGENCY");
    Labeler.MkAdmission 3 13 (Some 3000%Z) (Some 3300%Z) None (Some "EMERGENCY") ].

End Fill.

(** ** 13. A hospital of one-day stays

    The hospital of the split with every stay of one day: eight patients
    come back ten days after the start of a first stay, five hundred have
    a single stay, and every admission has one note of eleven words. *)

Module ShortStays.

Definition short_stay (i : nat) (hadm start : Z) : Labeler.Admission :=
  Labeler.MkAdmission (Z.of_nat i) hadm (Some start)
    (Some (start + Split.day)%Z) None (Some "EMERGENCY").

Definition short_hospital : list Labeler.Admission :=
  flat_map (λ i, [ short_stay i (1000 + Z.of_nat i) 0;
                   short_stay i (2000 + Z.of_nat i) (10 * Split.day) ]) (seq 1 8)
  ++ flat_map (λ i, [ short_stay i (3000 + Z.of_nat i) 0 ]) (seq 9 500).

Definition short_adm : list Labeler.Row := Labeler.final_admissions short_hospital.

Definition short_notes : list (Chunker.NoteRow unit) :=
  map (λ r, Chunker.MkNoteRow (Split.row_id r) (Labeler.OUTPUT_LABEL r) tt
              (Some (Chunker.join (Chunker.words 11))))
      short_adm.

Definition short_chunks : list (Chunker.ChunkRow unit) :=
  Chunker.preprocessing short_notes.

(** A stay of less than three days. *)
Definition below_3_days (a : Labeler.Row) : bool :=
  match Labeler.DURATION a with
  | Some d => negb (Qle_bool 3 d)
  | None => false
  end.

End ShortStays.

(** * Proofs *)

(** ** First-seen lists *)

Section FirstSeen.
Context {A : Type} `{EqDecision A}.
Implicit Types (l seen : list A) (x : A).

Lemma elem_of_first_seen seen l x :
  x ∈ first_seen seen l ↔ x ∈ l ∧ x ∉ seen.
Proof.
  revert seen. induction l as [|y l IH]; intros seen; simpl.
  - split; [by intros ?%elem_of_nil | by intros [?%elem_of_nil _]].
  - destruct (decide (y ∈ seen)) as [Hy|Hy].
    + rewrite IH, elem_of_cons. split; [tauto|].
      intros [[->|?] ?]; [done | tauto].
    + rewrite !elem_of_cons, IH, elem_of_cons.
      destruct (decide (x = y)) as [->|Hne]; [tauto|]. tauto.
Qed.

Lemma NoDup_first_seen seen l : NoDup (first_seen seen l).
Proof.
  revert seen. induction l as [|y l IH]; intros seen; simpl; [constructor|].
  destruct (decide (y ∈ seen)); [apply IH|].
  constructor; [|apply IH].
  rewrite elem_of_first_seen, elem_of_cons. tauto.
Qed.

Lemma first_seen_equiv seen seen' l :
  (∀ x, x ∈ seen ↔ x ∈ seen') → first_seen seen l = first_seen seen' l.
Proof.
  revert seen seen'. induction l as [|y l IH]; intros seen seen' Heq; simpl; [done|].
  destruct (decide (y ∈ seen)) as [Hy|Hy], (decide (y ∈ seen')) as [Hy'|Hy'].
  - by apply IH.
  - by apply Heq in Hy.
  - by apply Heq in Hy'.
  - f_equal. apply IH. intros x. rewrite !elem_of_cons, Heq. tauto.
Qed.

Lemma length_first_seen_le seen l : length (first_seen seen l) ≤ length l.
Proof.
  revert seen. induction l as [|y l IH]; intros seen; simpl; [lia|].
  destruct (decide (y ∈ seen)); simpl.
  - specialize (IH seen). lia.
  - specialize (IH (y :: seen)). lia.
Qed.
(** A loop of [append_if_absent] adds the new elements in first-seen order. *)
Lemma foldl_append_if_absent acc l :
  foldl append_if_absent acc l = acc ++ first_seen acc l.
Proof.
  revert acc. induction l as [|x l IH]; intros acc; simpl.
  - by rewrite app_nil_r.
  - unfold append_if_absent at 2. destruct (decide (x ∈ acc)) as [Hx|Hx]; [apply IH|].
    rewrite IH, <- app_assoc. simpl. do 2 f_equal.
    apply first_seen_equiv. intros y. rewrite elem_of_app, !elem_of_cons, elem_of_nil. tauto.
Qed.
End FirstSeen.

(** ** The vocabulary *)

Section VocabularyProofs.
Import Vocabulary.

Lemma vocab_inv_init : vocab_inv [] init_state.
Proof.
  split; simpl; try done.
  - intros c i. rewrite lookup_insert. case_decide; [|by rewrite lookup_empty].
    intros [= <-]. by left.
  - by intros ?%elem_of_nil.
Qed.

Lemma vocab_inv_dom ds st c :
  vocab_inv ds st → is_Some (st.1 !! c) ↔ c = "0" ∨ c ∈ ds.
Proof.
  intros Hinv. split.
  - intros [i Hi]. destruct (inv_bwd _ _ Hinv _ _ Hi) as [[-> _]|(k & _ & Hk)]; [by left|].
    right. by eapply list_elem_of_lookup_2.
  - intros [->|Hc]; [by rewrite (inv_zero _ _ Hinv)|].
    apply list_elem_of_lookup_1 in Hc as [k Hk]. by rewrite (inv_fwd _ _ Hinv _ _ Hk).
Qed.

Lemma vocab_inv_step ds st entry :
  vocab_inv ds st →
  vocab_inv (ds ++ first_seen ("0" :: ds) [entry]) (featureToIdx_step st entry).
Proof.
  intros Hinv. unfold featureToIdx_step. simpl.
  pose proof (vocab_inv_dom ds st entry Hinv) as Hdom.
  destruct (decide (entry ∈ "0" :: ds)) as [Hin|Hnin].
  - rewrite app_nil_r. apply elem_of_cons in Hin.
    apply Hdom in Hin as [i ->]. done.
  - rewrite elem_of_cons in Hnin.
    destruct (st.1 !! entry) as [i|] eqn:Hlk.
    { exfalso. apply Hnin, Hdom. eauto. }
    destruct st as [m idx]. simpl in *.
    pose proof (inv_idx _ _ Hinv) as Hidx. simpl in Hidx. subst idx.
    split; simpl.
    + rewrite length_app. simpl. lia.
    + rewrite lookup_insert_ne; [apply (inv_zero _ _ Hinv)|]. intros ->. tauto.
    + intros k c Hk. destruct (decide (k < length ds)) as [Hlt|Hge].
      * rewrite lookup_app_l in Hk by done.
        rewrite lookup_insert_ne; [by apply (inv_fwd _ _ Hinv)|].
        intros ->. apply Hnin. right. by eapply list_elem_of_lookup_2.
      * rewrite lookup_app_r in Hk by lia.
        destruct (k - length ds) as [|j] eqn:Hj; simpl in Hk; [|done].
        injection Hk as <-. rewrite lookup_insert_eq. f_equal. lia.
    + intros c i. rewrite lookup_insert. case_decide as Hc.
      * intros [= <-]. subst c. right. exists (length ds). split; [done|].
        rewrite lookup_app_r by lia. by rewrite Nat.sub_diag.
      * intros Hi. destruct (inv_bwd _ _ Hinv _ _ Hi) as [?|(k & -> & Hk)]; [by left|].
        right. exists k. split; [done|]. by apply lookup_app_l_Some.
    + rewrite elem_of_app, list_elem_of_singleton.
      intros [?|Heq]; [by apply (inv_nozero _ _ Hinv)|]. apply Hnin. by left.
Qed.

Lemma first_seen_cons_app seen (entry : string) rest :
  first_seen seen (entry :: rest)
  = first_seen seen [entry] ++ first_seen (first_seen seen [entry] ++ seen) rest.
Proof. simpl. by destruct (decide (entry ∈ seen)). Qed.

Lemma vocab_inv_loop features ds st :
  vocab_inv ds st →
  vocab_inv (ds ++ first_seen ("0" :: ds) features) (featureToIdx_loop st features).
Proof.
  revert ds st. induction features as [|entry rest IH]; intros ds st Hinv.
  - simpl. by rewrite app_nil_r.
  - rewrite first_seen_cons_app, app_assoc.
    change (featureToIdx_loop st (entry :: rest))
      with (featureToIdx_loop (featureToIdx_step st entry) rest).
    erewrite (first_seen_equiv _ ("0" :: ds ++ first_seen ("0" :: ds) [entry]) rest).
    + apply IH. by apply vocab_inv_step.
    + intros x. rewrite !elem_of_app, !elem_of_cons, !elem_of_app. tauto.
Qed.

Lemma vocab_inv_final features :
  vocab_inv (first_seen ["0"] features) (featureToIdx_loop init_state features).
Proof. apply (vocab_inv_loop features [] init_state vocab_inv_init). Qed.

(** An entry of the dictionary survives every later iteration. *)
Lemma step_keeps st entry c i :
  st.1 !! c = Some i → (featureToIdx_step st entry).1 !! c = Some i.
Proof.
  intros Hc. unfold featureToIdx_step.
  destruct (st.1 !! entry) eqn:He; [done|]. simpl.
  rewrite lookup_insert_ne; [done|]. intros ->. congruence.
Qed.

Lemma loop_keeps features st c i :
  st.1 !! c = Some i → (featureToIdx_loop st features).1 !! c = Some i.
Proof.
  revert st. induction features as [|entry rest IH]; intros st Hc; [done|].
  apply IH. by apply step_keeps.
Qed.

(** C9. For every sequence of codes, the vocabulary built by [featureToIdx]
    maps the sentinel ["0"] to index 0; the other distinct codes get the
    indices 1, 2, ... in the order in which they are first seen; its keys
    are ["0"] and the codes of the sequence; no two codes share an index;
    and an index, once given, is kept however the sequence goes on. *)
Theorem featureToIdx_vocabulary (features : list string) :
  featureToIdx features !! "0" = Some 0
  ∧ (∀ k c, first_seen ["0"] features !! k = Some c →
            featureToIdx features !! c = Some (S k))
  ∧ (∀ c, is_Some (featureToIdx features !! c) ↔ c = "0" ∨ c ∈ features)
  ∧ (∀ c1 c2 i, featureToIdx features !! c1 = Some i →
                featureToIdx features !! c2 = Some i → c1 = c2)
  ∧ (∀ more c i, featureToIdx features !! c = Some i →
                 featureToIdx (features ++ more) !! c = Some i).
Proof.
  pose proof (vocab_inv_final features) as Hinv. unfold featureToIdx.
  split; [apply (inv_zero _ _ Hinv)|].
  split; [apply (inv_fwd _ _ Hinv)|].
  split; [|split].
  - intros c. rewrite (vocab_inv_dom _ _ c Hinv), elem_of_first_seen.
    rewrite list_elem_of_singleton.
    destruct (decide (c = "0")); tauto.
  - intros c1 c2 i H1 H2.
    destruct (inv_bwd _ _ Hinv _ _ H1) as [[-> ->]|(k1 & -> & Hk1)];
      destruct (inv_bwd _ _ Hinv _ _ H2) as [[-> ?]|(k2 & ? & Hk2)];
      try done.
    simplify_eq. congruence.
  - intros more c i Hc. unfold featureToIdx_loop. rewrite foldl_app.
    by apply loop_keeps.
Qed.
End VocabularyProofs.

Lemma featureToIdx_vocabulary_witness :
  first_seen ["0"] ["b"; "a"; "0"; "b"; "c"] !! 1 = Some "a"
  ∧ Vocabulary.featureToIdx ["b"; "a"; "0"; "b"; "c"] !! "a" = Some 2.
Proof.
  split; [reflexivity|].
  destruct (featureToIdx_vocabulary ["b"; "a"; "0"; "b"; "c"]) as (_ & Hfwd & _).
  apply Hfwd. reflexivity.
Defined.

(** ** The code mapper *)

Section ICDProofs.
Import ICD.
Variable icd9TOCCS_Map : gmap string string.

Lemma code_loop_small codes st :
  tempSmallICDCodeList (foldl (code_step icd9TOCCS_Map) st codes)
  = foldl append_if_absent (tempSmallICDCodeList st) (map getICDlevel1 codes).
Proof.
  revert st. induction codes as [|c codes IH]; intros st; [done|].
  simpl. rewrite IH. unfold code_step. by destruct (icd9TOCCS_Map !! c).
Qed.

Lemma code_loop_ccs codes st :
  tempCCSCodeList (foldl (code_step icd9TOCCS_Map) st codes)
  = tempCCSCodeList st ++ omap (λ c, icd9TOCCS_Map !! c) codes.
Proof.
  revert st. induction codes as [|c codes IH]; intros st; simpl.
  - by rewrite app_nil_r.
  - rewrite IH. unfold code_step. destruct (icd9TOCCS_Map !! c); simpl; [|done].
    by rewrite <- app_assoc.
Qed.

Lemma row_loop column st :
  let st' := foldl (row_step icd9TOCCS_Map) st column in
  mappedSmallICDList st'
  = mappedSmallICDList st ++ map (λ codes, first_seen [] (map getICDlevel1 codes)) column
  ∧ mappedCCSList st'
  = mappedCCSList st ++ map (omap (λ c, icd9TOCCS_Map !! c)) column.
Proof.
  revert st. induction column as [|codes column IH]; intros st; simpl.
  - by rewrite !app_nil_r.
  - destruct (IH (row_step icd9TOCCS_Map st codes)) as [-> ->].
    unfold row_step, process_row. simpl.
    rewrite code_loop_small, code_loop_ccs, foldl_append_if_absent. simpl.
    by rewrite <- !app_assoc.
Qed.

Lemma length_omap_le {A B} (f : A → option B) (l : list A) :
  length (omap f l) ≤ length l.
Proof. induction l as [|x l IH]; csimpl; [lia|]. destruct (f x); simpl; lia. Qed.

(** C5, as the code has it. For every admission the hierarchy list is the
    list of reduced codes in first-seen order, hence free of duplicates,
    and the group list holds the group code of every ICD code found in the
    table, in order and with repetitions; neither is longer than the
    admission's ICD list. *)
Theorem map_ICD9_to_CCS_lists (ICD9_CODE_column : list (list string)) :
  let '(mappedCCSList, mappedSmallICDList) :=
    map_ICD9_to_CCS icd9TOCCS_Map ICD9_CODE_column in
  mappedSmallICDList
    = map (λ codes, first_seen [] (map getICDlevel1 codes)) ICD9_CODE_column
  ∧ mappedCCSList
    = map (omap (λ c, icd9TOCCS_Map !! c)) ICD9_CODE_column
  ∧ Forall NoDup mappedSmallICDList
  ∧ Forall2 (λ small codes, length small ≤ length codes)
      mappedSmallICDList ICD9_CODE_column
  ∧ Forall2 (λ ccs codes, length ccs ≤ length codes)
      mappedCCSList ICD9_CODE_column.
Proof.
  unfold map_ICD9_to_CCS.
  destruct (row_loop ICD9_CODE_column (MapState [] [] 0 0)) as [Hs Hc].
  simpl in Hs, Hc. rewrite Hs, Hc.
  split; [done|]. split; [done|]. split; [|split].
  - apply Forall_forall. intros l [codes [-> _]]%list_elem_of_fmap.
    apply NoDup_first_seen.
  - apply Forall2_fmap_l, Forall_Forall2_diag, Forall_forall. intros codes _. simpl.
    etrans; [apply length_first_seen_le|]. by rewrite length_map.
  - apply Forall2_fmap_l, Forall_Forall2_diag, Forall_forall. intros codes _. simpl.
    apply length_omap_le.
Qed.
End ICDProofs.

(** C5 as stated fails on the group list: two ICD codes of one admission
    with the same group give that group twice. *)
Lemma group_list_repeats :
  (ICD.map_ICD9_to_CCS ICD.ccs_example_map [ICD.ccs_example_codes]).1 = [["49"; "49"]]
  ∧ ¬ Forall NoDup (ICD.map_ICD9_to_CCS ICD.ccs_example_map [ICD.ccs_example_codes]).1.
Proof.
  assert (H : (ICD.map_ICD9_to_CCS ICD.ccs_example_map [ICD.ccs_example_codes]).1
              = [["49"; "49"]]) by (by vm_compute).
  split; [done|]. rewrite H. intros Hall.
  apply Forall_cons in Hall as [Hnd _].
  apply NoDup_cons in Hnd as [Hnin _]. apply Hnin. by left.
Qed.

(** ** The medication normaliser *)

Section MedicationProofs.
Import Medication.
Variable ndcCuiMap : gmap string string.

Lemma lookup_keys_cons seen v rest :
  lookup_keys (dom ndcCuiMap) seen (v :: rest)
  = step_key (dom ndcCuiMap) seen v :: lookup_keys (dom ndcCuiMap) (step_seen seen v) rest.
Proof. done. Qed.

(** An iteration never raises, and this is its effect on the three lists. *)
Lemma med_step_lists st v :
  ∃ st', med_step ndcCuiMap st v = Some st'
    ∧ used_medications st' = step_seen (used_medications st) v
    ∧ unique_medication st'
      = (if negb (py_in v (used_medications st))
         then match valid_code (dom ndcCuiMap) v with
              | Some s => unique_medication st ++ [s]
              | None => unique_medication st
              end
         else unique_medication st)
    ∧ temp_cuis_list st'
      = match ndcCuiMap !! step_key (dom ndcCuiMap) (used_medications st) v with
        | Some cui => append_if_absent (temp_cuis_list st) cui
        | None => temp_cuis_list st
        end.
Proof.
  unfold med_step, step_key, step_seen.
  destruct (py_in v (used_medications st)) eqn:Hin; simpl.
  - destruct v as [|z]; [done|]. simpl.
    destruct (negb (z =? 0)%Z && _); eauto.
  - destruct v as [|z]; simpl.
    + eexists. split; [done|]. by simpl.
    + destruct ((z =? 0)%Z || negb _) eqn:Hinv; simpl.
      * eexists. split; [done|]. by simpl.
      * destruct (negb (z =? 0)%Z && _); eauto.
Qed.

Lemma py_in_spec v seen :
  py_in v seen = true ↔ ∃ z, v = Num z ∧ Num z ∈ seen.
Proof.
  destruct v as [|z]; simpl.
  - split; [done | by intros (? & ? & _)].
  - rewrite bool_decide_eq_true. split; [eauto | by intros (? & [= <-] & ?)].
Qed.

Lemma valid_code_Some v s :
  valid_code (dom ndcCuiMap) v = Some s
  ↔ ∃ z, v = Num z ∧ z ≠ 0%Z ∧ py_str z ∈ (dom ndcCuiMap) ∧ s = py_str z.
Proof.
  destruct v as [|z]; simpl; [split; [done | by intros (? & ? & _)]|].
  destruct (Z.eqb_spec z 0) as [->|Hz]; simpl.
  - split; [done | by intros (? & [= <-] & ? & _)].
  - destruct (bool_decide_reflect (py_str z ∈ (dom ndcCuiMap))) as [Hd|Hd]; simpl.
    + split; [intros [= <-]; eauto | by intros (? & [= <-] & _ & _ & ->)].
    + split; [done | by intros (? & [= <-] & _ & ? & _)].
Qed.

(** A value is in the set of used values exactly when its string is among
    the strings of the kept values of that set. *)
Lemma valid_seen seen v s :
  valid_code (dom ndcCuiMap) v = Some s →
  s ∈ omap (valid_code (dom ndcCuiMap)) seen ↔ py_in v seen = true.
Proof.
  intros Hv. rewrite list_elem_of_omap, py_in_spec.
  apply valid_code_Some in Hv as (z & -> & Hz & Hd & ->).
  split.
  - intros (v' & Hin & (z' & -> & _ & _ & Heq)%valid_code_Some).
    apply (inj pretty) in Heq as ->. eauto.
  - intros (z' & [= <-] & Hin). exists (Num z). split; [done|].
    apply valid_code_Some. eauto.
Qed.

Lemma med_loop values st :
  ∃ st', foldl_opt (med_step ndcCuiMap) st values = Some st'
    ∧ unique_medication st'
      = unique_medication st
        ++ first_seen (omap (valid_code (dom ndcCuiMap)) (used_medications st))
                      (omap (valid_code (dom ndcCuiMap)) values)
    ∧ temp_cuis_list st'
      = foldl append_if_absent (temp_cuis_list st)
          (omap (λ key, ndcCuiMap !! key)
                (lookup_keys (dom ndcCuiMap) (used_medications st) values)).
Proof.
  revert st. induction values as [|v values IH]; intros st.
  - exists st. simpl. by rewrite app_nil_r.
  - destruct (med_step_lists st v) as (st1 & Hstep & Hused & Huniq & Hcuis).
    destruct (IH st1) as (st' & Hloop & Huniq' & Hcuis').
    exists st'. simpl. rewrite Hstep. split; [done|]. split.
    + rewrite Huniq', Huniq, Hused. unfold step_seen. csimpl.
      destruct (valid_code (dom ndcCuiMap) v) as [s|] eqn:Hv; csimpl.
      * pose proof (valid_seen (used_medications st) v s Hv) as Hseen.
        destruct (py_in v (used_medications st)); simpl.
        -- destruct (decide (s ∈ omap (valid_code (dom ndcCuiMap)) (used_medications st)));
             [done | tauto].
        -- destruct (decide (s ∈ omap (valid_code (dom ndcCuiMap)) (used_medications st)))
             as [Hs|Hs]; [apply Hseen in Hs; done|].
           csimpl. rewrite Hv. by rewrite <- app_assoc.
      * destruct (py_in v (used_medications st)); simpl; [done|].
        csimpl. by rewrite Hv.
    + rewrite Hcuis', Hcuis, Hused. csimpl.
      by destruct (ndcCuiMap !! step_key (dom ndcCuiMap) (used_medications st) v).
Qed.

Lemma resolve_concepts_foldl keys :
  resolve_concepts ndcCuiMap keys
  = foldl append_if_absent [] (omap (λ key, ndcCuiMap !! key) keys).
Proof.
  unfold resolve_concepts. generalize (@nil string).
  induction keys as [|k keys IH]; intros acc; [done|].
  csimpl. rewrite IH. by destruct (ndcCuiMap !! k).
Qed.

Lemma process_cell_lists mapped0 unmapped0 values :
  ∃ st, process_cell ndcCuiMap mapped0 unmapped0 values = Some st
    ∧ unique_medication st = dedup_codes (dom ndcCuiMap) values
    ∧ temp_cuis_list st
      = resolve_concepts ndcCuiMap (lookup_keys (dom ndcCuiMap) [] values).
Proof.
  destruct (med_loop values (MedState [] [] [] mapped0 unmapped0))
    as (st & Hloop & Huniq & Hcuis).
  exists st. split; [done|]. split; [done|].
  by rewrite resolve_concepts_foldl.
Qed.

(** With no entry for ["0"] in the table, the keys of the loop resolve to
    the same concepts as the original values. *)
Lemma lookup_keys_original seen values :
  ndcCuiMap !! "0" = None →
  omap (λ key, ndcCuiMap !! key) (lookup_keys (dom ndcCuiMap) seen values)
  = omap (λ key, ndcCuiMap !! key) (original_keys values).
Proof.
  intros Hzero. revert seen. induction values as [|v values IH]; intros seen; [done|].
  rewrite lookup_keys_cons. csimpl. rewrite IH. unfold step_key.
  destruct v as [|z]; [csimpl; by rewrite Hzero|].
  destruct (py_in (Num z) seen); csimpl; [done|].
  destruct (Z.eqb_spec z 0) as [->|Hz]; simpl; [by rewrite Hzero|].
  destruct (bool_decide_reflect (py_str z ∈ (dom ndcCuiMap))) as [Hd|Hd]; simpl; [done|].
  rewrite Hzero. apply not_elem_of_dom in Hd. by rewrite Hd.
Qed.

(** C6, as the code has it. The loop never raises. Each entry is looked up
    in the concept table under its value after the sentinel replacement:
    under ["0"] if it was replaced (a missing value, or the first
    occurrence of a zero or of a code outside the NDC universe), under its
    own integer otherwise. A concept found is appended unless already in
    the list, a miss appends nothing, so the list has no duplicates. When
    the table has no entry for ["0"] this is the list obtained from the
    original values. *)
Theorem concept_lookup_keys (mapped0 unmapped0 : nat) (values : list ndc_value) :
  ∃ st, process_cell ndcCuiMap mapped0 unmapped0 values = Some st
    ∧ temp_cuis_list st
      = resolve_concepts ndcCuiMap (lookup_keys (dom ndcCuiMap) [] values)
    ∧ temp_cuis_list st
      = first_seen [] (omap (λ key, ndcCuiMap !! key)
                            (lookup_keys (dom ndcCuiMap) [] values))
    ∧ NoDup (temp_cuis_list st)
    ∧ (ndcCuiMap !! "0" = None →
       temp_cuis_list st = resolve_concepts ndcCuiMap (original_keys values)).
Proof.
  destruct (process_cell_lists mapped0 unmapped0 values) as (st & Hrun & _ & Hcuis).
  exists st. split; [done|]. split; [done|].
  assert (Hfs : temp_cuis_list st
                = first_seen [] (omap (λ key, ndcCuiMap !! key)
                                      (lookup_keys (dom ndcCuiMap) [] values))).
  { by rewrite Hcuis, resolve_concepts_foldl, foldl_append_if_absent. }
  split; [done|]. split.
  - rewrite Hfs. apply NoDup_first_seen.
  - intros Hzero. rewrite Hcuis, !resolve_concepts_foldl.
    by rewrite lookup_keys_original.
Qed.

(** C7. The loop never raises, and the deduplicated list of a cell holds
    the string of every value that is a number other than zero with its
    string in the NDC universe, once, in the order of first occurrence;
    a missing value, a zero and a code outside the universe are left out. *)
Theorem unique_medication_dedup (mapped0 unmapped0 : nat) (values : list ndc_value) :
  ∃ st, process_cell ndcCuiMap mapped0 unmapped0 values = Some st
    ∧ unique_medication st = dedup_codes (dom ndcCuiMap) values
    ∧ NoDup (unique_medication st)
    ∧ (∀ s, s ∈ unique_medication st
            ↔ ∃ z, Num z ∈ values ∧ z ≠ 0%Z ∧ py_str z ∈ (dom ndcCuiMap) ∧ s = py_str z)
    ∧ (dom ndcCuiMap = {["123"; "456"]} → values = spec_example_values →
       unique_medication st = ["123"; "456"]).
Proof.
  destruct (process_cell_lists mapped0 unmapped0 values) as (st & Hrun & Huniq & _).
  exists st. split; [done|]. split; [done|]. rewrite Huniq. unfold dedup_codes.
  split; [apply NoDup_first_seen|]. split.
  - intros s. rewrite elem_of_first_seen, list_elem_of_omap. split.
    + intros [(v & Hin & (z & -> & ?)%valid_code_Some) _]. eauto.
    + intros (z & Hin & Hz & Hd & ->). split; [|by intros ?%elem_of_nil].
      exists (Num z). split; [done|]. apply valid_code_Some. eauto.
  - intros -> ->. by vm_compute.
Qed.

(** *** The frame *)

Lemma loc_at_set_eq df i c v : loc (at_set df i c v) i c = Some v.
Proof. unfold loc, at_set. simpl. apply lookup_insert_eq. Qed.

Lemma loc_at_set_ne df i c v j c' :
  (c' ≠ c ∨ j ≠ i) → loc (at_set df i c v) j c' = loc df j c'.
Proof.
  intros Hne. unfold loc, at_set. simpl. apply lookup_insert_ne.
  intros [= -> ->]. by destruct Hne.
Qed.

Lemma index_loop pandasDataFrame column todo :
  ∀ st df,
    heap st !! pandasDataFrame = Some df →
    NoDup todo →
    (∀ i, i ∈ todo → ∃ l, loc df i column = Some (CFloats l)) →
    ∃ st' df',
      foldl_opt (index_step ndcCuiMap pandasDataFrame (Some column)) st todo = Some st'
      ∧ heap st' = <[pandasDataFrame := df']> (heap st)
      ∧ df_index df' = df_index df
      ∧ df_columns df' = df_columns df
      ∧ (∀ i l, i ∈ todo → loc df i column = Some (CFloats l) →
           loc df' i column = Some (CStrs (dedup_codes (dom ndcCuiMap) l)))
      ∧ (∀ i c, c ≠ column ∨ i ∉ todo → loc df' i c = loc df i c)
      ∧ unique_cuis_list st'
        = unique_cuis_list st ++ map (cell_concepts ndcCuiMap df column) todo.
Proof.
  induction todo as [|i todo IH]; intros st df Hheap Hnd Hcells.
  - exists st, df. simpl. rewrite insert_id by done. rewrite app_nil_r.
    repeat split; try done. by intros i l ?%elem_of_nil.
  - apply NoDup_cons in Hnd as [Hi Hnd].
    destruct (Hcells i) as [l Hl]; [by left|].
    destruct (process_cell_lists (fmapped st) (funmapped st) l)
      as (r & Hr & Huniq & Hcuis).
    set (df1 := at_set df i column (CStrs (unique_medication r))).
    set (st1 := FunState (<[pandasDataFrame := df1]> (heap st))
                  (unique_cuis_list st ++ [temp_cuis_list r]) (mapped r) (unmapped r)).
    assert (Hstep : index_step ndcCuiMap pandasDataFrame (Some column) st i = Some st1).
    { unfold index_step. simpl. rewrite Hheap. simpl. rewrite Hl. simpl.
      rewrite Hr. done. }
    destruct (IH st1 df1) as (st' & df' & Hloop & Hh & Hix & Hcols & Hnew & Hold & Hc).
    { simpl. apply lookup_insert_eq. }
    { done. }
    { intros j Hj. destruct (Hcells j) as [lj Hlj]; [by right|].
      exists lj. unfold df1. rewrite loc_at_set_ne; [done|]. right. by intros ->. }
    exists st', df'. cbn [foldl_opt]. rewrite Hstep. split; [done|].
    split; [rewrite Hh; simpl; apply insert_insert_eq|].
    split; [by rewrite Hix|]. split; [by rewrite Hcols|].
    split; [|split].
    + intros j lj [->|Hj]%elem_of_cons Hlj.
      * rewrite Hold by (by right). unfold df1. rewrite loc_at_set_eq.
        rewrite Huniq. congruence.
      * apply Hnew; [done|]. unfold df1. rewrite loc_at_set_ne; [done|].
        right. by intros ->.
    + intros j c Hjc. rewrite Hold.
      * unfold df1. apply loc_at_set_ne.
        destruct Hjc as [?|Hj]; [by left|]. right. intros ->. apply Hj. by left.
      * destruct Hjc as [?|Hj]; [by left|]. right. intros ?. apply Hj. by right.
    + rewrite Hc. simpl. rewrite <- app_assoc. simpl. do 2 f_equal.
      * unfold cell_concepts. by rewrite Hl, Hcuis.
      * apply map_ext_in. intros j Hj%list_elem_of_In. unfold cell_concepts, df1.
        rewrite loc_at_set_ne; [done|]. right. by intros ->.
Qed.

(** C10. Called on a frame of the store that has a medication column with
    a list of values in every row, the function returns the reference it
    was given; in the store only that frame has changed; its index and
    columns are the same; the medication cell of every row holds the
    deduplicated code list of the values it held; and every cell of every
    other column is as it was. The second result lists, row by row, the
    concepts of the cell. *)
Theorem get_unique_ordered_medication_frame
    (pandasDataFrame : ref) (h : gmap ref DataFrame) (df : DataFrame) (column : string) :
  h !! pandasDataFrame = Some df →
  choose_column df = Some column →
  NoDup (df_index df) →
  (∀ i, i ∈ df_index df → ∃ l, loc df i column = Some (CFloats l)) →
  ∃ df',
    get_unique_ordered_medication ndcCuiMap pandasDataFrame h
    = Some (<[pandasDataFrame := df']> h,
            (pandasDataFrame, map (cell_concepts ndcCuiMap df column) (df_index df)))
    ∧ df_index df' = df_index df
    ∧ df_columns df' = df_columns df
    ∧ (∀ i l, i ∈ df_index df → loc df i column = Some (CFloats l) →
         loc df' i column = Some (CStrs (dedup_codes (dom ndcCuiMap) l)))
    ∧ (∀ i c, c ≠ column → loc df' i c = loc df i c)
    ∧ (∀ i, i ∉ df_index df → loc df' i column = loc df i column).
Proof.
  intros Hh Hcol Hnd Hcells.
  destruct (index_loop pandasDataFrame column (df_index df) (FunState h [] 0 0) df)
    as (st' & df' & Hloop & Hheap & Hix & Hcols & Hnew & Hold & Hc); try done.
  exists df'. unfold get_unique_ordered_medication. rewrite Hh. simpl.
  rewrite Hcol, Hloop. simpl. rewrite Hheap, Hc. simpl.
  repeat split; try done.
  - intros i c Hne. apply Hold. by left.
  - intros i Hi. apply Hold. by right.
Qed.
End MedicationProofs.

Section MedicationExamples.
Import Medication.


(** C6 as stated fails when the table has an entry for ["0"]: the code 999
  is outside the table, so looking it up under its own value would find
  nothing, but the loop has replaced it by the sentinel and finds the
  concept of ["0"]. *)
Lemma concept_lookup_after_replacement :
temp_cuis_list <$> process_cell zero_key_map 0 0 zero_key_values = Some ["C0000000"]
∧ resolve_concepts zero_key_map (original_keys zero_key_values) = [].
Proof. split; by vm_compute. Qed.

Lemma concept_lookup_keys_witness :
zero_key_map !! "999" = None
∧ ∃ st, process_cell example_map 0 0 spec_example_values = Some st
    ∧ temp_cuis_list st = ["C0000123"; "C0000456"].
Proof.
split; [by vm_compute|].
destruct (concept_lookup_keys example_map 0 0 spec_example_values)
  as (st & Hrun & _ & _ & _ & Horig).
exists st. split; [done|]. rewrite Horig; by vm_compute.
Defined.

Lemma unique_medication_dedup_witness :
∃ st, process_cell example_map 0 0 spec_example_values = Some st
  ∧ unique_medication st = ["123"; "456"].
Proof.
destruct (unique_medication_dedup example_map 0 0 spec_example_values)
  as (st & Hrun & _ & _ & _ & Hex).
exists st. split; [done|]. apply Hex; [|done].
apply set_eq. intros s. unfold example_map.
rewrite !dom_insert, dom_empty. set_solver.
Defined.

Lemma get_unique_ordered_medication_frame_witness :
∃ df',
  get_unique_ordered_medication example_map 0 example_heap
  = Some (<[0 := df']> example_heap,
          (0, [["C0000123"; "C0000456"]; ["C0000456"]]))
  ∧ loc df' 0 "NDC" = Some (CStrs ["123"; "456"])
  ∧ loc df' 1 "NDC" = Some (CStrs ["456"])
  ∧ loc df' 0 "HADM_ID" = Some (CInt 100001).
Proof.
destruct (get_unique_ordered_medication_frame example_map 0 example_heap
            example_frame "NDC")
  as (df' & Hrun & _ & _ & Hnew & Hother & _).
- by vm_compute.
- by vm_compute.
- simpl. apply NoDup_cons. split; [by intros ?%list_elem_of_singleton|].
  apply NoDup_singleton.
- intros i Hi. apply elem_of_cons in Hi as [->|Hi]; [eexists; by vm_compute|].
  apply list_elem_of_singleton in Hi as ->. eexists; by vm_compute.
- assert (Hc : map (cell_concepts example_map example_frame "NDC") (df_index example_frame)
               = [["C0000123"; "C0000456"]; ["C0000456"]]) by (by vm_compute).
  exists df'. split; [by rewrite Hrun, Hc|].
  split; [|split].
  + rewrite (Hnew 0 spec_example_values); [by vm_compute| by left | by vm_compute].
  + rewrite (Hnew 1 [NaN; Num 456]); [by vm_compute| right; by left | by vm_compute].
  + rewrite Hother by done. by vm_compute.
Defined.
End MedicationExamples.

(** ** The admission table *)

Section LabelerProofs.
Import Labeler.

(** *** The sort *)

Lemma key_le_total a b : key_le a b = true ∨ key_le b a = true.
Proof.
  unfold key_le.
  destruct (Z.ltb_spec (SUBJECT_ID a) (SUBJECT_ID b)); [by left|].
  destruct (Z.ltb_spec (SUBJECT_ID b) (SUBJECT_ID a)); [by right|].
  destruct (ADMITTIME a) as [x|], (ADMITTIME b) as [y|]; auto.
  destruct (Z.leb_spec x y); [by left|]. right. apply Z.leb_le. lia.
Qed.

Lemma key_le_trans a b c :
  key_le a b = true → key_le b c = true → key_le a c = true.
Proof.
  unfold key_le.
  destruct (Z.ltb_spec (SUBJECT_ID a) (SUBJECT_ID b)),
           (Z.ltb_spec (SUBJECT_ID b) (SUBJECT_ID a)),
           (Z.ltb_spec (SUBJECT_ID b) (SUBJECT_ID c)),
           (Z.ltb_spec (SUBJECT_ID c) (SUBJECT_ID b)),
           (Z.ltb_spec (SUBJECT_ID a) (SUBJECT_ID c)),
           (Z.ltb_spec (SUBJECT_ID c) (SUBJECT_ID a));
    try done; try lia.
  destruct (ADMITTIME a), (ADMITTIME b), (ADMITTIME c); try done.
  rewrite !Z.leb_le. lia.
Qed.

(** Within a patient, a missing admission time is followed by missing
    admission times only. *)
Lemma key_le_same_subject a b :
  key_le a b = true → same_subject a b = true →
  ADMITTIME a = None → ADMITTIME b = None.
Proof.
  unfold key_le, same_subject. rewrite Z.eqb_eq. intros Hle Heq Ha.
  rewrite Heq, Z.ltb_irrefl, Ha in Hle. by destruct (ADMITTIME b).
Qed.

Section SortProofs.
Context {R : Type} (key : R → Admission).
Let le (x y : R) : Prop := key_le (key x) (key y) = true.

Lemma insert_sorted_perm r l : insert_sorted key r l ≡ₚ r :: l.
Proof.
  induction l as [|y l IH]; simpl; [done|].
  destruct (key_le (key r) (key y)); [done|].
  rewrite IH. apply Permutation_swap.
Qed.

Lemma sort_values_perm df : sort_values key df ≡ₚ df.
Proof.
  induction df as [|r df IH]; simpl; [done|].
  by rewrite insert_sorted_perm, IH.
Qed.

Lemma insert_sorted_sorted r l :
  StronglySorted le l → StronglySorted le (insert_sorted key r l).
Proof.
  induction 1 as [|y l Hl IH Hy]; simpl.
  - repeat constructor.
  - destruct (key_le (key r) (key y)) eqn:Hry.
    + constructor; [by constructor|]. constructor; [done|].
      eapply Forall_impl; [apply Hy|]. intros z Hz. by eapply key_le_trans.
    + constructor; [done|].
      rewrite insert_sorted_perm. constructor; [|done].
      destruct (key_le_total (key r) (key y)) as [H|H]; [congruence | done].
Qed.

Lemma sort_values_sorted df : StronglySorted le (sort_values key df).
Proof.
  induction df as [|r df IH]; simpl; [constructor|].
  by apply insert_sorted_sorted.
Qed.

(** Sorting a frame that is in order leaves it as it is. *)
Lemma sort_values_id df : StronglySorted le df → sort_values key df = df.
Proof.
  induction 1 as [|y l Hl IH Hy]; simpl; [done|].
  rewrite IH. destruct l as [|z l]; simpl; [done|].
  apply Forall_cons in Hy as [Hyz _]. unfold le in Hyz. by rewrite Hyz.
Qed.
End SortProofs.

(** *** The rows keep their admission *)

Lemma link_rows_adm before l : map adm (link_rows before l) = l.
Proof.
  revert before. induction l as [|r l IH]; intros before; simpl; [done|].
  by rewrite IH.
Qed.

Lemma null_elective_adm df : map adm (null_elective df) = map adm df.
Proof.
  unfold null_elective. rewrite map_map. apply map_ext. intros r.
  unfold null_elective_row. by destruct (is_elective _).
Qed.

Lemma bfill_next_adm df : map adm (bfill_next df) = map adm df.
Proof. induction df as [|r df IH]; simpl; [done|]. by rewrite IH. Qed.

(** The PREV fill leaves the admission and the NEXT columns alone. *)
Lemma bfill_prev_next df :
  map (λ r, (adm r, NEXT_ADMITTIME r)) (bfill_prev df)
  = map (λ r, (adm r, NEXT_ADMITTIME r)) df.
Proof. induction df as [|r df IH]; simpl; [done|]. by rewrite IH. Qed.

Lemma sorted_map_adm (df : list Linked) :
  key_sorted (map adm df) →
  StronglySorted (λ x y, key_le (adm x) (adm y) = true) df.
Proof.
  induction df as [|r df IH]; simpl; intros Hs; [constructor|].
  apply StronglySorted_inv in Hs as [Hs Hall]. constructor; [by apply IH|].
  by apply Forall_map in Hall.
Qed.

(** *** The NEXT_ADMITTIME column *)

Lemma find_map_view {X Y} (f : X → Y) (p : Y → bool) (l : list X) :
  List.find p (map f l) = f <$> List.find (λ x, p (f x)) l.
Proof.
  induction l as [|x l IH]; simpl; [done|]. by destruct (p (f x)).
Qed.

Lemma find_pred_ext {X} (p q : X → bool) (l : list X) :
  (∀ x, p x = q x) → List.find p l = List.find q l.
Proof.
  intros Hpq. induction l as [|x l IH]; simpl; [done|]. by rewrite Hpq, IH.
Qed.

Lemma null_elective_row_adm r : adm (null_elective_row r) = adm r.
Proof. unfold null_elective_row. by destruct (is_elective _). Qed.

Lemma null_elective_row_next r :
  NEXT_ADMITTIME (null_elective_row r)
  = if is_elective (NEXT_ADMISSION_TYPE r) then None else NEXT_ADMITTIME r.
Proof. unfold null_elective_row. by destruct (is_elective _). Qed.

Lemma next_view_link before l :
  map (λ r, (adm r, NEXT_ADMITTIME r)) (bfill_next (null_elective (link_rows before l)))
  = next_time_column l.
Proof.
  revert before. induction l as [|a l IH]; intros before; [done|].
  cbn [link_rows null_elective map bfill_next next_time_column].
  fold (null_elective (link_rows (a :: before) l)).
  rewrite IH. cbn [adm NEXT_ADMITTIME].
  rewrite null_elective_row_adm, null_elective_row_next. cbn [adm NEXT_ADMITTIME NEXT_ADMISSION_TYPE].
  f_equal. f_equal. f_equal.
  - unfold shifted_next_time.
    destruct (List.find (same_subject a) l) as [n|]; simpl; [|done].
    by destruct (is_elective (ADMISSION_TYPE n)).
  - rewrite <- (IH (a :: before)), find_map_view. unfold same_subject_l.
    rewrite null_elective_row_adm. cbn [adm fst].
    by destruct (List.find _ (bfill_next _)).
Qed.

Lemma next_time_column_fst l : map fst (next_time_column l) = l.
Proof. induction l as [|a l IH]; simpl; [done|]. by rewrite IH. Qed.

Lemma same_subject_congr a b c :
  same_subject a b = true → same_subject a c = same_subject b c.
Proof. unfold same_subject. rewrite Z.eqb_eq. by intros ->. Qed.

(** In a sorted frame the filled value of a row is the admission time of
    the first later admission of its patient that is not ELECTIVE. *)
Lemma next_time_column_head a later :
  key_sorted (a :: later) →
  or_else (shifted_next_time a later)
          (List.find (λ p, same_subject a p.1) (next_time_column later) ≫= snd)
  = next_non_elective a later ≫= ADMITTIME.
Proof.
  revert a. induction later as [|x later IH]; intros a Hs; [done|].
  apply StronglySorted_inv in Hs as [Hsx Hax].
  apply Forall_cons in Hax as [Hax Hal].
  unfold shifted_next_time, next_non_elective.
  cbn [next_time_column List.find fst].
  destruct (same_subject a x) eqn:Hsame; simpl.
  - specialize (IH x Hsx). rewrite IH.
    destruct (is_elective (ADMISSION_TYPE x)) eqn:Hel; simpl.
    + unfold next_non_elective. f_equal. apply find_pred_ext. intros y.
      by rewrite (same_subject_congr a x y).
    + destruct (ADMITTIME x) as [t|] eqn:Ht; simpl; [done|].
      unfold next_non_elective.
      destruct (List.find _ later) as [y|] eqn:Hfind; simpl; [|done].
      apply find_some in Hfind as [Hin [Hsub _]%andb_prop].
      apply StronglySorted_inv in Hsx as [_ Hxl].
      rewrite Forall_forall in Hxl. apply list_elem_of_In in Hin.
      by apply (key_le_same_subject x y (Hxl y Hin)).
  - apply (IH a). constructor; [by apply StronglySorted_inv in Hsx as [? _]|done].
Qed.

Lemma next_time_column_split l pre x post :
  next_time_column l = pre ++ x :: post →
  ∃ l1 l2, l = l1 ++ x.1 :: l2 ∧ post = next_time_column l2
    ∧ x :: post = next_time_column (x.1 :: l2).
Proof.
  revert pre. induction l as [|a l IH]; intros pre Heq.
  - by destruct pre.
  - destruct pre as [|p pre]; simpl in Heq.
    + injection Heq as <- <-. exists [], l. done.
    + injection Heq as _ Heq. destruct (IH pre Heq) as (l1 & l2 & -> & ? & ?).
      by exists (a :: l1), l2.
Qed.

Lemma key_sorted_app_r l1 l2 : key_sorted (l1 ++ l2) → key_sorted l2.
Proof.
  induction l1 as [|a l1 IH]; simpl; [done|].
  intros [? _]%StronglySorted_inv. by apply IH.
Qed.

(** The frame after the fills, seen through its admissions and its
    NEXT_ADMITTIME column. *)
Lemma link_admissions_view df_adm :
  map (λ r, (adm r, NEXT_ADMITTIME r)) (link_admissions df_adm)
  = next_time_column (sort_values id df_adm).
Proof.
  unfold link_admissions.
  rewrite (sort_values_id adm).
  - apply next_view_link.
  - apply sorted_map_adm. rewrite null_elective_adm, link_rows_adm.
    apply (sort_values_sorted id).
Qed.

Lemma label_admissions_view df_adm :
  map (λ r, (adm (linked r), NEXT_ADMITTIME (linked r))) (label_admissions df_adm)
  = next_time_column (sort_values id df_adm).
Proof.
  unfold label_admissions. rewrite map_map. simpl.
  rewrite bfill_prev_next. apply link_admissions_view.
Qed.

(** C2. The labelled table lists the admissions sorted by patient and
    admission time (missing times last), and in it the NEXT_ADMITTIME of
    every row is the admission time of the first later row of the same
    patient whose admission type is not ELECTIVE, and is missing when
    there is no such row. *)
Theorem next_admit_time_skips_elective
    (df_adm : list Admission) (before : list Row) (r : Row) (later : list Row) :
  label_admissions df_adm = before ++ r :: later →
  map (λ r, adm (linked r)) (label_admissions df_adm) = sort_values id df_adm
  ∧ sort_values id df_adm ≡ₚ df_adm
  ∧ key_sorted (sort_values id df_adm)
  ∧ NEXT_ADMITTIME (linked r)
    = next_non_elective (adm (linked r)) (map (λ r, adm (linked r)) later)
        ≫= ADMITTIME.
Proof.
  intros Hsplit.
  pose proof (label_admissions_view df_adm) as Hview.
  assert (Hadm : map (λ r, adm (linked r)) (label_admissions df_adm)
                 = sort_values id df_adm).
  { rewrite <- (next_time_column_fst (sort_values id df_adm)), <- Hview.
    by rewrite map_map. }
  split; [done|]. split; [apply (sort_values_perm id)|].
  split; [apply (sort_values_sorted id)|].
  rewrite Hsplit, map_app in Hview. simpl in Hview. symmetry in Hview.
  apply next_time_column_split in Hview as (l1 & l2 & Hl & Hpost & Hhead).
  simpl in Hl, Hhead.
  assert (Hs : key_sorted (adm (linked r) :: l2)).
  { apply (key_sorted_app_r l1). rewrite <- Hl. apply (sort_values_sorted id). }
  injection Hhead as Hnext _. rewrite Hnext.
  rewrite (next_time_column_head _ _ Hs). f_equal. f_equal.
  rewrite <- (next_time_column_fst l2), <- Hpost. by rewrite map_map.
Qed.

(** *** The label *)

Lemma lt_days_spec d bound :
  lt_days d bound = true ↔ ∃ x, d = Some x ∧ (x < bound)%Q.
Proof.
  destruct d as [x|]; simpl.
  - rewrite negb_true_iff. split.
    + intros Hle. exists x. split; [done|]. apply Qnot_le_lt. intros Hc.
      apply Qle_bool_iff in Hc. congruence.
    + intros (y & [= <-] & Hlt). apply not_true_is_false. intros Hc.
      apply Qle_bool_iff in Hc. by apply Qlt_not_le in Hlt.
  - split; [done | by intros (? & ? & _)].
Qed.

Lemma final_admissions_row df_adm r :
  r ∈ final_admissions df_adm →
  ∃ l, r = set_duration (label_row l).
Proof.
  unfold final_admissions, label_admissions.
  intros (r0 & -> & Hin)%list_elem_of_fmap.
  apply list_elem_of_In, filter_In in Hin as [Hin _].
  apply filter_In in Hin as [Hin _].
  apply in_map_iff in Hin as (l & <- & _). by exists l.
Qed.

(** C1, as the code has it. In the final admission table the gap to the
    next admission is the difference of NEXT_ADMITTIME and DISCHTIME in
    days; the label is 0 or 1; it is 1 exactly when the gap is defined and
    below 30, whatever its sign; when the gap is missing the label is 0. *)
Theorem output_label_below_30 (df_adm : list Admission) (r : Row) :
  r ∈ final_admissions df_adm →
  DAYS_NEXT_ADMIT r
    = days_between (NEXT_ADMITTIME (linked r)) (DISCHTIME (adm (linked r)))
  ∧ (OUTPUT_LABEL r = 1 ∨ OUTPUT_LABEL r = 0)%Z
  ∧ (OUTPUT_LABEL r = 1%Z ↔ ∃ d, DAYS_NEXT_ADMIT r = Some d ∧ (d < 30)%Q)
  ∧ (DAYS_NEXT_ADMIT r = None → OUTPUT_LABEL r = 0%Z).
Proof.
  intros [l ->]%final_admissions_row. simpl.
  split; [done|].
  pose proof (lt_days_spec (days_between (NEXT_ADMITTIME l) (DISCHTIME (adm l))) 30)
    as Hspec.
  destruct (lt_days _ 30) eqn:Hlt.
  - split; [by left|]. split; [|intros Hnone].
    + split; [intros _; by apply Hspec | done].
    + destruct Hspec as [(x & Hx & _) _]; [done|]. congruence.
  - split; [by right|]. split; [|done].
    split; [done|]. intros Hd. apply Hspec in Hd. done.
Qed.
End LabelerProofs.

(** C1 as stated fails for a negative gap: the second stay of the patient
    starts before the recorded discharge of the first one, so the first row
    has a gap below zero, and its label is 1. *)
Lemma negative_gap_labelled_readmitted :
  ∃ r d, r ∈ Labeler.final_admissions Labeler.overlap_example
    ∧ Labeler.DAYS_NEXT_ADMIT r = Some d
    ∧ Labeler.OUTPUT_LABEL r = 1%Z
    ∧ ¬ (0 <= d)%Q.
Proof.
  eexists _, _. split; [vm_compute; left|]. split; [reflexivity|].
  split; [reflexivity|]. intros Hle. vm_compute in Hle. by apply Hle.
Qed.

Lemma output_label_below_30_witness :
  ∃ r, r ∈ Labeler.final_admissions Labeler.overlap_example
    ∧ Labeler.OUTPUT_LABEL r = 1%Z
    ∧ ∃ d, Labeler.DAYS_NEXT_ADMIT r = Some d ∧ (d < 30)%Q.
Proof.
  assert (Hin : hd_error (Labeler.final_admissions Labeler.overlap_example)
                = Some (Labeler.set_duration (Labeler.label_row
                    (Labeler.MkLinked
                       (Labeler.MkAdmission 7 100 (Some 0%Z) (Some 100000%Z) None
                          (Some "EMERGENCY"))
                       (Some 50000%Z) (Some "EMERGENCY")
                       (Some 100000%Z) (Some "EMERGENCY")))))
    by (by vm_compute).
  eexists. 
  assert (Hmem : Labeler.set_duration (Labeler.label_row
                    (Labeler.MkLinked
                       (Labeler.MkAdmission 7 100 (Some 0%Z) (Some 100000%Z) None
                          (Some "EMERGENCY"))
                       (Some 50000%Z) (Some "EMERGENCY")
                       (Some 100000%Z) (Some "EMERGENCY")))
                 ∈ Labeler.final_admissions Labeler.overlap_example).
  { destruct (Labeler.final_admissions Labeler.overlap_example) as [|x l]; [done|].
    injection Hin as ->. left. }
  split; [exact Hmem|].
  destruct (output_label_below_30 _ _ Hmem) as (_ & _ & Hiff & _).
  split; [by vm_compute|]. apply Hiff. by vm_compute.
Defined.

Lemma next_admit_time_skips_elective_witness :
  ∃ r later, Labeler.label_admissions Labeler.elective_example = [] ++ r :: later
    ∧ Labeler.ADMISSION_TYPE (Labeler.adm (Labeler.linked r)) = Some "EMERGENCY"
    ∧ map (λ r, Labeler.ADMISSION_TYPE (Labeler.adm (Labeler.linked r))) later
      = [Some "ELECTIVE"; Some "EMERGENCY"]
    ∧ Labeler.NEXT_ADMITTIME (Labeler.linked r) = Some 1814400%Z.
Proof.
  eassert (Hsplit : Labeler.label_admissions Labeler.elective_example = [] ++ _ :: _)
    by (vm_compute; reflexivity).
  match type of Hsplit with _ = [] ++ ?r :: ?later =>
    exists r, later; split; [exact Hsplit|];
    split; [reflexivity|]; split; [reflexivity|];
    destruct (next_admit_time_skips_elective Labeler.elective_example [] r later Hsplit)
      as (_ & _ & _ & Hnext);
    rewrite Hnext; reflexivity
  end.
Defined.

(** ** The chunker *)

Section ChunkerProofs.
Import Chunker.

(** *** Slices *)

Section Slices.
Context {A : Type} (size keep : nat) (x : list A).
Hypothesis size_pos : 0 < size.

Lemma length_slice_full j :
  (j + 1) * size ≤ length x →
  length (slice (j * size) ((j + 1) * size) x) = size.
Proof.
  intros Hle. unfold slice. rewrite length_take, length_drop. nia.
Qed.

Lemma concat_slices n :
  concat (map (λ j, slice (j * size) ((j + 1) * size) x) (seq 0 n))
  = take (n * size) x.
Proof.
  induction n as [|n IH]; [done|].
  rewrite seq_S, map_app, concat_app, IH. simpl. rewrite app_nil_r.
  unfold slice. replace ((n + 1) * size - n * size) with size by nia.
  rewrite take_take_drop. f_equal. lia.
Qed.

Lemma last_slice_drop :
  length x mod size ≠ 0 →
  last_slice (length x mod size) x = drop (size * (length x / size)) x.
Proof.
  intros Hnz. unfold last_slice.
  destruct (Nat.eqb_spec (length x mod size) 0) as [|_]; [done|].
  f_equal. pose proof (Nat.div_mod_eq (length x) size). lia.
Qed.

Lemma length_slices s n :
  (s + n) * size ≤ length x →
  map (λ j, length (slice (j * size) ((j + 1) * size) x)) (seq s n)
  = replicate n size.
Proof.
  revert s. induction n as [|n IH]; intros s Hle; [done|].
  simpl. f_equal; [apply length_slice_full; nia | apply IH; lia].
Qed.

(** The chunks: [length x / size] full ones, which together are the head
    of [x], then the rest of [x] if it is longer than [keep]. *)
Lemma chunk_tokens_by_spec :
  let t := length x in
  let chunks := chunk_tokens_by size keep x in
  length (take (t / size) chunks) = t / size
  ∧ Forall (λ c, length c = size) (take (t / size) chunks)
  ∧ concat (take (t / size) chunks) = take (size * (t / size)) x
  ∧ drop (t / size) chunks
    = (if keep <? t mod size then [drop (size * (t / size)) x] else [])
  ∧ length (drop (size * (t / size)) x) = t mod size
  ∧ map length chunks
    = replicate (t / size) size
      ++ (if keep <? t mod size then [t mod size] else []).
Proof.
  intros t chunks.
  set (full := map (λ j, slice (j * size) ((j + 1) * size) x) (seq 0 (t / size))).
  assert (Hlen : length full = t / size).
  { unfold full. by rewrite length_map, length_seq. }
  assert (Hchunks : chunks = full ++ (if keep <? t mod size
                                      then [last_slice (t mod size) x] else [])).
  { done. }
  pose proof (Nat.div_mod_eq t size) as Hdm.
  pose proof (Nat.mod_upper_bound t size) as Hmod.
  assert (Hrest : length (drop (size * (t / size)) x) = t mod size).
  { rewrite length_drop. fold t. lia. }
  assert (Hlast : (keep <? t mod size) = true →
                  last_slice (t mod size) x = drop (size * (t / size)) x).
  { intros Hk%Nat.ltb_lt. apply last_slice_drop. fold t. lia. }
  rewrite Hchunks, <- Hlen, take_app_length, drop_app_length, Hlen.
  split; [done|]. split; [|split; [|split; [|split]]].
  - apply Forall_forall. intros c (j & -> & Hj%elem_of_seq)%list_elem_of_fmap.
    apply length_slice_full. fold t. nia.
  - unfold full. rewrite concat_slices. f_equal. lia.
  - destruct (keep <? t mod size) eqn:Hk; [|done]. by rewrite Hlast.
  - done.
  - rewrite map_app. f_equal.
    + unfold full. rewrite map_map. apply length_slices. fold t. nia.
    + destruct (keep <? t mod size) eqn:Hk; [|done]. simpl.
      by rewrite Hlast, Hrest.
Qed.
End Slices.

(** *** Tokens *)

Lemma append_cons d (s w : string) : String d s +:+ w = String d (s +:+ w).
Proof. reflexivity. Qed.

Lemma append_snoc (s : string) c w : snoc s c +:+ w = s +:+ String c w.
Proof.
  unfold snoc. induction s as [|d s IH]; [done|].
  rewrite !append_cons. f_equal. apply IH.
Qed.

Lemma append_empty_r (s : string) : s +:+ EmptyString = s.
Proof. induction s as [|d s IH]; [done|]. rewrite append_cons. by f_equal. Qed.

Lemma no_space_append (s w : string) :
  no_space (s +:+ w) = no_space s && no_space w.
Proof.
  induction s as [|d s IH]; [done|]. rewrite append_cons. simpl.
  rewrite IH. by rewrite andb_assoc.
Qed.

Lemma split_from_tokens s tok :
  no_space tok = true → Forall (λ w, is_token w = true) (split_from tok s).
Proof.
  revert tok. induction s as [|c s IH]; intros tok Htok; simpl.
  - destruct (is_empty tok) eqn:He; constructor; [|constructor].
    unfold is_token. by rewrite He, Htok.
  - destruct (is_space c) eqn:Hc.
    + destruct (is_empty tok) eqn:He; [by apply IH|].
      constructor; [|by apply IH]. unfold is_token. by rewrite He, Htok.
    + apply IH. unfold snoc. rewrite no_space_append, Htok. simpl. by rewrite Hc.
Qed.

Lemma split_from_word w tok s :
  no_space w = true → split_from tok (w +:+ s) = split_from (tok +:+ w) s.
Proof.
  revert tok. induction w as [|c w IH]; intros tok Hw.
  - by rewrite append_empty_r.
  - simpl in Hw. apply andb_prop in Hw as [Hc Hw]. apply negb_true_iff in Hc.
    rewrite append_cons. cbn [split_from]. rewrite Hc, IH by done.
    f_equal. apply append_snoc.
Qed.

(** Joining tokens with single spaces and splitting again gives them back. *)
Lemma split_join (toks : list string) :
  Forall (λ w, is_token w = true) toks → split (join toks) = toks.
Proof.
  unfold split, join. induction 1 as [|w toks Hw Htoks IH]; [done|].
  apply andb_prop in Hw as [Hne Hsp]. apply negb_true_iff in Hne.
  destruct toks as [|w2 toks].
  - cbn [String.concat]. rewrite <- (append_empty_r w) at 1.
    rewrite split_from_word by done.
    cbn [split_from]. change (EmptyString +:+ w) with w. by rewrite Hne.
  - change (String.concat " " (w :: w2 :: toks))
      with (w +:+ String " "%char (String.concat " " (w2 :: toks))).
    rewrite split_from_word by done. change (EmptyString +:+ w) with w.
    cbn [split_from]. change (is_space " "%char) with true. cbn match.
    rewrite Hne. by rewrite IH.
Qed.

Lemma Forall_slice {A} (P : A → Prop) (x : list A) a b :
  Forall P x → Forall P (slice a b x).
Proof. intros H. unfold slice. by apply Forall_take, Forall_drop. Qed.

Lemma chunk_tokens_tokens (x : list string) :
  Forall (λ w, is_token w = true) x →
  Forall (Forall (λ w, is_token w = true)) (chunk_tokens x).
Proof.
  intros Hx. unfold chunk_tokens, chunk_tokens_by. apply Forall_app. split.
  - apply Forall_forall. intros c (j & -> & _)%list_elem_of_fmap.
    by apply Forall_slice.
  - destruct (10 <? _); constructor; [|constructor].
    unfold last_slice. destruct (_ =? 0); [done | by apply Forall_drop].
Qed.

(** C4. A text that splits into [t] tokens gives [t / 318] chunks of 318
    tokens, which put end to end are the first [318 * (t / 318)] tokens,
    followed by one chunk with the [t mod 318] remaining tokens exactly
    when there are more than 10 of them. So 640 tokens give two chunks of
    318, 650 tokens give two chunks of 318 and one of 14, and no token
    gives no chunk. On the rows of the chunk table: the text of every row
    splits back into the tokens of its chunk, and an admission whose text
    is missing or empty gets no row. *)
Theorem chunker_spec {F : Type} (r : NoteRow F) :
  let x := split (clean_text (TEXT r)) in
  let t := length x in
  let chunks := chunk_tokens x in
  length (take (t / 318) chunks) = t / 318
  ∧ Forall (λ c, length c = 318) (take (t / 318) chunks)
  ∧ concat (take (t / 318) chunks) = take (318 * (t / 318)) x
  ∧ drop (t / 318) chunks
    = (if 10 <? t mod 318 then [drop (318 * (t / 318)) x] else [])
  ∧ length (drop (318 * (t / 318)) x) = t mod 318
  ∧ (t = 640 → map length chunks = [318; 318])
  ∧ (t = 650 → map length chunks = [318; 318; 14])
  ∧ (t = 0 → chunks = [])
  ∧ map (λ row, split (c_TEXT row)) (chunk_rows r) = chunks
  ∧ (TEXT r = None ∨ TEXT r = Some EmptyString → chunk_rows r = []).
Proof.
  intros x t chunks.
  destruct (chunk_tokens_by_spec 318 10 x) as (H1 & H2 & H3 & H4 & H5 & Hlens);
    [lia|].
  fold t in H1, H2, H3, H4, H5, Hlens.
  change (chunk_tokens_by 318 10 x) with chunks in H1, H2, H3, H4, H5, Hlens.
  split; [done|]. split; [done|]. split; [done|]. split; [done|]. split; [done|].
  split; [|split; [|split; [|split]]].
  - intros Ht. rewrite Hlens, Ht. by vm_compute.
  - intros Ht. rewrite Hlens, Ht. by vm_compute.
  - intros Ht. apply length_zero_iff_nil in Ht. unfold chunks. by rewrite Ht.
  - unfold chunk_rows. fold x. fold chunks. rewrite map_map. simpl.
    assert (Hok : Forall (Forall (λ w, is_token w = true)) chunks).
    { apply chunk_tokens_tokens. by apply split_from_tokens. }
    clearbody chunks. clear -Hok. induction Hok as [|c cs Hc _ IH]; [done|].
    simpl. by rewrite split_join, IH.
  - intros [Ht|Ht]; unfold chunk_rows; rewrite Ht; reflexivity.
Qed.
End ChunkerProofs.

Lemma chunker_spec_witness :
  length (Chunker.split (Chunker.clean_text (Some (Chunker.join (Chunker.words 650))))) = 650
  ∧ map length (Chunker.chunk_tokens
                  (Chunker.split (Chunker.clean_text (Some (Chunker.join (Chunker.words 650))))))
    = [318; 318; 14]
  ∧ Chunker.chunk_rows (Chunker.MkNoteRow 1%Z 0%Z tt None) = [].
Proof.
  assert (Hlen : length (Chunker.split (Chunker.clean_text
                   (Some (Chunker.join (Chunker.words 650))))) = 650) by (by vm_compute).
  split; [done|]. split.
  - destruct (chunker_spec (Chunker.MkNoteRow 1%Z 0%Z tt
                (Some (Chunker.join (Chunker.words 650)))))
      as (_ & _ & _ & _ & _ & _ & H650 & _).
    by apply H650.
  - destruct (chunker_spec (Chunker.MkNoteRow 1%Z 0%Z tt None))
      as (_ & _ & _ & _ & _ & _ & _ & _ & _ & Hnone).
    apply Hnone. by left.
Defined.

(** ** The split *)

Section SplitProofs.
Import Chunker Split.
Variable rng : nat → list nat.

(** *** Sampling draws a sub-multiset *)

Lemma pick_cons {A} (draws : list nat) n (a : A) pool' :
  pick draws (S n) (a :: pool')
  = default a ((a :: pool') !! (hd 0 draws mod length (a :: pool')))
    :: pick (tl draws) n (delete (hd 0 draws mod length (a :: pool')) (a :: pool')).
Proof. reflexivity. Qed.

Lemma pick_submseteq {A} (draws : list nat) n (pool : list A) :
  pick draws n pool ⊆+ pool.
Proof.
  revert draws pool. induction n as [|n IH]; intros draws pool.
  - apply submseteq_nil_l.
  - destruct pool as [|a pool']; [done|]. rewrite pick_cons.
    assert (Hk : hd 0 draws mod length (a :: pool') < length (a :: pool'))
      by (by apply Nat.mod_upper_bound).
    revert Hk. generalize (hd 0 draws mod length (a :: pool')).
    generalize (a :: pool') at 1 2 3 4. intros pool k Hk.
    destruct (lookup_lt_is_Some_2 pool k Hk) as [x Hx].
    rewrite Hx. simpl.
    rewrite (delete_Permutation pool k x Hx) at 2.
    apply submseteq_skip, IH.
Qed.

Lemma length_pick {A} (draws : list nat) n (pool : list A) :
  n ≤ length pool → length (pick draws n pool) = n.
Proof.
  revert draws pool. induction n as [|n IH]; intros draws pool Hn; [done|].
  destruct pool as [|a pool']; [simpl in Hn; lia|]. rewrite pick_cons.
  cbn [length]. f_equal. apply IH.
  rewrite length_delete.
  - cbn [length] in *. lia.
  - apply lookup_lt_is_Some_2, Nat.mod_upper_bound. done.
Qed.

Lemma sample_frac_submseteq {A} frac (obj : list A) :
  sample_frac rng frac obj ⊆+ obj.
Proof. apply pick_submseteq. Qed.

Lemma sample_n_Some {A} n (obj s : list A) :
  sample_n rng n obj = Some s → s ⊆+ obj ∧ length s = n.
Proof.
  unfold sample_n. destruct (Nat.leb_spec n (length obj)); [|done].
  intros [= <-]. split; [apply pick_submseteq | by apply length_pick].
Qed.

Lemma sample_n_is_Some {A} n (obj : list A) :
  n ≤ length obj → is_Some (sample_n rng n obj).
Proof.
  intros Hn. unfold sample_n. apply Nat.leb_le in Hn. rewrite Hn. eauto.
Qed.

Lemma py_round_all n : Z.to_nat (py_round (1 * inject_Z (Z.of_nat n))) = n.
Proof.
  unfold py_round. cbv zeta.
  assert (Hf : Qfloor (1 * inject_Z (Z.of_nat n)) = Z.of_nat n).
  { rewrite Qmult_1_l. apply Qfloor_Z. }
  rewrite Hf.
  assert (Hc : Qcompare (1 * inject_Z (Z.of_nat n) - inject_Z (Z.of_nat n)) (1 # 2) = Lt).
  { apply Qlt_alt.
    assert (H0 : (1 * inject_Z (Z.of_nat n) - inject_Z (Z.of_nat n) == 0)%Q) by ring.
    rewrite H0. reflexivity. }
  rewrite Hc. lia.
Qed.

(** A shuffle keeps the rows. *)
Lemma sample_all_perm {A} (obj : list A) : sample_frac rng 1 obj ≡ₚ obj.
Proof.
  apply submseteq_length_Permutation; [apply sample_frac_submseteq|].
  unfold sample_frac. rewrite py_round_all, length_pick; done.
Qed.

(** *** Series drawn from the admission table *)

Lemma filter_Permutation {A} (f : A → bool) (l k : list A) :
  l ≡ₚ k → List.filter f l ≡ₚ List.filter f k.
Proof.
  induction 1 as [|x l k _ IH|x y l|l k m _ IH1 _ IH2]; simpl.
  - done.
  - destruct (f x); [by constructor | done].
  - destruct (f x), (f y); try done. apply Permutation_swap.
  - by etrans.
Qed.

Lemma filter_all {A} (f : A → bool) (l : list A) :
  (∀ x, x ∈ l → f x = true) → List.filter f l = l.
Proof.
  induction l as [|x l IH]; intros H; simpl; [done|].
  rewrite (H x) by left. f_equal. apply IH. intros y Hy. apply H. by right.
Qed.

Lemma filter_none {A} (f : A → bool) (l : list A) :
  (∀ x, x ∈ l → f x = false) → List.filter f l = [].
Proof.
  induction l as [|x l IH]; intros H; simpl; [done|].
  rewrite (H x) by left. apply IH. intros y Hy. apply H. by right.
Qed.

Lemma submseteq_NoDup {A} (l k : list A) : l ⊆+ k → NoDup k → NoDup l.
Proof.
  intros [k' Hk]%submseteq_Permutation Hnd. rewrite Hk in Hnd.
  by apply NoDup_app in Hnd as [? _].
Qed.

(** A sample and what [drop] leaves of the series make up the series. *)
Lemma drop_labels_partition (s s' : Series) :
  NoDup (index s) → s' ⊆+ s → s ≡ₚ s' ++ drop_labels (index s') s.
Proof.
  intros Hnd Hsub. destruct (submseteq_Permutation _ _ Hsub) as [k Hk].
  assert (Hnd' : NoDup (index s' ++ index k)).
  { unfold index in *. rewrite <- map_app. by rewrite <- Hk. }
  apply NoDup_app in Hnd' as (_ & Hdisj & _).
  unfold drop_labels. rewrite (filter_Permutation _ _ _ Hk), List.filter_app.
  rewrite filter_none, filter_all; [done| |].
  - intros p Hp. apply negb_true_iff, bool_decide_eq_false. intros Hin.
    apply (Hdisj p.1 Hin). unfold index. apply list_elem_of_fmap. eauto.
  - intros p Hp. apply negb_false_iff, bool_decide_eq_true.
    unfold index. apply list_elem_of_fmap. eauto.
Qed.

Lemma fst_imap_pair {A} (l : list A) : (imap pair l).*1 = seq 0 (length l).
Proof.
  apply list_eq. intros i. rewrite list_lookup_fmap, list_lookup_imap.
  destruct (l !! i) as [x|] eqn:Hi; simpl.
  - apply lookup_lt_Some in Hi as Hlt. by rewrite lookup_seq_lt.
  - apply lookup_ge_None in Hi. by rewrite lookup_seq_ge.
Qed.

Lemma snd_imap_pair {A} (l : list A) : (imap pair l).*2 = l.
Proof.
  apply list_eq. intros i. rewrite list_lookup_fmap, list_lookup_imap.
  by destruct (l !! i).
Qed.

(** The rows with label 1 and those with label 0 are different rows of
    the table. *)
Lemma ids_with_label_submseteq (df_adm : list Labeler.Row) :
  ids_with_label 1 df_adm ++ ids_with_label 0 df_adm
  ⊆+ map (λ ir : nat * Labeler.Row, (ir.1, row_id ir.2)) (imap pair df_adm).
Proof.
  unfold ids_with_label. generalize (imap pair df_adm). intros I.
  induction I as [|[i r] I IH]; csimpl; [done|].
  destruct (Z.eqb_spec (Labeler.OUTPUT_LABEL r) 1) as [H1|H1]; simpl.
  - rewrite H1. simpl. by apply submseteq_skip.
  - destruct (Z.eqb_spec (Labeler.OUTPUT_LABEL r) 0) as [H0|H0]; simpl.
    + rewrite <- Permutation_middle. by apply submseteq_skip.
    + by apply submseteq_cons.
Qed.

Lemma ids_NoDup_index (df_adm : list Labeler.Row) :
  NoDup (index (ids_with_label 1 df_adm ++ ids_with_label 0 df_adm)).
Proof.
  eapply submseteq_NoDup; [apply fmap_submseteq, ids_with_label_submseteq|].
  rewrite <- list_fmap_compose.
  change (NoDup ((imap pair df_adm).*1)). rewrite fst_imap_pair. apply NoDup_seq.
Qed.

Lemma ids_NoDup_values (df_adm : list Labeler.Row) :
  NoDup (map row_id df_adm) →
  NoDup (values (ids_with_label 1 df_adm ++ ids_with_label 0 df_adm)).
Proof.
  intros Hnd.
  eapply submseteq_NoDup; [apply fmap_submseteq, ids_with_label_submseteq|].
  rewrite <- list_fmap_compose.
  rewrite <- (snd_imap_pair df_adm) in Hnd.
  change (NoDup (row_id <$> (snd <$> imap pair df_adm))) in Hnd.
  by rewrite <- list_fmap_compose in Hnd.
Qed.

(** *** The reserve pool *)

Lemma count_zero (v : Z) (l : list Z) :
  v ∉ l → length (List.filter (Z.eqb v) l) = 0.
Proof.
  intros Hv. rewrite filter_none; [done|]. intros x Hx.
  apply Z.eqb_neq. by intros <-.
Qed.

Lemma count_NoDup (v : Z) (l : list Z) :
  NoDup l → v ∈ l → length (List.filter (Z.eqb v) l) = 1.
Proof.
  induction 1 as [|x l Hx Hnd IH]; [by intros ?%elem_of_nil|].
  intros [->|Hv]%elem_of_cons; simpl.
  - rewrite Z.eqb_refl. simpl. by rewrite count_zero.
  - destruct (Z.eqb_spec v x) as [->|_]; [done | by apply IH].
Qed.

Lemma reserve_partition (use all : Series) :
  NoDup (values all) → use ⊆+ all →
  all ≡ₚ use ++ drop_duplicates_keep_false (use ++ all).
Proof.
  intros Hnd Hsub. destruct (submseteq_Permutation _ _ Hsub) as [k Hk].
  assert (Hvals : values all ≡ₚ values use ++ values k).
  { unfold values. by rewrite Hk, map_app. }
  rewrite Hvals in Hnd. apply NoDup_app in Hnd as (Hndu & Hdisj & Hndk).
  assert (Hcount : ∀ v, length (List.filter (Z.eqb v) (values (use ++ all)))
                        = 2 * length (List.filter (Z.eqb v) (values use))
                          + length (List.filter (Z.eqb v) (values k))).
  { intros v. unfold values at 1. rewrite map_app. fold (values use) (values all).
    rewrite List.filter_app, length_app.
    rewrite (Permutation_length (filter_Permutation (Z.eqb v) _ _ Hvals)).
    rewrite List.filter_app, length_app. lia. }
  unfold drop_duplicates_keep_false.
  set (f := λ iv : nat * Z, length (List.filter (Z.eqb iv.2) (values (use ++ all))) =? 1).
  pose proof (filter_Permutation f _ _ Hk) as Hf.
  rewrite List.filter_app, Hf, List.filter_app.
  rewrite (filter_none f use), (filter_all f k); [by rewrite Hk | |]; unfold f.
  - intros p Hp. assert (Hv : p.2 ∈ values k) by (apply list_elem_of_fmap; eauto).
    rewrite Hcount, (count_NoDup _ _ Hndk Hv), count_zero; [done|].
    intros Hu. by apply (Hdisj _ Hu).
  - intros p Hp. assert (Hv : p.2 ∈ values use) by (apply list_elem_of_fmap; eauto).
    rewrite Hcount, (count_NoDup _ _ Hndu Hv). apply Nat.eqb_neq. lia.
Qed.

(** *** The parts of the split *)

Lemma fst_id_label (ids t f : Series) :
  ids = t ++ f → map fst (id_label ids t f) = values ids.
Proof.
  intros ->. unfold id_label. apply fst_zip.
  unfold values. rewrite length_map, !length_app, !length_replicate. lia.
Qed.

Lemma split_ids_is_Some (df_adm : list Labeler.Row) :
  length (ids_with_label 1 df_adm) ≤ length (ids_with_label 0 df_adm) →
  is_Some (split_ids rng df_adm).
Proof.
  intros Hle. unfold split_ids.
  destruct (sample_n_is_Some (length (ids_with_label 1 df_adm))
              (ids_with_label 0 df_adm) Hle) as [u Hu].
  rewrite Hu. simpl. eauto.
Qed.

(** The three sets of each class make up the class pool, the pool of the
    not-readmitted class and the reserve make up that class, and the pool
    has the size of the readmitted class. *)
Lemma split_ids_partition (df_adm : list Labeler.Row) (s : IdSplit) :
  NoDup (map row_id df_adm) →
  split_ids rng df_adm = Some s →
  readmit_ID s = ids_with_label 1 df_adm
  ∧ not_readmit_ID s = ids_with_label 0 df_adm
  ∧ length (not_readmit_ID_use s) = length (readmit_ID s)
  ∧ readmit_ID s ≡ₚ id_val_t s ++ id_test_t s ++ id_train_t s
  ∧ not_readmit_ID_use s ≡ₚ id_val_f s ++ id_test_f s ++ id_train_f s
  ∧ not_readmit_ID s ≡ₚ not_readmit_ID_use s ++ df s
  ∧ id_train s = id_train_t s ++ id_train_f s
  ∧ id_val s = id_val_t s ++ id_val_f s
  ∧ id_test s = id_test_t s ++ id_test_f s
  ∧ map fst (train_id_label s) = values (id_train s)
  ∧ map fst (val_id_label s) = values (id_val s)
  ∧ map fst (test_id_label s) = values (id_test s).
Proof.
  intros Hnd. unfold split_ids.
  destruct (sample_n rng _ (ids_with_label 0 df_adm)) as [u|] eqn:Hu; [|done].
  simpl. intros [= <-]. simpl.
  apply sample_n_Some in Hu as [Hsub Hlen].
  pose proof (ids_NoDup_index df_adm) as Hix.
  pose proof (ids_NoDup_values df_adm Hnd) as Hvals.
  unfold index in Hix. rewrite map_app in Hix.
  apply NoDup_app in Hix as (HixR & _ & HixN).
  unfold values in Hvals. rewrite map_app in Hvals.
  apply NoDup_app in Hvals as (_ & _ & HvalN).
  assert (HixU : NoDup (index u)).
  { eapply submseteq_NoDup; [apply fmap_submseteq, Hsub | done]. }
  set (R := ids_with_label 1 df_adm) in *.
  set (vt_t := sample_frac rng (2 # 10) R).
  set (vt_f := sample_frac rng (2 # 10) u).
  assert (Hvt_t : vt_t ⊆+ R) by apply sample_frac_submseteq.
  assert (Hvt_f : vt_f ⊆+ u) by apply sample_frac_submseteq.
  assert (Hix_t : NoDup (index vt_t)).
  { eapply submseteq_NoDup; [apply fmap_submseteq, Hvt_t | done]. }
  assert (Hix_f : NoDup (index vt_f)).
  { eapply submseteq_NoDup; [apply fmap_submseteq, Hvt_f | done]. }
  split; [done|]. split; [done|]. split; [done|].
  split; [|split; [|split]].
  - rewrite (drop_labels_partition R vt_t HixR Hvt_t) at 1.
    rewrite (drop_labels_partition vt_t (sample_frac rng (5 # 10) vt_t) Hix_t) at 1
      by apply sample_frac_submseteq.
    by rewrite <- app_assoc.
  - rewrite (drop_labels_partition u vt_f HixU Hvt_f) at 1.
    rewrite (drop_labels_partition vt_f (sample_frac rng (5 # 10) vt_f) Hix_f) at 1
      by apply sample_frac_submseteq.
    by rewrite <- app_assoc.
  - by apply reserve_partition.
  - repeat split; try done; by apply fst_id_label.
Qed.

Lemma NoDup_concat_disjoint {A} (parts : list (list A)) i j a b :
  NoDup (concat parts) → i ≠ j → parts !! i = Some a → parts !! j = Some b →
  ∀ x, x ∈ a → x ∉ b.
Proof.
  revert i j. induction parts as [|p parts IH]; intros i j Hnd Hij Hi Hj x Ha Hb;
    [done|].
  simpl in Hnd. apply NoDup_app in Hnd as (_ & Hdisj & Hnd).
  destruct i as [|i], j as [|j]; simpl in Hi, Hj; simplify_eq.
  - apply (Hdisj x Ha). apply list_elem_of_In, in_concat. exists b.
    split; apply list_elem_of_In; [by eapply list_elem_of_lookup_2 | done].
  - apply (Hdisj x Hb). apply list_elem_of_In, in_concat. exists a.
    split; apply list_elem_of_In; [by eapply list_elem_of_lookup_2 | done].
  - by apply (IH i j Hnd ltac:(congruence) Hi Hj x).
Qed.

Lemma elem_of_rows_in {F} (ids : list Z) (frame : list (ChunkRow F)) row :
  row ∈ rows_in ids frame ↔ row ∈ frame ∧ c_HADM_ID row ∈ ids.
Proof.
  unfold rows_in, isin. rewrite list_elem_of_In, filter_In, <- list_elem_of_In.
  by rewrite bool_decide_eq_true.
Qed.

Lemma values_app (a b : Series) : values (a ++ b) = values a ++ values b.
Proof. apply map_app. Qed.

(** C3. When admission ids are unique in the admission table and the
    not-readmitted class has at least 400 admissions more than the
    readmitted one, both sample draws succeed and: the id sets of train,
    validation and test are pairwise disjoint; the 400 reserve admissions
    are not in any of the three; a row of the chunk-level training set
    belongs to a reserve or a train admission and to no validation or test
    admission; the validation and test rows belong to validation and test
    admissions; the pool of not-readmitted admissions has the size of the
    readmitted class, and the three sets together are that pool and that
    class. *)
Theorem split_sets_disjoint {F : Type}
    (df_adm : list Labeler.Row) (df_discharge : list (ChunkRow F)) :
  NoDup (map row_id df_adm) →
  length (ids_with_label 1 df_adm) + 400 ≤ length (ids_with_label 0 df_adm) →
  ∃ s d,
    split_ids rng df_adm = Some s
    ∧ discharge_split rng s df_discharge = Some d
    ∧ (∀ x, x ∈ values (id_train s) → x ∉ values (id_val s))
    ∧ (∀ x, x ∈ values (id_train s) → x ∉ values (id_test s))
    ∧ (∀ x, x ∈ values (id_val s) → x ∉ values (id_test s))
    ∧ length (not_readmit_ID_more d) = 400
    ∧ (∀ x, x ∈ values (not_readmit_ID_more d) →
         (x ∉ values (id_train s)) ∧ (x ∉ values (id_val s))
         ∧ (x ∉ values (id_test s)))
    ∧ (∀ row, row ∈ discharge_train_snippets d →
         ((c_HADM_ID row ∈ values (not_readmit_ID_more d))
          ∨ (c_HADM_ID row ∈ values (id_train s)))
         ∧ (c_HADM_ID row ∉ values (id_val s))
         ∧ (c_HADM_ID row ∉ values (id_test s)))
    ∧ (∀ row, row ∈ discharge_val d → c_HADM_ID row ∈ values (id_val s))
    ∧ (∀ row, row ∈ discharge_test d → c_HADM_ID row ∈ values (id_test s))
    ∧ length (not_readmit_ID_use s) = length (readmit_ID s)
    ∧ values (id_train s) ++ values (id_val s) ++ values (id_test s)
      ≡ₚ values (readmit_ID s) ++ values (not_readmit_ID_use s).
Proof.
  intros Hnd Hsize.
  destruct (split_ids_is_Some df_adm) as [s Hs]; [lia|].
  destruct (split_ids_partition df_adm s Hnd Hs)
    as (HR & HN & Hbal & HpR & HpU & HpN & Htr & Hva & Hte & Hltr & Hlva & Hlte).
  assert (Hdf : 400 ≤ length (df s)).
  { apply Permutation_length in HpN. rewrite length_app, Hbal, HR, HN in HpN. lia. }
  destruct (sample_n_is_Some 400 (df s) Hdf) as [more Hmore].
  apply sample_n_Some in Hmore as Hm. destruct Hm as [Hmsub Hmlen].
  set (parts := [values (id_val_t s); values (id_test_t s); values (id_train_t s);
                 values (id_val_f s); values (id_test_f s); values (id_train_f s);
                 values (df s)]).
  assert (HvR : values (readmit_ID s)
                ≡ₚ values (id_val_t s) ++ values (id_test_t s) ++ values (id_train_t s)).
  { rewrite <- !values_app. by apply Permutation_map. }
  assert (HvU : values (not_readmit_ID_use s)
                ≡ₚ values (id_val_f s) ++ values (id_test_f s) ++ values (id_train_f s)).
  { rewrite <- !values_app. by apply Permutation_map. }
  assert (HvN : values (not_readmit_ID s)
                ≡ₚ values (not_readmit_ID_use s) ++ values (df s)).
  { rewrite <- !values_app. by apply Permutation_map. }
  assert (Hparts : NoDup (concat parts)).
  { pose proof (ids_NoDup_values df_adm Hnd) as Hv.
    rewrite <- HR, <- HN, values_app, HvN, HvR, HvU in Hv.
    simpl. rewrite app_nil_r. by rewrite <- !app_assoc in Hv. }
  assert (Hsep : ∀ i j a b, i ≠ j → parts !! i = Some a → parts !! j = Some b →
                 ∀ x, x ∈ a → x ∉ b).
  { intros i j a b. by apply NoDup_concat_disjoint. }
  assert (Hmore_df : ∀ x, x ∈ values more → x ∈ values (df s)).
  { intros x Hx. eapply elem_of_submseteq; [done|]. by apply fmap_submseteq. }
  assert (Htv : ∀ x, x ∈ values (id_train s) → x ∉ values (id_val s)).
  { intros x. rewrite Htr, Hva, !values_app, !elem_of_app.
    intros [Ha|Ha] [Hb|Hb].
    - by apply (Hsep 2 0 _ _ ltac:(done) eq_refl eq_refl x).
    - by apply (Hsep 2 3 _ _ ltac:(done) eq_refl eq_refl x).
    - by apply (Hsep 5 0 _ _ ltac:(done) eq_refl eq_refl x).
    - by apply (Hsep 5 3 _ _ ltac:(done) eq_refl eq_refl x). }
  assert (Htt : ∀ x, x ∈ values (id_train s) → x ∉ values (id_test s)).
  { intros x. rewrite Htr, Hte, !values_app, !elem_of_app.
    intros [Ha|Ha] [Hb|Hb].
    - by apply (Hsep 2 1 _ _ ltac:(done) eq_refl eq_refl x).
    - by apply (Hsep 2 4 _ _ ltac:(done) eq_refl eq_refl x).
    - by apply (Hsep 5 1 _ _ ltac:(done) eq_refl eq_refl x).
    - by apply (Hsep 5 4 _ _ ltac:(done) eq_refl eq_refl x). }
  assert (Hvt : ∀ x, x ∈ values (id_val s) → x ∉ values (id_test s)).
  { intros x. rewrite Hva, Hte, !values_app, !elem_of_app.
    intros [Ha|Ha] [Hb|Hb].
    - by apply (Hsep 0 1 _ _ ltac:(done) eq_refl eq_refl x).
    - by apply (Hsep 0 4 _ _ ltac:(done) eq_refl eq_refl x).
    - by apply (Hsep 3 1 _ _ ltac:(done) eq_refl eq_refl x).
    - by apply (Hsep 3 4 _ _ ltac:(done) eq_refl eq_refl x). }
  assert (Hmall : ∀ x, x ∈ values more →
            (x ∉ values (id_train s)) ∧ (x ∉ values (id_val s))
            ∧ (x ∉ values (id_test s))).
  { intros x Hx%Hmore_df. rewrite Htr, Hva, Hte, !values_app, !elem_of_app.
    split; [|split]; intros [Hb|Hb].
    - by apply (Hsep 6 2 _ _ ltac:(done) eq_refl eq_refl x).
    - by apply (Hsep 6 5 _ _ ltac:(done) eq_refl eq_refl x).
    - by apply (Hsep 6 0 _ _ ltac:(done) eq_refl eq_refl x).
    - by apply (Hsep 6 3 _ _ ltac:(done) eq_refl eq_refl x).
    - by apply (Hsep 6 1 _ _ ltac:(done) eq_refl eq_refl x).
    - by apply (Hsep 6 4 _ _ ltac:(done) eq_refl eq_refl x). }
  eexists s, _. split; [done|].
  split; [unfold discharge_split; rewrite Hmore; reflexivity|]. simpl.
  split; [done|]. split; [done|]. split; [done|]. split; [done|]. split; [done|].
  split; [|split; [|split; [|split]]].
  - intros row Hrow. rewrite sample_all_perm in Hrow.
    apply elem_of_app in Hrow as [Hrow|Hrow]; apply elem_of_rows_in in Hrow as [_ Hid].
    + split; [by left|]. destruct (Hmall _ Hid) as (_ & ? & ?). done.
    + rewrite Hltr in Hid. split; [by right|]. split; [by apply Htv | by apply Htt].
  - intros row [_ Hid]%elem_of_rows_in. by rewrite Hlva in Hid.
  - intros row [_ Hid]%elem_of_rows_in. by rewrite Hlte in Hid.
  - done.
  - rewrite Htr, Hva, Hte, !values_app, HvR, HvU.
    solve_Permutation.
Qed.

(** *** The early-notes sets *)

Lemma ge_days_spec d bound :
  Labeler.ge_days d bound = true ↔ ∃ x, d = Some x ∧ (bound <= x)%Q.
Proof.
  destruct d as [x|]; simpl.
  - rewrite Qle_bool_iff. split; [eauto | by intros (? & [= <-] & ?)].
  - split; [done | by intros (? & ? & _)].
Qed.

Lemma elem_of_actionable_ID n (df_adm : list Labeler.Row) x :
  x ∈ actionable_ID n df_adm
  ↔ ∃ a, a ∈ df_adm ∧ row_id a = x ∧ Labeler.ge_days (Labeler.DURATION a) n = true.
Proof.
  unfold actionable_ID. rewrite list_elem_of_In, in_map_iff. split.
  - intros (a & Hid & [Hin Hge]%filter_In). exists a. by rewrite list_elem_of_In.
  - intros (a & Hin & Hid & Hge). exists a. split; [done|].
    apply filter_In. by rewrite <- list_elem_of_In.
Qed.

Lemma elem_of_actionable_rows actionable (id_label : list (Z * Z)) x :
  x ∈ map fst (actionable_rows actionable id_label) →
  x ∈ map fst id_label ∧ x ∈ actionable.
Proof.
  unfold actionable_rows, isin.
  intros (il & <- & [Hin Hact]%filter_In)%list_elem_of_In%in_map_iff.
  apply bool_decide_eq_true in Hact. split; [|done].
  apply list_elem_of_In, in_map. done.
Qed.

Lemma NoDup_map_inj_on {A B} (f : A → B) (l : list A) x y :
  NoDup (map f l) → x ∈ l → y ∈ l → f x = f y → x = y.
Proof.
  induction l as [|z l IH]; simpl; [by intros _ ?%elem_of_nil|].
  intros [Hz Hnd]%NoDup_cons [->|Hx]%elem_of_cons [->|Hy]%elem_of_cons Heq.
  - done.
  - exfalso. apply Hz. rewrite Heq. apply list_elem_of_In, in_map.
    by apply list_elem_of_In.
  - exfalso. apply Hz. rewrite <- Heq. apply list_elem_of_In, in_map.
    by apply list_elem_of_In.
  - by apply IH.
Qed.

(** C8, as the code has it. The 3-day test set holds rows of test
    admissions only, each with a stay of at least 3 days, and the 2-day test
    set rows of test admissions with a stay of at least 2 days; with unique
    admission ids that stay is the stay of the row's admission. The
    3-day validation set is the rows of all validation admissions, with no
    condition on the stay; there is no 2-day validation set. *)
Theorem early_test_duration {F : Type} (s : IdSplit) (df_adm : list Labeler.Row)
    (df_less_3 df_less_2 : list (ChunkRow F)) (e : EarlySplit) :
  early_split rng s df_adm df_less_3 df_less_2 = Some e →
  (∀ row, row ∈ early_test e →
     (c_HADM_ID row ∈ map fst (test_id_label s))
     ∧ ∃ a d, a ∈ df_adm ∧ row_id a = c_HADM_ID row
              ∧ Labeler.DURATION a = Some d ∧ (3 <= d)%Q)
  ∧ (∀ row, row ∈ early_test_2days e →
     (c_HADM_ID row ∈ map fst (test_id_label s))
     ∧ ∃ a d, a ∈ df_adm ∧ row_id a = c_HADM_ID row
              ∧ Labeler.DURATION a = Some d ∧ (2 <= d)%Q)
  ∧ (NoDup (map row_id df_adm) →
     ∀ row a, a ∈ df_adm → row_id a = c_HADM_ID row →
       (row ∈ early_test e → ∃ d, Labeler.DURATION a = Some d ∧ (3 <= d)%Q)
       ∧ (row ∈ early_test_2days e → ∃ d, Labeler.DURATION a = Some d ∧ (2 <= d)%Q))
  ∧ early_val e = rows_in (map fst (val_id_label s)) df_less_3.
Proof.
  unfold early_split. destruct (sample_n rng 500 (df s)) as [more|]; [|done].
  simpl. intros [= <-]. simpl.
  assert (H3 : ∀ row,
    row ∈ rows_in (map fst (actionable_rows (actionable_ID 3 df_adm) (test_id_label s)))
            df_less_3 →
    (c_HADM_ID row ∈ map fst (test_id_label s))
    ∧ ∃ a d, a ∈ df_adm ∧ row_id a = c_HADM_ID row
             ∧ Labeler.DURATION a = Some d ∧ (3 <= d)%Q).
  { intros row [_ [Hid Hact]%elem_of_actionable_rows]%elem_of_rows_in.
    split; [done|].
    apply elem_of_actionable_ID in Hact as (a & Hin & Ha & (d & Hd & Hle)%ge_days_spec).
    by exists a, d. }
  assert (H2 : ∀ row,
    row ∈ rows_in (map fst (actionable_rows (actionable_ID 2 df_adm) (test_id_label s)))
            df_less_2 →
    (c_HADM_ID row ∈ map fst (test_id_label s))
    ∧ ∃ a d, a ∈ df_adm ∧ row_id a = c_HADM_ID row
             ∧ Labeler.DURATION a = Some d ∧ (2 <= d)%Q).
  { intros row [_ [Hid Hact]%elem_of_actionable_rows]%elem_of_rows_in.
    split; [done|].
    apply elem_of_actionable_ID in Hact as (a & Hin & Ha & (d & Hd & Hle)%ge_days_spec).
    by exists a, d. }
  split; [done|]. split; [done|]. split; [|done].
  intros Hnd row a Hin Hid. split; intros Hrow.
  - destruct (H3 row Hrow) as (_ & a' & d & Hin' & Hid' & Hd & Hle).
    assert (a = a') as -> by (apply (NoDup_map_inj_on row_id df_adm); congruence).
    eauto.
  - destruct (H2 row Hrow) as (_ & a' & d & Hin' & Hid' & Hd & Hle).
    assert (a = a') as -> by (apply (NoDup_map_inj_on row_id df_adm); congruence).
    eauto.
Qed.
End SplitProofs.

Lemma hd_error_elem_of {A} (l : list A) x : hd_error l = Some x → x ∈ l.
Proof. destruct l; [done|]. intros [= ->]. left. Qed.

Lemma hospital_ids_NoDup : NoDup (map Split.row_id Split.hospital_adm).
Proof. apply (bool_decide_unpack _). vm_compute. exact I. Defined.

Lemma split_sets_disjoint_witness :
  ∃ s d,
    Split.split_ids Split.zero_rng Split.hospital_adm = Some s
    ∧ Split.discharge_split Split.zero_rng s Split.hospital_chunks = Some d
    ∧ (∀ x, x ∈ Split.values (Split.id_train s) → x ∉ Split.values (Split.id_val s))
    ∧ length (Split.not_readmit_ID_use s) = length (Split.readmit_ID s).
Proof.
  destruct (split_sets_disjoint Split.zero_rng Split.hospital_adm Split.hospital_chunks)
    as (s & d & Hs & Hd & Htv & _ & _ & _ & _ & _ & _ & _ & Hbal & _).
  - exact hospital_ids_NoDup.
  - apply Nat.leb_le. vm_compute. reflexivity.
  - exists s, d. split; [exact Hs|]. split; [exact Hd|]. split; [exact Htv | exact Hbal].
Defined.

Lemma early_test_duration_witness :
  ∃ s e row,
    Split.split_ids Split.zero_rng Split.hospital_adm = Some s
    ∧ Split.early_split Split.zero_rng s Split.hospital_adm
        Split.hospital_chunks Split.hospital_chunks = Some e
    ∧ row ∈ Split.early_test e
    ∧ ∃ a d, a ∈ Split.hospital_adm ∧ Split.row_id a = Chunker.c_HADM_ID row
             ∧ Labeler.DURATION a = Some d ∧ (3 <= d)%Q.
Proof.
  eassert (Hs : Split.split_ids Split.zero_rng Split.hospital_adm = Some _)
    by (vm_compute; reflexivity).
  match type of Hs with _ = Some ?s =>
    eassert (He : Split.early_split Split.zero_rng s Split.hospital_adm
                    Split.hospital_chunks Split.hospital_chunks = Some _)
      by (vm_compute; reflexivity)
  end.
  match type of He with _ = Some ?e =>
    eassert (Hrow : hd_error (Split.early_test e) = Some _)
      by (vm_compute; reflexivity)
  end.
  apply hd_error_elem_of in Hrow.
  match type of He with Split.early_split _ ?s _ _ _ = Some ?e =>
    destruct (early_test_duration Split.zero_rng s Split.hospital_adm
                Split.hospital_chunks Split.hospital_chunks e He) as (H3 & _);
    match type of Hrow with ?row ∈ _ =>
      exists s, e, row;
      split; [exact Hs|]; split; [exact He|]; split; [exact Hrow|];
      exact (proj2 (H3 row Hrow))
    end
  end.
Defined.

(** * Further properties of the code *)

(** ** The vocabulary files *)

Section FilesProofs.
Import Vocabulary Files.

Lemma loop_size features ds st :
  vocab_inv ds st → size st.1 = S (length ds) →
  size (featureToIdx_loop st features).1
  = S (length (ds ++ first_seen ("0" :: ds) features)).
Proof.
  revert ds st. induction features as [|entry rest IH]; intros ds st Hinv Hsize.
  - simpl. by rewrite app_nil_r.
  - rewrite first_seen_cons_app, app_assoc.
    change (featureToIdx_loop st (entry :: rest))
      with (featureToIdx_loop (featureToIdx_step st entry) rest).
    erewrite (first_seen_equiv _ ("0" :: ds ++ first_seen ("0" :: ds) [entry]) rest).
    + apply IH; [by apply vocab_inv_step|].
      unfold featureToIdx_step. simpl.
      pose proof (vocab_inv_dom ds st entry Hinv) as Hdom.
      destruct (decide (entry ∈ "0" :: ds)) as [Hin|Hnin].
      * rewrite app_nil_r. apply elem_of_cons in Hin.
        apply Hdom in Hin as [i ->]. done.
      * rewrite elem_of_cons in Hnin.
        destruct (st.1 !! entry) as [i|] eqn:Hlk.
        { exfalso. apply Hnin, Hdom. eauto. }
        simpl. rewrite map_size_insert_None by done.
        rewrite Hsize, length_app. simpl. lia.
    + intros x. rewrite !elem_of_app, !elem_of_cons, !elem_of_app. tauto.
Qed.

(** X1. The indices of a vocabulary are the numbers below its size, each
    used by one code, and the size is one more than the number of distinct
    codes other than ["0"]. *)
Theorem featureToIdx_dense (features : list string) :
  size (featureToIdx features) = S (length (first_seen ["0"] features))
  ∧ (∀ i, i < size (featureToIdx features)
          ↔ ∃ c, featureToIdx features !! c = Some i).
Proof.
  pose proof (vocab_inv_final features) as Hinv.
  assert (Hsize : size (featureToIdx features) = S (length (first_seen ["0"] features))).
  { unfold featureToIdx.
    rewrite (loop_size features [] init_state vocab_inv_init); [done|].
    unfold init_state. simpl. by rewrite map_size_insert_None, map_size_empty. }
  split; [done|]. intros i. rewrite Hsize. unfold featureToIdx. split.
  - intros Hi. destruct i as [|k].
    + exists "0". apply (inv_zero _ _ Hinv).
    + destruct (lookup_lt_is_Some_2 (first_seen ["0"] features) k) as [c Hc]; [lia|].
      exists c. by apply (inv_fwd _ _ Hinv).
  - intros [c Hc]. destruct (inv_bwd _ _ Hinv _ _ Hc) as [[_ ->]|(k & -> & Hk)]; [lia|].
    apply lookup_lt_Some in Hk. lia.
Qed.

(** X25. The codes of a vocabulary and its size do not depend on the order
    in which the codes are given, nor on repetitions: two sequences with
    the same codes give vocabularies with the same keys and the same size.
    (The index of a code does depend on the order.) *)
Theorem featureToIdx_keys_order_free (features features' : list string) :
  (∀ c, c ∈ features ↔ c ∈ features') →
  dom (featureToIdx features) = dom (featureToIdx features')
  ∧ size (featureToIdx features) = size (featureToIdx features').
Proof.
  intros Hsame.
  assert (Hdom : ∀ l c, c ∈ dom (featureToIdx l) ↔ c = "0" ∨ c ∈ l).
  { intros l c. rewrite elem_of_dom. unfold featureToIdx.
    pose proof (vocab_inv_dom _ _ c (vocab_inv_final l)) as Hc.
    rewrite Hc, elem_of_first_seen, list_elem_of_singleton.
    destruct (decide (c = "0")); tauto. }
  split.
  - apply set_eq. intros c. rewrite !Hdom, Hsame. done.
  - assert (Hperm : first_seen ["0"] features ≡ₚ first_seen ["0"] features').
    { apply NoDup_Permutation; [apply NoDup_first_seen | apply NoDup_first_seen |].
      intros c. rewrite !elem_of_first_seen, Hsame. done. }
    assert (Hsize : ∀ l, size (featureToIdx l) = S (length (first_seen ["0"] l))).
    { intros l. unfold featureToIdx.
      rewrite (loop_size l [] init_state vocab_inv_init); [done|].
      unfold init_state. simpl. by rewrite map_size_insert_None, map_size_empty. }
    by rewrite !Hsize, Hperm.
Qed.

(** X2. After [writeToJSON] the file holds every entry it held before,
    unchanged, and the entries of [content] whose key it did not hold; the
    dictionary of the caller has become the content of the file; no other
    file has changed. *)
Theorem writeToJSON_existing_entries_win (content : gmap string nat)
    (filepath : string) (fs : filesystem) :
  let base := default ∅ (fs !! filepath) in
  let '(fs', content') := writeToJSON content filepath fs in
  fs' !! filepath = Some content'
  ∧ (∀ k v, base !! k = Some v → content' !! k = Some v)
  ∧ (∀ k, base !! k = None → content' !! k = content !! k)
  ∧ dom content' = dom base ∪ dom content
  ∧ (∀ other, other ≠ filepath → fs' !! other = fs !! other).
Proof.
  unfold writeToJSON. destruct (fs !! filepath) as [baseContent|] eqn:Hfile; simpl.
  - split; [apply lookup_insert_eq|]. split; [|split; [|split]].
    + intros k v Hk. by apply lookup_union_Some_l.
    + intros k Hk. by apply lookup_union_r.
    + apply dom_union_L.
    + intros other Hne. by apply lookup_insert_ne.
  - split; [apply lookup_insert_eq|]. split; [|split; [|split]].
    + intros k v Hk. rewrite lookup_empty in Hk. discriminate.
    + done.
    + by rewrite dom_empty_L, (left_id_L ∅ (∪)).
    + intros other Hne. by apply lookup_insert_ne.
Qed.

(** X3. Writing twice is writing once: a second [writeToJSON] of the same
    dictionary, or of the dictionary as the first call left it, changes
    nothing. *)
Theorem writeToJSON_idempotent (content : gmap string nat)
    (filepath : string) (fs : filesystem) :
  let '(fs', content') := writeToJSON content filepath fs in
  writeToJSON content filepath fs' = (fs', content')
  ∧ writeToJSON content' filepath fs' = (fs', content').
Proof.
  unfold writeToJSON, filesystem in *.
  destruct (fs !! filepath) as [baseContent|] eqn:Hfile; simpl.
  - rewrite lookup_insert_eq, !insert_insert_eq. split.
    + by rewrite <- (assoc (∪)), (idemp (∪) content).
    + by rewrite (idemp (∪) (baseContent ∪ content)).
  - by rewrite lookup_insert_eq, !insert_insert_eq, (idemp (∪) content).
Qed.

(** X4. A vocabulary file is written once: when the file is there it is left
    as it is, whatever the codes; when it is not, it receives the vocabulary
    of the codes; so a second run, with the same or other codes, changes no
    file. *)
Theorem persist_vocabulary_once (codes codes' : list string) (path : string)
    (fs : filesystem) :
  (∀ old, fs !! path = Some old → persist_vocabulary codes path fs = fs)
  ∧ (fs !! path = None →
     persist_vocabulary codes path fs !! path = Some (featureToIdx codes))
  ∧ (∀ other, other ≠ path → persist_vocabulary codes path fs !! other = fs !! other)
  ∧ persist_vocabulary codes' path (persist_vocabulary codes path fs)
    = persist_vocabulary codes path fs.
Proof.
  unfold persist_vocabulary, writeToJSON, filesystem in *.
  destruct (fs !! path) as [old|] eqn:Hfile; simpl.
  - split; [done|]. split; [done|]. split; [done|]. by rewrite Hfile.
  - split; [done|]. split; [intros _; apply lookup_insert_eq|].
    split; [intros other Hne; by apply lookup_insert_ne|].
    by rewrite lookup_insert_eq.
Qed.
End FilesProofs.

Lemma featureToIdx_keys_order_free_witness :
  size (Vocabulary.featureToIdx ["b"; "a"; "b"]) = size (Vocabulary.featureToIdx ["a"; "b"]).
Proof.
  apply (featureToIdx_keys_order_free ["b"; "a"; "b"] ["a"; "b"]).
  intros c. rewrite !elem_of_cons, !elem_of_nil. tauto.
Defined.

Lemma persist_vocabulary_once_witness :
  Files.persist_vocabulary ["a"] "v.json" (<["v.json" := ∅]> ∅) = <["v.json" := ∅]> ∅
  ∧ Files.persist_vocabulary ["a"] "v.json" ∅ !! "v.json"
    = Some (Vocabulary.featureToIdx ["a"]).
Proof.
  destruct (persist_vocabulary_once ["a"] ["b"] "v.json" (<["v.json" := ∅]> ∅))
    as (Hkeep & _).
  destruct (persist_vocabulary_once ["a"] ["b"] "v.json" ∅) as (_ & Hnew & _).
  split; [apply (Hkeep ∅); apply lookup_insert_eq | apply Hnew; apply lookup_empty].
Defined.

Lemma writeToJSON_existing_entries_win_witness :
  (Files.writeToJSON (<["a" := 5]> (<["b" := 2]> ∅)) "v.json"
     (<["v.json" := <["a" := 1]> ∅]> ∅)).2 !! "a" = Some 1.
Proof.
  pose proof (writeToJSON_existing_entries_win (<["a" := 5]> (<["b" := 2]> ∅)) "v.json"
                (<["v.json" := <["a" := 1]> ∅]> ∅)) as H.
  destruct (Files.writeToJSON _ _ _) as [fs' content'].
  destruct H as (_ & Hwin & _). apply Hwin. reflexivity.
Defined.

(** ** The first level of a code and the counters of the code mapper *)

Section ICDLevel.
Import ICD.

Lemma length_py_prefix_slice n s :
  String.length (py_prefix_slice n s) = n `min` String.length s.
Proof.
  unfold py_prefix_slice. revert s.
  induction n as [|n IH]; intros [|a s]; simpl; try done. by rewrite IH.
Qed.

Lemma prefix_py_prefix_slice n s : String.prefix (py_prefix_slice n s) s = true.
Proof.
  unfold py_prefix_slice. revert s.
  induction n as [|n IH]; intros [|a s]; simpl; try done.
  destruct (ascii_dec a a); [apply IH | done].
Qed.

Lemma py_prefix_slice_idemp n s :
  py_prefix_slice n (py_prefix_slice n s) = py_prefix_slice n s.
Proof.
  unfold py_prefix_slice. revert s.
  induction n as [|n IH]; intros [|a s]; simpl; try done. by rewrite IH.
Qed.

Lemma prefix_of_py_prefix_slice p n s :
  String.length p ≤ n →
  String.prefix p (py_prefix_slice n s) = String.prefix p s.
Proof.
  unfold py_prefix_slice. revert p s.
  induction n as [|n IH]; intros [|b p] [|a s] Hp; simpl in *; try done; try lia.
  destruct (ascii_dec b a); [|done]. apply IH. lia.
Qed.

(** X5. The first level of a code is a prefix of the code of at most six
    characters, and it is its own first level: reducing a reduced code
    changes nothing. *)
Theorem getICDlevel1_reduction (icd9_code small : string) :
  getICDlevel1 icd9_code = Some small →
  String.prefix small icd9_code = true
  ∧ String.length small ≤ 6
  ∧ getICDlevel1 small = Some small.
Proof.
  unfold getICDlevel1. intros H.
  destruct (String.prefix "P" icd9_code) eqn:HP;
    [|destruct (String.prefix "D" icd9_code) eqn:HD;
      [destruct (String.prefix "D_E" icd9_code) eqn:HE|]];
    simplify_eq; (split; [apply prefix_py_prefix_slice|]);
    (split; [rewrite length_py_prefix_slice; lia|]).
  - rewrite (prefix_of_py_prefix_slice "P" 4) by (simpl; lia).
    by rewrite HP, py_prefix_slice_idemp.
  - rewrite (prefix_of_py_prefix_slice "P" 6), (prefix_of_py_prefix_slice "D" 6),
      (prefix_of_py_prefix_slice "D_E" 6) by (simpl; lia).
    by rewrite HP, HD, HE, py_prefix_slice_idemp.
  - rewrite (prefix_of_py_prefix_slice "P" 5), (prefix_of_py_prefix_slice "D" 5),
      (prefix_of_py_prefix_slice "D_E" 5) by (simpl; lia).
    by rewrite HP, HD, HE, py_prefix_slice_idemp.
Qed.

Variable icd9TOCCS_Map : gmap string string.

Lemma code_step_counters st c :
  let st' := code_step icd9TOCCS_Map st c in
  mapped st' + length (tempCCSCodeList st)
  = mapped st + length (tempCCSCodeList st')
  ∧ mapped st' + unmapped st' = mapped st + unmapped st + 1.
Proof.
  unfold code_step. destruct (icd9TOCCS_Map !! c); simpl;
    rewrite ?length_app; simpl; lia.
Qed.

Lemma code_loop_counters codes st :
  let st' := foldl (code_step icd9TOCCS_Map) st codes in
  mapped st' + length (tempCCSCodeList st)
  = mapped st + length (tempCCSCodeList st')
  ∧ mapped st' + unmapped st' = mapped st + unmapped st + length codes.
Proof.
  revert st. induction codes as [|c codes IH]; intros st; simpl; [lia|].
  destruct (IH (code_step icd9TOCCS_Map st c)) as [H1 H2].
  destruct (code_step_counters st c) as [K1 K2]. lia.
Qed.

Lemma row_step_counters st codes :
  let st' := row_step icd9TOCCS_Map st codes in
  total_mapped st' + total_unmapped st'
  = total_mapped st + total_unmapped st + length codes
  ∧ total_mapped st' + length (concat (mappedCCSList st))
    = total_mapped st + length (concat (mappedCCSList st'))
  ∧ length (mappedCCSList st') = length (mappedCCSList st) + 1
  ∧ length (mappedSmallICDList st') = length (mappedSmallICDList st) + 1.
Proof.
  unfold row_step, process_row. simpl.
  destruct (code_loop_counters codes (RowState [] [] (total_mapped st) (total_unmapped st)))
    as [K1 K2]. simpl in *.
  rewrite concat_app, !length_app. simpl. rewrite app_nil_r. lia.
Qed.

(** X6. The two counters that [map_ICD9_to_CCS] prints add up to the number
    of ICD codes of the table, and the number of mapped entries is the total
    length of the group lists it returns; one list of each kind is returned
    per admission. *)
Theorem map_ICD9_to_CCS_counters (ICD9_CODE_column : list (list string)) :
  let st := foldl (row_step icd9TOCCS_Map) (MapState [] [] 0 0) ICD9_CODE_column in
  total_mapped st + total_unmapped st = length (concat ICD9_CODE_column)
  ∧ total_mapped st = length (concat (map_ICD9_to_CCS icd9TOCCS_Map ICD9_CODE_column).1)
  ∧ length (map_ICD9_to_CCS icd9TOCCS_Map ICD9_CODE_column).1 = length ICD9_CODE_column
  ∧ length (map_ICD9_to_CCS icd9TOCCS_Map ICD9_CODE_column).2 = length ICD9_CODE_column.
Proof.
  unfold map_ICD9_to_CCS. simpl.
  assert (Hgen : ∀ column st,
    let st' := foldl (row_step icd9TOCCS_Map) st column in
    total_mapped st' + total_unmapped st'
    = total_mapped st + total_unmapped st + length (concat column)
    ∧ total_mapped st' + length (concat (mappedCCSList st))
      = total_mapped st + length (concat (mappedCCSList st'))
    ∧ length (mappedCCSList st') = length (mappedCCSList st) + length column
    ∧ length (mappedSmallICDList st') = length (mappedSmallICDList st) + length column).
  { induction column as [|codes column IH]; intros st; simpl; [lia|].
    destruct (IH (row_step icd9TOCCS_Map st codes)) as (H1 & H2 & H3 & H4).
    destruct (row_step_counters st codes) as (K1 & K2 & K3 & K4).
    rewrite length_app. lia. }
  destruct (Hgen ICD9_CODE_column (MapState [] [] 0 0)) as (H1 & H2 & H3 & H4).
  simpl in *. lia.
Qed.
End ICDLevel.

Lemma getICDlevel1_reduction_witness :
  ICD.getICDlevel1 "D_E8120" = Some "D_E812"
  ∧ ICD.getICDlevel1 "D_E812" = Some "D_E812".
Proof.
  split; [reflexivity|].
  apply (getICDlevel1_reduction "D_E8120" "D_E812"). reflexivity.
Defined.

(** ** The two outputs of the medication normaliser agree *)

Section FirstSeenImage.
Context {A B : Type} `{EqDecision A} `{EqDecision B}.

(** Removing repetitions before mapping changes nothing once repetitions
    are removed after it. *)
Lemma first_seen_omap_first_seen (f : A → option B) (l : list A) :
  ∀ (seen : list A) (seen' : list B),
    (∀ x y, x ∈ seen → f x = Some y → y ∈ seen') →
    first_seen seen' (omap f l) = first_seen seen' (omap f (first_seen seen l)).
Proof.
  induction l as [|x l IH]; intros seen seen' Hseen; [done|].
  simpl. destruct (decide (x ∈ seen)) as [Hx|Hx]; csimpl.
  - destruct (f x) as [y|] eqn:Hfx; [|by apply IH].
    simpl. rewrite decide_True by eauto. by apply IH.
  - destruct (f x) as [y|] eqn:Hfx.
    + simpl. destruct (decide (y ∈ seen')) as [Hy|Hy].
      * apply IH. intros x' y' [->|Hx']%elem_of_cons Hfx'; [by simplify_eq | eauto].
      * f_equal. apply IH. intros x' y' [->|Hx']%elem_of_cons Hfx'; apply elem_of_cons.
        -- left. congruence.
        -- right. eauto.
    + apply IH. intros x' y' [->|Hx']%elem_of_cons Hfx'; [congruence | eauto].
Qed.
End FirstSeenImage.

Section MedicationAgreement.
Import Medication.
Variable ndcCuiMap : gmap string string.

Lemma original_keys_valid values :
  ndcCuiMap !! "0" = None →
  omap (λ key, ndcCuiMap !! key) (original_keys values)
  = omap (λ key, ndcCuiMap !! key) (omap (valid_code (dom ndcCuiMap)) values).
Proof.
  intros Hzero. induction values as [|v values IH]; [done|].
  unfold original_keys in *. csimpl. destruct v as [|z]; csimpl; [done|].
  destruct (Z.eqb_spec z 0) as [->|Hz]; simpl.
  { change (py_str 0) with "0". by rewrite Hzero. }
  destruct (bool_decide_reflect (py_str z ∈ dom ndcCuiMap)) as [Hd|Hd]; csimpl.
  - by rewrite IH.
  - apply not_elem_of_dom in Hd. by rewrite Hd.
Qed.

(** The concepts of a cell are those of its deduplicated codes. *)
Lemma cell_concepts_of_codes values :
  ndcCuiMap !! "0" = None →
  resolve_concepts ndcCuiMap (lookup_keys (dom ndcCuiMap) [] values)
  = resolve_concepts ndcCuiMap (dedup_codes (dom ndcCuiMap) values).
Proof.
  intros Hzero. rewrite !resolve_concepts_foldl, !foldl_append_if_absent. simpl.
  rewrite lookup_keys_original, original_keys_valid by done.
  unfold dedup_codes. apply first_seen_omap_first_seen.
  by intros x y ?%elem_of_nil.
Qed.

Lemma dedup_codes_resolve values :
  Forall (λ s, is_Some (ndcCuiMap !! s)) (dedup_codes (dom ndcCuiMap) values).
Proof.
  apply Forall_forall. intros s [Hs _]%elem_of_first_seen.
  apply list_elem_of_omap in Hs as (v & _ & Hv).
  apply valid_code_Some in Hv as (z & _ & _ & Hd & ->). by apply elem_of_dom.
Qed.

(** X7. With no entry for ["0"] in the concept table, the concept list the
    function returns for a row is the list of the concepts of the codes it
    left in the medication cell of that row, each once and in the order of
    the codes; and every code left in a cell has a concept. *)
Theorem medication_concepts_follow_codes
    (pandasDataFrame : ref) (h : gmap ref DataFrame) (df : DataFrame) (column : string) :
  h !! pandasDataFrame = Some df →
  choose_column df = Some column →
  NoDup (df_index df) →
  (∀ i, i ∈ df_index df → ∃ l, loc df i column = Some (CFloats l)) →
  ndcCuiMap !! "0" = None →
  ∃ h' df' cuis,
    get_unique_ordered_medication ndcCuiMap pandasDataFrame h
    = Some (h', (pandasDataFrame, cuis))
    ∧ h' !! pandasDataFrame = Some df'
    ∧ length cuis = length (df_index df)
    ∧ ∀ k i, df_index df !! k = Some i →
        ∃ codes, loc df' i column = Some (CStrs codes)
          ∧ cuis !! k = Some (resolve_concepts ndcCuiMap codes)
          ∧ Forall (λ s, is_Some (ndcCuiMap !! s)) codes.
Proof.
  intros Hh Hcol Hnd Hcells Hzero.
  destruct (index_loop ndcCuiMap pandasDataFrame column (df_index df) (FunState h [] 0 0) df)
    as (st' & df' & Hloop & Hheap & Hix & Hcols & Hnew & Hold & Hc); try done.
  exists (heap st'), df', (unique_cuis_list st').
  unfold get_unique_ordered_medication. rewrite Hh. simpl.
  rewrite Hcol, Hloop. simpl. split; [done|].
  split; [rewrite Hheap; apply lookup_insert_eq|].
  rewrite Hc. simpl. split; [by rewrite length_map|].
  intros k i Hk. destruct (Hcells i) as [l Hl]; [by eapply list_elem_of_lookup_2|].
  exists (dedup_codes (dom ndcCuiMap) l).
  split; [apply Hnew; [by eapply list_elem_of_lookup_2 | done]|].
  split; [|apply dedup_codes_resolve].
  rewrite list_lookup_fmap, Hk. simpl. f_equal.
  unfold cell_concepts. rewrite Hl. by apply cell_concepts_of_codes.
Qed.

(** X8. A frame with neither an [NDC] nor a [DRUG] column: the name [column]
    is never bound, so the first row raises; with no row at all the call
    returns the store unchanged and an empty list. *)
Theorem get_unique_ordered_medication_no_column
    (pandasDataFrame : ref) (h : gmap ref DataFrame) (df : DataFrame) :
  h !! pandasDataFrame = Some df →
  "NDC" ∉ df_columns df → "DRUG" ∉ df_columns df →
  get_unique_ordered_medication ndcCuiMap pandasDataFrame h
  = match df_index df with
    | [] => Some (h, (pandasDataFrame, []))
    | _ :: _ => None
    end.
Proof.
  intros Hh Hndc Hdrug. unfold get_unique_ordered_medication, choose_column.
  rewrite Hh. simpl. rewrite !decide_False by done.
  by destruct (df_index df).
Qed.
End MedicationAgreement.

Section MedicationAgreementExamples.
Import Medication.

Lemma medication_concepts_follow_codes_witness :
  ∃ h' df' cuis,
    get_unique_ordered_medication example_map 0 example_heap = Some (h', (0, cuis))
    ∧ h' !! 0 = Some df'
    ∧ ∃ codes, loc df' 1 "NDC" = Some (CStrs codes)
        ∧ cuis !! 1 = Some (resolve_concepts example_map codes).
Proof.
  destruct (medication_concepts_follow_codes example_map 0 example_heap example_frame "NDC")
    as (h' & df' & cuis & Hrun & Hh' & _ & Hrows).
  - by vm_compute.
  - by vm_compute.
  - simpl. apply NoDup_cons. split; [by intros ?%list_elem_of_singleton|].
    apply NoDup_singleton.
  - intros i Hi. apply elem_of_cons in Hi as [->|Hi]; [eexists; by vm_compute|].
    apply list_elem_of_singleton in Hi as ->. eexists; by vm_compute.
  - by vm_compute.
  - exists h', df', cuis. split; [done|]. split; [done|].
    destruct (Hrows 1 1) as (codes & Hloc & Hcui & _); [done|]. eauto.
Defined.

Lemma get_unique_ordered_medication_no_column_witness :
  get_unique_ordered_medication example_map 0
    (<[0 := MkFrame [7] ["HADM_ID"] (<[("HADM_ID", 7) := CInt 100001]> ∅)]> ∅) = None.
Proof.
  apply (get_unique_ordered_medication_no_column example_map 0 _
           (MkFrame [7] ["HADM_ID"] (<[("HADM_ID", 7) := CInt 100001]> ∅))).
  - apply lookup_insert_eq.
  - simpl. by intros ?%list_elem_of_singleton.
  - simpl. by intros ?%list_elem_of_singleton.
Defined.
End MedicationAgreementExamples.

(** ** The admission table: rows kept, previous discharge, label end to end *)

Section AdmissionTable.
Import Labeler.

Lemma filter_map_view {X Y} (f : X → Y) (p : Y → bool) (l : list X) :
  List.filter p (map f l) = map f (List.filter (λ x, p (f x)) l).
Proof.
  induction l as [|x l IH]; simpl; [done|]. rewrite IH. by destruct (p (f x)).
Qed.

Lemma label_admissions_adm df_adm :
  map (λ r, adm (linked r)) (label_admissions df_adm) = sort_values id df_adm.
Proof.
  rewrite <- (next_time_column_fst (sort_values id df_adm)),
    <- label_admissions_view.
  by rewrite map_map.
Qed.

(** X9. The final table has one row for each admission that is not a
    NEWBORN admission and has no time of death, in the order of patient and
    admission time, and the DURATION of a row is the time from admission to
    discharge in days. *)
Theorem final_admissions_rows (df_adm : list Admission) :
  map (λ r, adm (linked r)) (final_admissions df_adm)
  = List.filter (λ a, match DEATHTIME a with None => true | Some _ => false end)
      (List.filter (λ a, negb (bool_decide (ADMISSION_TYPE a = Some "NEWBORN")))
         (sort_values id df_adm))
  ∧ Forall (λ r, DURATION r
                 = days_between (DISCHTIME (adm (linked r))) (ADMITTIME (adm (linked r))))
      (final_admissions df_adm)
  ∧ length (final_admissions df_adm) ≤ length df_adm.
Proof.
  unfold final_admissions. split; [|split].
  - rewrite map_map. simpl.
    rewrite <- label_admissions_adm, !filter_map_view. done.
  - apply Forall_forall. intros r (r0 & -> & _)%list_elem_of_fmap. done.
  - rewrite length_map.
    etrans; [apply filter_length_le|]. etrans; [apply filter_length_le|].
    rewrite <- (length_map (λ r, adm (linked r))), label_admissions_adm.
    by rewrite (sort_values_perm id).
Qed.

(** *** The PREV_DISCHTIME column *)

Lemma find_none_app {X} (p : X → bool) (l1 l2 : list X) :
  List.find p l1 = None → List.find p (l1 ++ l2) = List.find p l2.
Proof.
  induction l1 as [|x l1 IH]; simpl; [done|]. destruct (p x); [done | apply IH].
Qed.

Lemma find_rev_none {X} (p : X → bool) (l : list X) :
  List.find p l = None → List.find p (rev l) = None.
Proof.
  intros Hnone. destruct (List.find p (rev l)) as [x|] eqn:Hfind; [|done].
  apply find_some in Hfind as [Hin Hp]. apply in_rev in Hin.
  by rewrite (find_none _ _ Hnone x Hin) in Hp.
Qed.

Lemma find_split {X} (p : X → bool) (l : list X) x :
  List.find p l = Some x →
  ∃ l1 l2, l = l1 ++ x :: l2 ∧ List.find p l1 = None ∧ p x = true.
Proof.
  induction l as [|y l IH]; simpl; [done|].
  destruct (p y) eqn:Hy.
  - intros [= <-]. by exists [], l.
  - intros (l1 & l2 & -> & Hnone & Hx)%IH. exists (y :: l1), l2.
    simpl. by rewrite Hy.
Qed.

Lemma same_subject_sym a b : same_subject a b = same_subject b a.
Proof. unfold same_subject. apply Z.eqb_sym. Qed.

Lemma same_subject_refl a : same_subject a a = true.
Proof. unfold same_subject. apply Z.eqb_refl. Qed.

Lemma bfill_rows_cons before a l :
  ∃ r0,
    bfill_prev (bfill_next (null_elective (link_rows before (a :: l))))
    = r0 :: bfill_prev (bfill_next (null_elective (link_rows (a :: before) l)))
    ∧ adm r0 = a
    ∧ PREV_DISCHTIME r0
      = or_else (List.find (same_subject a) before ≫= DISCHTIME)
          (List.find (λ r, same_subject a (adm r))
             (bfill_prev (bfill_next (null_elective (link_rows (a :: before) l))))
           ≫= PREV_DISCHTIME).
Proof.
  cbn [link_rows null_elective map bfill_next bfill_prev].
  fold (null_elective (link_rows (a :: before) l)).
  eexists. split; [done|].
  cbn [adm PREV_DISCHTIME]. rewrite null_elective_row_adm. cbn [adm].
  split; [done|]. unfold null_elective_row.
  destruct (is_elective _); reflexivity.
Qed.

Lemma find_none_filter {X} (p : X → bool) (l : list X) :
  List.find p l = None → List.filter p l = [].
Proof.
  induction l as [|x l IH]; simpl; [done|]. destruct (p x); [done | apply IH].
Qed.

Lemma find_some_filter {X} (p : X → bool) (l : list X) x :
  List.find p l = Some x → ∃ rest, List.filter p l = x :: rest.
Proof.
  induction l as [|y l IH]; simpl; [done|].
  destruct (p y); [intros [= ->]; eauto | apply IH].
Qed.

Lemma or_else_None {V} (x : option V) : or_else x None = x.
Proof. by destruct x. Qed.

(** The filled value of a row: the first discharge time that is there among
    that of the previous row of the patient, that of the row and those of
    the later rows of the patient but the last. *)
Lemma prev_fill l :
  ∀ before pre r post,
    bfill_prev (bfill_next (null_elective (link_rows before l))) = pre ++ r :: post →
    PREV_DISCHTIME r
    = Fill.first_valid
        ((List.find (same_subject (adm r)) (rev (map adm pre) ++ before) ≫= DISCHTIME)
         :: map DISCHTIME
              (removelast (adm r :: List.filter (same_subject (adm r)) (map adm post)))).
Proof.
  induction l as [|a l IH]; intros before pre r post Hsplit.
  { by destruct pre. }
  destruct (bfill_rows_cons before a l) as (r0 & Hrows & Hadm & Hprev).
  rewrite Hrows in Hsplit. destruct pre as [|p0 pre]; simpl in Hsplit.
  - injection Hsplit as <- <-. cbn [map rev app]. rewrite Hadm, Hprev.
    cbn [Fill.first_valid]. f_equal.
    destruct (List.find (λ x, same_subject a (adm x)) _) as [n'|] eqn:Hfind.
    + pose proof Hfind as Hfilter.
      apply find_split in Hfind as (pre' & post' & Hsplit' & Hnone & Hsame).
      change (Some n' ≫= PREV_DISCHTIME) with (PREV_DISCHTIME n').
      rewrite (IH (a :: before) pre' n' post' Hsplit').
      assert (Hnone' : List.find (same_subject a) (map adm pre') = None).
      { by rewrite find_map_view, Hnone. }
      rewrite find_none_app.
      2:{ apply find_rev_none. erewrite find_pred_ext; [exact Hnone'|].
          intros x. apply same_subject_congr. by rewrite same_subject_sym. }
      cbn [List.find]. rewrite same_subject_sym, Hsame. cbn [mbind option_bind].
      rewrite Hsplit', map_app, List.filter_app. cbn [map List.filter].
      rewrite (find_none_filter _ _ Hnone'), Hsame. cbn [app].
      rewrite (List.filter_ext (same_subject (adm n')) (same_subject a)).
      2:{ intros x. apply same_subject_congr. by rewrite same_subject_sym. }
      reflexivity.
    + rewrite find_none_filter by (by rewrite find_map_view, Hfind).
      reflexivity.
  - injection Hsplit as <- Hsplit. cbn [map rev]. rewrite Hadm, <- app_assoc.
    by apply IH.
Qed.

Lemma link_admissions_rows df_adm :
  link_admissions df_adm
  = bfill_next (null_elective (link_rows [] (sort_values id df_adm))).
Proof.
  unfold link_admissions. rewrite (sort_values_id adm); [done|].
  apply sorted_map_adm. rewrite null_elective_adm, link_rows_adm.
  apply (sort_values_sorted id).
Qed.

(** X10. The previous discharge time of a row after the fill is the first
    discharge time that is there among: that of the previous admission of
    the patient, that of the row itself, and those of the later admissions
    of the patient except the last one; the days since the previous
    discharge are counted from it. So a row whose previous admission has a
    discharge time gets that time; a row whose previous admission has none,
    and the first admission of a patient, get their own discharge time when
    the patient comes back, and the days are then the negated length of the
    stay; the only admission of a patient has no previous discharge time
    and no days. *)
Theorem prev_dischtime_after_fill
    (df_adm : list Admission) (before : list Row) (r : Row) (later : list Row) :
  label_admissions df_adm = before ++ r :: later →
  let a := adm (linked r) in
  let previous := List.find (same_subject a) (rev (map (λ r, adm (linked r)) before)) in
  let following := List.filter (same_subject a) (map (λ r, adm (linked r)) later) in
  PREV_DISCHTIME (linked r)
  = Fill.first_valid
      ((previous ≫= DISCHTIME) :: map DISCHTIME (removelast (a :: following)))
  ∧ DAYS_PREV_ADMIT r = days_between (ADMITTIME a) (PREV_DISCHTIME (linked r))
  ∧ (∀ p t, previous = Some p → DISCHTIME p = Some t →
            PREV_DISCHTIME (linked r) = Some t)
  ∧ (∀ t, previous ≫= DISCHTIME = None → following ≠ [] → DISCHTIME a = Some t →
          PREV_DISCHTIME (linked r) = Some t
          ∧ DAYS_PREV_ADMIT r = days_between (ADMITTIME a) (DISCHTIME a))
  ∧ (previous ≫= DISCHTIME = None → following = [] →
     PREV_DISCHTIME (linked r) = None ∧ DAYS_PREV_ADMIT r = None).
Proof.
  unfold label_admissions. rewrite link_admissions_rows.
  intros (pre & rest & -> & Hrest & Hrows)%fmap_app_inv.
  symmetry in Hrest. apply fmap_cons_inv in Hrest as (l & post & -> & -> & ->).
  cbn zeta. cbn [linked label_row DAYS_PREV_ADMIT].
  pose proof (prev_fill _ [] pre l post Hrows) as Hfill.
  rewrite app_nil_r in Hfill.
  assert (Hpre : map (λ r, adm (linked r)) (label_row <$> pre) = map adm pre)
    by (rewrite map_map; reflexivity).
  assert (Hpost : map (λ r, adm (linked r)) (label_row <$> post) = map adm post)
    by (rewrite map_map; reflexivity).
  rewrite Hpre, Hpost.
  split; [exact Hfill|]. split; [done|]. rewrite Hfill. split; [|split].
  - intros p t -> Ht. cbn [mbind option_bind Fill.first_valid]. by rewrite Ht.
  - intros t -> Hfollowing Ht.
    destruct (List.filter _ _) as [|n rest]; [done|].
    cbn [removelast map Fill.first_valid or_else]. rewrite Ht. done.
  - intros -> ->. cbn [removelast map Fill.first_valid or_else]. split; [done|].
    unfold days_between. by destruct (ADMITTIME (adm l)).
Qed.

(** *** The label, end to end *)

Lemma days_below_30 (t d : Z) :
  lt_days (days_between (Some t) (Some d)) 30 = true ↔ (t - d < 2592000)%Z.
Proof.
  rewrite lt_days_spec. simpl. split.
  - intros (x & [= <-] & Hlt). unfold Qlt in Hlt. simpl in Hlt. lia.
  - intros Hlt. eexists. split; [done|]. unfold Qlt. simpl. lia.
Qed.

Lemma next_admit_time_of_row df_adm before r later :
  label_admissions df_adm = before ++ r :: later →
  NEXT_ADMITTIME (linked r)
  = next_non_elective (adm (linked r)) (map (λ r, adm (linked r)) later) ≫= ADMITTIME.
Proof.
  intros Hsplit. pose proof (label_admissions_view df_adm) as Hview.
  rewrite Hsplit, map_app in Hview. simpl in Hview. symmetry in Hview.
  apply next_time_column_split in Hview as (l1 & l2 & Hl & Hpost & Hhead).
  simpl in Hl, Hhead.
  assert (Hs : key_sorted (adm (linked r) :: l2)).
  { apply (key_sorted_app_r l1). rewrite <- Hl. apply (sort_values_sorted id). }
  injection Hhead as Hnext _. rewrite Hnext.
  rewrite (next_time_column_head _ _ Hs). f_equal. f_equal.
  rewrite <- (next_time_column_fst l2), <- Hpost. by rewrite map_map.
Qed.

(** X11. The label from the admissions alone: a row is labelled 1 exactly
    when its patient has a later admission that is not ELECTIVE, the first
    such admission has an admission time, the row has a discharge time, and
    the admission time is less than 30 days (2592000 seconds) after the
    discharge time. A row with no later admission other than ELECTIVE ones
    is labelled 0. *)
Theorem output_label_end_to_end
    (df_adm : list Admission) (before : list Row) (r : Row) (later : list Row) :
  label_admissions df_adm = before ++ r :: later →
  (OUTPUT_LABEL r = 1%Z
   ↔ ∃ n t d,
       next_non_elective (adm (linked r)) (map (λ r, adm (linked r)) later) = Some n
       ∧ ADMITTIME n = Some t ∧ DISCHTIME (adm (linked r)) = Some d
       ∧ (t - d < 2592000)%Z)
  ∧ (OUTPUT_LABEL r = 0%Z ∨ OUTPUT_LABEL r = 1%Z)
  ∧ (next_non_elective (adm (linked r)) (map (λ r, adm (linked r)) later) = None →
     OUTPUT_LABEL r = 0%Z).
Proof.
  intros Hsplit. pose proof (next_admit_time_of_row _ _ _ _ Hsplit) as Hnext.
  assert (Hin : r ∈ label_admissions df_adm).
  { rewrite Hsplit. apply elem_of_app. right. by left. }
  unfold label_admissions in Hin. apply list_elem_of_fmap in Hin as (l & -> & _).
  simpl in *. rewrite Hnext.
  destruct (next_non_elective _ _) as [n|] eqn:Hn; simpl.
  - destruct (ADMITTIME n) as [t|] eqn:Ht, (DISCHTIME (adm l)) as [d|] eqn:Hd; simpl.
    + pose proof (days_below_30 t d) as Hlt. simpl in Hlt.
      destruct (negb (Qle_bool 30 (Qmake (t - d) 86400))).
      * split; [|split; [by right | done]].
        split; [intros _; exists n, t, d; repeat split; try done; by apply Hlt | done].
      * split; [|split; [by left | done]].
        split; [done|]. intros (n' & t' & d' & [= <-] & Ht' & Hd' & Hc).
        assert (t' = t) as -> by congruence. assert (d' = d) as -> by congruence.
        apply Hlt in Hc. done.
    + split; [|split; [by left | done]].
      split; [done|]. intros (n' & t' & d' & [= <-] & Ht' & Hd' & _). congruence.
    + split; [|split; [by left | done]].
      split; [done|]. intros (n' & t' & d' & [= <-] & Ht' & Hd' & _). congruence.
    + split; [|split; [by left | done]].
      split; [done|]. intros (n' & t' & d' & [= <-] & Ht' & Hd' & _). congruence.
  - split; [|split; [by left | done]].
    split; [done | by intros (? & ? & ? & ? & _)].
Qed.

(** *** The type of the next admission *)

Lemma bfill_next_type df :
  Forall (λ r, NEXT_ADMISSION_TYPE r ≠ Some "ELECTIVE") df →
  Forall (λ r, NEXT_ADMISSION_TYPE r ≠ Some "ELECTIVE") (bfill_next df).
Proof.
  induction df as [|r df IH]; simpl; [done|].
  intros [Hr Hdf]%Forall_cons. specialize (IH Hdf).
  apply Forall_cons. split; [|done]. simpl.
  destruct (NEXT_ADMISSION_TYPE r) as [ty|] eqn:Hty; simpl; [done|].
  destruct (List.find _ (bfill_next df)) as [n|] eqn:Hfind; simpl; [|done].
  apply find_some in Hfind as [Hin _]. apply list_elem_of_In in Hin.
  rewrite Forall_forall in IH. by apply IH.
Qed.

Lemma bfill_prev_type df :
  map NEXT_ADMISSION_TYPE (bfill_prev df) = map NEXT_ADMISSION_TYPE df.
Proof. induction df as [|r df IH]; simpl; [done|]. by rewrite IH. Qed.

(** X12. After the ELECTIVE rule and the fill no row of the table has
    ELECTIVE as the type of its next admission. *)
Theorem next_admission_type_never_elective (df_adm : list Admission) :
  Forall (λ r, NEXT_ADMISSION_TYPE (linked r) ≠ Some "ELECTIVE")
    (label_admissions df_adm)
  ∧ Forall (λ r, NEXT_ADMISSION_TYPE (linked r) ≠ Some "ELECTIVE")
      (final_admissions df_adm).
Proof.
  assert (Hlab : Forall (λ r, NEXT_ADMISSION_TYPE (linked r) ≠ Some "ELECTIVE")
                   (label_admissions df_adm)).
  { unfold label_admissions. apply Forall_fmap. simpl.
    apply (Forall_fmap NEXT_ADMISSION_TYPE (λ ty, ty ≠ Some "ELECTIVE")).
    rewrite bfill_prev_type. apply Forall_fmap.
    rewrite link_admissions_rows. apply bfill_next_type.
    unfold null_elective. apply Forall_fmap, Forall_forall. intros r _. simpl.
    unfold null_elective_row, is_elective.
    destruct (bool_decide_reflect (NEXT_ADMISSION_TYPE r = Some "ELECTIVE")); done. }
  split; [done|]. unfold final_admissions.
  apply Forall_fmap, Forall_forall. intros r Hin. simpl.
  apply list_elem_of_In, filter_In in Hin as [Hin _].
  apply filter_In in Hin as [Hin%list_elem_of_In _].
  rewrite Forall_forall in Hlab. by apply Hlab.
Qed.
End AdmissionTable.

Section AdmissionTableExamples.
Import Labeler.

Lemma prev_dischtime_after_fill_witness :
  ∃ before r later,
    label_admissions Fill.missing_discharge_example = before ++ r :: later
    ∧ HADM_ID (adm (linked r)) = 12%Z
    ∧ PREV_DISCHTIME (linked r) = Some 2300%Z
    ∧ DAYS_PREV_ADMIT r = Some (Qmake (-300) 86400).
Proof.
  eassert (Hrows : label_admissions Fill.missing_discharge_example = [_; _] ++ _ :: _)
    by (vm_compute; reflexivity).
  destruct (prev_dischtime_after_fill Fill.missing_discharge_example _ _ _ Hrows)
    as (_ & _ & _ & Hown & _).
  destruct (Hown 2300%Z) as [Hprev Hdays]; [reflexivity | discriminate | reflexivity |].
  eexists _, _, _. split; [exact Hrows|]. split; [reflexivity|].
  split; [exact Hprev | exact Hdays].
Defined.

Lemma output_label_end_to_end_witness :
  ∃ before r later,
    label_admissions elective_example = before ++ r :: later
    ∧ HADM_ID (adm (linked r)) = 300%Z
    ∧ OUTPUT_LABEL r = 1%Z.
Proof.
  eassert (Hrows : label_admissions elective_example = [] ++ _ :: _)
    by (vm_compute; reflexivity).
  destruct (output_label_end_to_end elective_example _ _ _ Hrows) as (Hone & _ & _).
  eexists _, _, _. split; [exact Hrows|]. split; [reflexivity|].
  apply Hone. eexists _, 1814400%Z, 86400%Z.
  split; [reflexivity|]. split; [reflexivity|]. split; [reflexivity|]. lia.
Defined.
End AdmissionTableExamples.

(** ** The split: class balance, labels, and the draws that can fail *)

Section SplitBalance.
Import Chunker Split.
Variable rng : nat → list nat.
Context {F : Type}.

Lemma length_pick_min {A} (draws : list nat) n (pool : list A) :
  length (pick draws n pool) = n `min` length pool.
Proof.
  revert draws pool. induction n as [|n IH]; intros draws pool; [done|].
  destruct pool as [|a pool']; [done|]. rewrite pick_cons.
  cbn [length]. rewrite IH, length_delete.
  - cbn [length]. lia.
  - apply lookup_lt_is_Some_2, Nat.mod_upper_bound. done.
Qed.

Lemma length_sample_frac {A B} frac (a : list A) (b : list B) :
  length a = length b →
  length (sample_frac rng frac a) = length (sample_frac rng frac b).
Proof. intros Hlen. unfold sample_frac. by rewrite !length_pick_min, Hlen. Qed.

Lemma length_drop_labels (s s' : Series) :
  NoDup (index s) → s' ⊆+ s →
  length (drop_labels (index s') s) = length s - length s'.
Proof.
  intros Hnd Hsub.
  pose proof (Permutation_length (drop_labels_partition s s' Hnd Hsub)) as Hlen.
  rewrite length_app in Hlen. lia.
Qed.

Lemma zip_replicate {A B} (l : list A) (c : B) :
  zip l (replicate (length l) c) = map (λ x, (x, c)) l.
Proof. induction l as [|x l IH]; simpl; [done|]. by rewrite IH. Qed.

Lemma id_label_app (t f : Series) :
  id_label (t ++ f) t f
  = map (λ x, (x, 1%Z)) (values t) ++ map (λ x, (x, 0%Z)) (values f).
Proof.
  unfold id_label. rewrite values_app.
  rewrite zip_with_app by (unfold values; by rewrite length_map, length_replicate).
  rewrite <- (zip_replicate (values t)), <- (zip_replicate (values f)).
  unfold values. by rewrite !length_map.
Qed.

Lemma elem_of_ids_with_label label (df_adm : list Labeler.Row) iv :
  iv ∈ ids_with_label label df_adm →
  ∃ r, r ∈ df_adm ∧ row_id r = iv.2 ∧ Labeler.OUTPUT_LABEL r = label.
Proof.
  unfold ids_with_label. intros (ir & Hin & Hsome)%list_elem_of_omap.
  apply elem_of_lookup_imap in Hin as (i & r & -> & Hr). simpl in Hsome.
  destruct (Z.eqb_spec (Labeler.OUTPUT_LABEL r) label) as [Heq|]; [|done].
  injection Hsome as <-. exists r. split; [by eapply list_elem_of_lookup_2 | done].
Qed.

Lemma drop_labels_submseteq labels (s : Series) : drop_labels labels s ⊆+ s.
Proof.
  unfold drop_labels. induction s as [|iv s IH]; simpl; [done|].
  destruct (negb _); [by apply submseteq_skip | by apply submseteq_cons].
Qed.

(** The parts of a split as the statements compute them. *)
Lemma split_ids_parts (df_adm : list Labeler.Row) (s : IdSplit) :
  split_ids rng df_adm = Some s →
  ∃ u,
    sample_n rng (length (ids_with_label 1 df_adm)) (ids_with_label 0 df_adm) = Some u
    ∧ id_train_t s
      = drop_labels (index (sample_frac rng (2 # 10) (ids_with_label 1 df_adm)))
          (ids_with_label 1 df_adm)
    ∧ id_train_f s = drop_labels (index (sample_frac rng (2 # 10) u)) u
    ∧ id_val_t s
      = sample_frac rng (5 # 10) (sample_frac rng (2 # 10) (ids_with_label 1 df_adm))
    ∧ id_val_f s = sample_frac rng (5 # 10) (sample_frac rng (2 # 10) u)
    ∧ id_test_t s
      = drop_labels (index (id_val_t s)) (sample_frac rng (2 # 10) (ids_with_label 1 df_adm))
    ∧ id_test_f s = drop_labels (index (id_val_f s)) (sample_frac rng (2 # 10) u)
    ∧ train_id_label s
      = id_label (id_train_t s ++ id_train_f s) (id_train_t s) (id_train_f s)
    ∧ val_id_label s = id_label (id_val_t s ++ id_val_f s) (id_val_t s) (id_val_f s)
    ∧ test_id_label s
      = id_label (id_test_t s ++ id_test_f s) (id_test_t s) (id_test_f s).
Proof.
  unfold split_ids.
  destruct (sample_n rng _ (ids_with_label 0 df_adm)) as [u|]; [|done].
  cbv beta iota zeta delta [mbind option_bind]. intros Hs.
  apply (inj Some) in Hs. subst s. exists u. split; [done|].
  repeat split; reflexivity.
Qed.

(** The parts of a split, each inside the class it is drawn from. *)
Lemma split_ids_classes (df_adm : list Labeler.Row) (s : IdSplit) :
  split_ids rng df_adm = Some s →
  id_train_t s ⊆+ ids_with_label 1 df_adm
  ∧ id_val_t s ⊆+ ids_with_label 1 df_adm
  ∧ id_test_t s ⊆+ ids_with_label 1 df_adm
  ∧ id_train_f s ⊆+ ids_with_label 0 df_adm
  ∧ id_val_f s ⊆+ ids_with_label 0 df_adm
  ∧ id_test_f s ⊆+ ids_with_label 0 df_adm.
Proof.
  intros (u & Hu & -> & -> & Hvt & Hvf & -> & -> & _)%split_ids_parts.
  rewrite Hvt, Hvf.
  apply sample_n_Some in Hu as [Hsub _].
  repeat split.
  - apply drop_labels_submseteq.
  - etrans; apply sample_frac_submseteq.
  - etrans; [apply drop_labels_submseteq | apply sample_frac_submseteq].
  - etrans; [apply drop_labels_submseteq | done].
  - etrans; [apply sample_frac_submseteq|]. etrans; [apply sample_frac_submseteq | done].
  - etrans; [apply drop_labels_submseteq|]. etrans; [apply sample_frac_submseteq | done].
Qed.

(** X13. Each of the three sets is balanced: it has as many readmitted
    admissions as admissions that are not, and its label table lists the
    readmitted ones with label 1 followed by the others with label 0. *)
Theorem split_class_balance (df_adm : list Labeler.Row) (s : IdSplit) :
  split_ids rng df_adm = Some s →
  length (id_train_t s) = length (id_train_f s)
  ∧ length (id_val_t s) = length (id_val_f s)
  ∧ length (id_test_t s) = length (id_test_f s)
  ∧ train_id_label s
    = map (λ x, (x, 1%Z)) (values (id_train_t s))
      ++ map (λ x, (x, 0%Z)) (values (id_train_f s))
  ∧ val_id_label s
    = map (λ x, (x, 1%Z)) (values (id_val_t s))
      ++ map (λ x, (x, 0%Z)) (values (id_val_f s))
  ∧ test_id_label s
    = map (λ x, (x, 1%Z)) (values (id_test_t s))
      ++ map (λ x, (x, 0%Z)) (values (id_test_f s)).
Proof.
  intros (u & Hu & Htt & Htf & Hvt & Hvf & Hxt & Hxf & -> & -> & ->)%split_ids_parts.
  rewrite !id_label_app. rewrite Hxt, Hxf, Hvt, Hvf, Htt, Htf.
  apply sample_n_Some in Hu as [Hsub Hlen].
  pose proof (ids_NoDup_index df_adm) as Hix.
  unfold index in Hix. rewrite map_app in Hix.
  apply NoDup_app in Hix as (HixR & _ & HixN).
  assert (HixU : NoDup (index u)).
  { eapply submseteq_NoDup; [apply fmap_submseteq, Hsub | done]. }
  set (R := ids_with_label 1 df_adm) in *.
  set (vt_t := sample_frac rng (2 # 10) R).
  set (vt_f := sample_frac rng (2 # 10) u).
  assert (Hvt_t : vt_t ⊆+ R) by apply sample_frac_submseteq.
  assert (Hvt_f : vt_f ⊆+ u) by apply sample_frac_submseteq.
  assert (Hix_t : NoDup (index vt_t)).
  { eapply submseteq_NoDup; [apply fmap_submseteq, Hvt_t | done]. }
  assert (Hix_f : NoDup (index vt_f)).
  { eapply submseteq_NoDup; [apply fmap_submseteq, Hvt_f | done]. }
  assert (Hlvt : length vt_t = length vt_f) by (by apply length_sample_frac).
  assert (Hlv : length (sample_frac rng (5 # 10) vt_t)
                = length (sample_frac rng (5 # 10) vt_f))
    by (by apply length_sample_frac).
  rewrite !length_drop_labels; try done; try apply sample_frac_submseteq.
  repeat split; lia.
Qed.

(** X14. The label written beside an admission id in the three label
    tables is the label of that admission in the admission table. *)
Theorem split_labels_agree (df_adm : list Labeler.Row) (s : IdSplit) (id label : Z) :
  split_ids rng df_adm = Some s →
  (id, label) ∈ train_id_label s ++ val_id_label s ++ test_id_label s →
  ∃ r, r ∈ df_adm ∧ row_id r = id ∧ Labeler.OUTPUT_LABEL r = label.
Proof.
  intros Hs Hin.
  destruct (split_ids_classes df_adm s Hs) as (Ht1 & Hv1 & Hx1 & Ht0 & Hv0 & Hx0).
  destruct (split_ids_parts df_adm s Hs) as (_ & _ & _ & _ & _ & _ & _ & _ & Htl & Hvl & Hxl).
  rewrite Htl, Hvl, Hxl, !id_label_app in Hin.
  assert (Hclass : ∀ (part : Series) l,
            part ⊆+ ids_with_label l df_adm →
            (id, label) ∈ map (λ x, (x, l)) (values part) →
            ∃ r, r ∈ df_adm ∧ row_id r = id ∧ Labeler.OUTPUT_LABEL r = label).
  { intros part l Hsub (x & [= -> ->] & (iv & -> & Hiv)%list_elem_of_fmap)%list_elem_of_fmap.
    apply (elem_of_ids_with_label l df_adm iv).
    by apply (elem_of_submseteq _ _ _ Hiv). }
  rewrite !elem_of_app in Hin.
  destruct Hin as [[?|?]|[[?|?]|[?|?]]]; eauto.
Qed.

Lemma sample_n_Some_iff {A} n (obj : list A) :
  is_Some (sample_n rng n obj) ↔ n ≤ length obj.
Proof.
  unfold sample_n. destruct (Nat.leb_spec n (length obj)) as [Hle|Hgt].
  - split; [done | eauto].
  - split; [by intros [? ?] | lia].
Qed.

(** X15. The draws that can fail. The split raises unless the admissions
    that are not readmitted are at least as many as the readmitted ones.
    With unique admission ids, the reserve has as many admissions as the
    difference of the two classes; the training set of the discharge
    summaries needs 400 of them and that of the early notes 500, and each
    raises when the reserve has fewer. *)
Theorem split_needs_reserve (df_adm : list Labeler.Row)
    (df_discharge df_less_3 df_less_2 : list (ChunkRow F)) :
  NoDup (map row_id df_adm) →
  (is_Some (split_ids rng df_adm)
   ↔ length (ids_with_label 1 df_adm) ≤ length (ids_with_label 0 df_adm))
  ∧ ∀ s, split_ids rng df_adm = Some s →
      length (df s) = length (ids_with_label 0 df_adm) - length (ids_with_label 1 df_adm)
      ∧ (is_Some (discharge_split rng s df_discharge)
         ↔ length (ids_with_label 1 df_adm) + 400 ≤ length (ids_with_label 0 df_adm))
      ∧ (is_Some (early_split rng s df_adm df_less_3 df_less_2)
         ↔ length (ids_with_label 1 df_adm) + 500 ≤ length (ids_with_label 0 df_adm)).
Proof.
  intros Hnd. split.
  - split; [|apply split_ids_is_Some].
    intros [s (u & Hu & _)%split_ids_parts].
    apply sample_n_Some_iff. by rewrite Hu.
  - intros s Hs.
    destruct (split_ids_partition rng df_adm s Hnd Hs)
      as (HR & HN & Hlen & _ & _ & Hres & _).
    apply Permutation_length in Hres. rewrite length_app, Hlen, HR, HN in Hres.
    assert (Hdf : length (df s)
                  = length (ids_with_label 0 df_adm) - length (ids_with_label 1 df_adm))
      by lia.
    split; [done|]. split.
    + unfold discharge_split.
      pose proof (sample_n_Some_iff 400 (df s)) as Hiff.
      destruct (sample_n rng 400 (df s)) as [m|]; simpl.
      * destruct Hiff as [Hiff _]. specialize (Hiff (mk_is_Some _ _ eq_refl)).
        split; [lia | eauto].
      * destruct Hiff as [_ Hiff]. split; [by intros [? ?] | intros Hle].
        destruct Hiff as [? ?]; [lia | done].
    + unfold early_split.
      pose proof (sample_n_Some_iff 500 (df s)) as Hiff.
      destruct (sample_n rng 500 (df s)) as [m|]; simpl.
      * destruct Hiff as [Hiff _]. specialize (Hiff (mk_is_Some _ _ eq_refl)).
        split; [lia | eauto].
      * destruct Hiff as [_ Hiff]. split; [by intros [? ?] | intros Hle].
        destruct Hiff as [? ?]; [lia | done].
Qed.
End SplitBalance.

Lemma clinic_ids_NoDup : NoDup (map Split.row_id Clinic.clinic_adm).
Proof. apply (bool_decide_unpack _). vm_compute. exact I. Defined.

Lemma split_class_balance_witness :
  ∃ s, Split.split_ids Split.zero_rng Clinic.clinic_adm = Some s
    ∧ length (Split.id_val_t s) = length (Split.id_val_f s).
Proof.
  eassert (Hs : Split.split_ids Split.zero_rng Clinic.clinic_adm = Some _)
    by (vm_compute; reflexivity).
  match type of Hs with _ = Some ?s =>
    exists s; split; [exact Hs|];
    exact (proj1 (proj2 (split_class_balance Split.zero_rng Clinic.clinic_adm s Hs)))
  end.
Defined.

Lemma split_labels_agree_witness :
  ∃ s r, Split.split_ids Split.zero_rng Clinic.clinic_adm = Some s
    ∧ r ∈ Clinic.clinic_adm ∧ Split.row_id r = 1001%Z
    ∧ Labeler.OUTPUT_LABEL r = 1%Z.
Proof.
  eassert (Hs : Split.split_ids Split.zero_rng Clinic.clinic_adm = Some _)
    by (vm_compute; reflexivity).
  match type of Hs with _ = Some ?s =>
    destruct (split_labels_agree Split.zero_rng Clinic.clinic_adm s 1001%Z 1%Z Hs)
      as (r & Hr);
    [ apply elem_of_app; right; apply elem_of_app; left;
      apply hd_error_elem_of; vm_compute; reflexivity
    | exists s, r; split; [exact Hs | exact Hr] ]
  end.
Defined.

Lemma split_needs_reserve_witness :
  is_Some (Split.split_ids Split.zero_rng Clinic.clinic_adm).
Proof.
  apply (proj1 (split_needs_reserve Split.zero_rng (F:=unit) Clinic.clinic_adm
                  [] [] [] clinic_ids_NoDup)).
  apply Nat.leb_le. vm_compute. reflexivity.
Defined.

(** ** The validation file of the early notes, for every generator *)

Section EarlyValidation.
Import Chunker Split.
Variable rng : nat → list nat.
Context {F : Type}.

Lemma length_sample_frac_round {A} frac (obj : list A) :
  length (sample_frac rng frac obj)
  = Z.to_nat (py_round (frac * inject_Z (Z.of_nat (length obj)))) `min` length obj.
Proof. unfold sample_frac. apply length_pick_min. Qed.

(** With a reserve of 500 the early-notes files are written, and the
    validation file holds the rows of the validation admissions. *)
Lemma early_val_rows (df_adm : list Labeler.Row) (s : IdSplit)
    (df_less_3 df_less_2 : list (ChunkRow F)) :
  NoDup (map row_id df_adm) →
  split_ids rng df_adm = Some s →
  length (ids_with_label 1 df_adm) + 500 ≤ length (ids_with_label 0 df_adm) →
  ∃ e, early_split rng s df_adm df_less_3 df_less_2 = Some e
    ∧ early_val e = rows_in (values (id_val_t s ++ id_val_f s)) df_less_3.
Proof.
  intros Hnd Hs Hsize.
  destruct (split_ids_partition rng df_adm s Hnd Hs)
    as (HR & HN & Hlen & _ & _ & Hres & _ & Hva & _ & _ & Hlva & _).
  apply Permutation_length in Hres. rewrite length_app, Hlen, HR, HN in Hres.
  destruct (sample_n_is_Some rng 500 (df s)) as [more Hmore]; [lia|].
  eexists. unfold early_split. rewrite Hmore. split; [reflexivity|].
  cbn [early_val]. by rewrite Hlva, Hva.
Qed.

(** A validation admission with a row in the 3-day table has that row in
    the validation file. *)
Lemma early_val_member (df_adm : list Labeler.Row) (s : IdSplit)
    (df_less_3 : list (ChunkRow F)) (iv : nat * Z) :
  split_ids rng df_adm = Some s →
  iv ∈ id_val_t s →
  iv.2 ∈ map c_HADM_ID df_less_3 →
  ∃ row a, row ∈ rows_in (values (id_val_t s ++ id_val_f s)) df_less_3
    ∧ a ∈ df_adm ∧ row_id a = c_HADM_ID row.
Proof.
  intros Hs Hiv (row & Hid & Hrow)%list_elem_of_fmap.
  destruct (split_ids_classes rng df_adm s Hs) as (_ & Hval & _).
  destruct (elem_of_ids_with_label 1 df_adm iv) as (a & Ha & Hida & _).
  { by apply (elem_of_submseteq _ _ _ Hiv). }
  exists row, a. split; [|split; [done | congruence]].
  apply elem_of_rows_in. split; [done|]. rewrite <- Hid, values_app.
  apply elem_of_app. left. apply list_elem_of_fmap. eauto.
Qed.
Lemma val_id_has_rows (df_adm : list Labeler.Row) (s : IdSplit)
    (chunks : list (ChunkRow F)) :
  split_ids rng df_adm = Some s →
  length (id_val_t s) = 1 →
  map c_HADM_ID chunks = map row_id df_adm →
  ∃ iv, iv ∈ id_val_t s ∧ iv.2 ∈ map c_HADM_ID chunks.
Proof.
  intros Hs Hlen Hrows.
  assert (Hex : ∃ iv, iv ∈ id_val_t s).
  { destruct (id_val_t s) as [|iv rest]; [discriminate Hlen|].
    exists iv. apply elem_of_cons. left. reflexivity. }
  destruct Hex as [iv Hiv]. exists iv. split; [exact Hiv|].
  destruct (split_ids_classes rng df_adm s Hs) as (_ & Hsub & _).
  destruct (elem_of_ids_with_label 1 df_adm iv) as (a0 & Ha0 & Hid0 & _).
  { eapply elem_of_submseteq; [exact Hiv | exact Hsub]. }
  rewrite Hrows, <- Hid0. apply list_elem_of_fmap.
  exists a0. split; [reflexivity | exact Ha0].
Qed.
End EarlyValidation.

Section ShortStaysProofs.
Import Chunker Split ShortStays.

Lemma short_ids_NoDup : NoDup (map row_id short_adm).
Proof. apply (bool_decide_unpack _). vm_compute. exact I. Qed.

Lemma short_classes :
  length (ids_with_label 1 short_adm) = 8
  ∧ length (ids_with_label 0 short_adm) = 508.
Proof. split; vm_compute; reflexivity. Qed.

Lemma short_rows : map c_HADM_ID short_chunks = map row_id short_adm.
Proof. vm_compute. reflexivity. Qed.

Lemma below_3_days_spec a :
  below_3_days a = true → ∃ d, Labeler.DURATION a = Some d ∧ ¬ (3 <= d)%Q.
Proof.
  unfold below_3_days. destruct (Labeler.DURATION a) as [d|]; [|done].
  intros Hd%negb_true_iff. exists d. split; [done|].
  intros Hle%Qle_bool_iff. congruence.
Qed.

Lemma short_stays_all :
  Forall (λ a, ∃ d, Labeler.DURATION a = Some d ∧ ¬ (3 <= d)%Q) short_adm.
Proof.
  assert (Hall : forallb below_3_days short_adm = true) by (vm_compute; reflexivity).
  rewrite forallb_forall in Hall. apply Forall_forall. intros a Ha.
  apply below_3_days_spec, Hall. exact (proj1 (list_elem_of_In short_adm a) Ha).
Qed.

Lemma short_split (rng : nat → list nat) :
  ∃ s, split_ids rng short_adm = Some s.
Proof.
  apply split_ids_is_Some. destruct short_classes as [H1 H0].
  rewrite H1, H0. apply Nat.leb_le. reflexivity.
Qed.

Lemma short_reserve :
  length (ids_with_label 1 short_adm) + 500 ≤ length (ids_with_label 0 short_adm).
Proof.
  destruct short_classes as [H1 H0]. rewrite H1, H0. apply Nat.leb_le. reflexivity.
Qed.

Lemma short_val_length (rng : nat → list nat) (s : IdSplit) :
  split_ids rng short_adm = Some s → length (id_val_t s) = 1.
Proof.
  intros (_ & _ & _ & _ & Hvt & _)%split_ids_parts.
  destruct short_classes as [H1 _].
  rewrite Hvt, !length_sample_frac_round, H1. vm_compute. reflexivity.
Qed.

Lemma short_val_member (rng : nat → list nat) (s : IdSplit) :
  split_ids rng short_adm = Some s →
  ∃ iv, iv ∈ id_val_t s ∧ iv.2 ∈ map c_HADM_ID short_chunks.
Proof.
  intros Hs.
  exact (val_id_has_rows rng short_adm s short_chunks Hs
           (short_val_length rng s Hs) short_rows).
Qed.

(** C8 as stated fails on the validation set, whatever the draws of the
    generator: in a hospital where every stay lasts one day the split and
    the early-notes files are made, and the 3-day validation file holds a
    row of an admission that lasted less than 3 days. *)
Lemma early_val_keeps_short_stays :
  Forall (λ a, ∃ d, Labeler.DURATION a = Some d ∧ ¬ (3 <= d)%Q) short_adm
  ∧ ∀ rng : nat → list nat,
      ∃ s e row a,
        split_ids rng short_adm = Some s
        ∧ early_split rng s short_adm short_chunks short_chunks = Some e
        ∧ row ∈ early_val e
        ∧ a ∈ short_adm
        ∧ row_id a = c_HADM_ID row
        ∧ ∃ d, Labeler.DURATION a = Some d ∧ ¬ (3 <= d)%Q.
Proof.
  split; [exact short_stays_all|]. intros rng.
  destruct (short_split rng) as [s Hs].
  destruct (early_val_rows rng short_adm s short_chunks short_chunks
              short_ids_NoDup Hs short_reserve) as (e & He & Hval).
  destruct (short_val_member rng s Hs) as (iv & Hiv & Hchunk).
  destruct (early_val_member rng short_adm s short_chunks iv Hs Hiv Hchunk)
    as (row & a & Hrow & Ha & Hid).
  exists s, e, row, a. split; [exact Hs|]. split; [exact He|].
  split; [rewrite Hval; exact Hrow|]. split; [exact Ha|]. split; [exact Hid|].
  pose proof short_stays_all as Hall. rewrite Forall_forall in Hall.
  apply Hall. exact Ha.
Qed.
End ShortStaysProofs.

(** ** The early-notes files share no admission *)

Section EarlyLeak.
Import Chunker Split.
Variable rng : nat → list nat.
Context {F : Type}.

(** The six parts of the split and the reserve have no admission in
    common. *)
Lemma split_parts_NoDup (df_adm : list Labeler.Row) (s : IdSplit) :
  NoDup (map row_id df_adm) →
  split_ids rng df_adm = Some s →
  NoDup (concat [values (id_val_t s); values (id_test_t s); values (id_train_t s);
                 values (id_val_f s); values (id_test_f s); values (id_train_f s);
                 values (df s)]).
Proof.
  intros Hnd Hs.
  destruct (split_ids_partition rng df_adm s Hnd Hs)
    as (HR & HN & _ & HpR & HpU & HpN & _).
  assert (HvR : values (readmit_ID s)
                ≡ₚ values (id_val_t s) ++ values (id_test_t s) ++ values (id_train_t s)).
  { rewrite <- !values_app. by apply Permutation_map. }
  assert (HvU : values (not_readmit_ID_use s)
                ≡ₚ values (id_val_f s) ++ values (id_test_f s) ++ values (id_train_f s)).
  { rewrite <- !values_app. by apply Permutation_map. }
  assert (HvN : values (not_readmit_ID s)
                ≡ₚ values (not_readmit_ID_use s) ++ values (df s)).
  { rewrite <- !values_app. by apply Permutation_map. }
  pose proof (ids_NoDup_values df_adm Hnd) as Hv.
  rewrite <- HR, <- HN, values_app, HvN, HvR, HvU in Hv.
  simpl. rewrite app_nil_r. by rewrite <- !app_assoc in Hv.
Qed.

(** X24. With unique admission ids, no admission has rows both in the
    training file of the early notes and in one of the validation and test
    files: a training row belongs to a train admission or to one of the
    reserve, a validation row to a validation admission, a row of either
    test file to a test admission, and these sets are disjoint. *)
Theorem early_files_share_no_admission (df_adm : list Labeler.Row) (s : IdSplit)
    (df_less_3 df_less_2 : list (ChunkRow F)) (e : EarlySplit)
    (train_row other_row : ChunkRow F) :
  NoDup (map row_id df_adm) →
  split_ids rng df_adm = Some s →
  early_split rng s df_adm df_less_3 df_less_2 = Some e →
  train_row ∈ early_train_snippets e →
  other_row ∈ early_val e ++ early_test e ++ early_test_2days e →
  c_HADM_ID train_row ≠ c_HADM_ID other_row.
Proof.
  intros Hnd Hs He Htrain Hother.
  pose proof (split_parts_NoDup df_adm s Hnd Hs) as Hparts.
  set (parts := [values (id_val_t s); values (id_test_t s); values (id_train_t s);
                 values (id_val_f s); values (id_test_f s); values (id_train_f s);
                 values (df s)]) in Hparts.
  assert (Hsep : ∀ i j a b, i ≠ j → parts !! i = Some a → parts !! j = Some b →
                 ∀ x, x ∈ a → x ∉ b).
  { intros i j a b. by apply NoDup_concat_disjoint. }
  destruct (split_ids_partition rng df_adm s Hnd Hs)
    as (_ & _ & _ & _ & _ & _ & Htr & Hva & Hte & Hltr & Hlva & Hlte).
  revert He. unfold early_split.
  destruct (sample_n rng 500 (df s)) as [more|] eqn:Hmore; [|done].
  simpl. intros [= <-]. simpl in Htrain, Hother.
  apply sample_n_Some in Hmore as [Hmsub _].
  assert (Htrain_id : c_HADM_ID train_row ∈ values (id_train_t s)
                      ∨ c_HADM_ID train_row ∈ values (id_train_f s)
                      ∨ c_HADM_ID train_row ∈ values (df s)).
  { rewrite sample_all_perm in Htrain.
    apply elem_of_app in Htrain as [Hrow|Hrow]; apply elem_of_rows_in in Hrow as [_ Hid].
    - right. right. eapply elem_of_submseteq; [done|]. by apply fmap_submseteq.
    - rewrite Hltr, Htr, values_app, elem_of_app in Hid. tauto. }
  assert (Hother_id : c_HADM_ID other_row ∈ values (id_val_t s)
                      ∨ c_HADM_ID other_row ∈ values (id_val_f s)
                      ∨ c_HADM_ID other_row ∈ values (id_test_t s)
                      ∨ c_HADM_ID other_row ∈ values (id_test_f s)).
  { rewrite !elem_of_app in Hother.
    destruct Hother as [Hrow|[Hrow|Hrow]]; apply elem_of_rows_in in Hrow as [_ Hid].
    - rewrite Hlva, Hva, values_app, elem_of_app in Hid. tauto.
    - apply elem_of_actionable_rows in Hid as [Hid _].
      rewrite Hlte, Hte, values_app, elem_of_app in Hid. tauto.
    - apply elem_of_actionable_rows in Hid as [Hid _].
      rewrite Hlte, Hte, values_app, elem_of_app in Hid. tauto. }
  intros Heq. rewrite <- Heq in Hother_id.
  destruct Htrain_id as [Ha|[Ha|Ha]], Hother_id as [Hb|[Hb|[Hb|Hb]]].
  - by apply (Hsep 2 0 _ _ ltac:(done) eq_refl eq_refl _ Ha).
  - by apply (Hsep 2 3 _ _ ltac:(done) eq_refl eq_refl _ Ha).
  - by apply (Hsep 2 1 _ _ ltac:(done) eq_refl eq_refl _ Ha).
  - by apply (Hsep 2 4 _ _ ltac:(done) eq_refl eq_refl _ Ha).
  - by apply (Hsep 5 0 _ _ ltac:(done) eq_refl eq_refl _ Ha).
  - by apply (Hsep 5 3 _ _ ltac:(done) eq_refl eq_refl _ Ha).
  - by apply (Hsep 5 1 _ _ ltac:(done) eq_refl eq_refl _ Ha).
  - by apply (Hsep 5 4 _ _ ltac:(done) eq_refl eq_refl _ Ha).
  - by apply (Hsep 6 0 _ _ ltac:(done) eq_refl eq_refl _ Ha).
  - by apply (Hsep 6 3 _ _ ltac:(done) eq_refl eq_refl _ Ha).
  - by apply (Hsep 6 1 _ _ ltac:(done) eq_refl eq_refl _ Ha).
  - by apply (Hsep 6 4 _ _ ltac:(done) eq_refl eq_refl _ Ha).
Qed.
End EarlyLeak.

Lemma early_files_share_no_admission_witness :
  ∃ s e train_row other_row,
    Split.split_ids Split.zero_rng Split.hospital_adm = Some s
    ∧ Split.early_split Split.zero_rng s Split.hospital_adm
        Split.hospital_chunks Split.hospital_chunks = Some e
    ∧ train_row ∈ Split.early_train_snippets e
    ∧ other_row ∈ Split.early_val e
    ∧ Chunker.c_HADM_ID train_row ≠ Chunker.c_HADM_ID other_row.
Proof.
  eassert (Hs : Split.split_ids Split.zero_rng Split.hospital_adm = Some _)
    by (vm_compute; reflexivity).
  match type of Hs with _ = Some ?s =>
    eassert (He : Split.early_split Split.zero_rng s Split.hospital_adm
                    Split.hospital_chunks Split.hospital_chunks = Some _)
      by (vm_compute; reflexivity)
  end.
  match type of He with _ = Some ?e =>
    eassert (Ht : hd_error (Split.early_train_snippets e) = Some _)
      by (vm_compute; reflexivity);
    eassert (Ho : hd_error (Split.early_val e) = Some _)
      by (vm_compute; reflexivity)
  end.
  apply hd_error_elem_of in Ht. apply hd_error_elem_of in Ho.
  match type of He with Split.early_split _ ?s _ _ _ = Some ?e =>
    match type of Ht with ?t ∈ _ =>
      match type of Ho with ?o ∈ _ =>
        exists s, e, t, o;
        split; [exact Hs|]; split; [exact He|]; split; [exact Ht|]; split; [exact Ho|];
        apply (early_files_share_no_admission Split.zero_rng Split.hospital_adm s
                 Split.hospital_chunks Split.hospital_chunks e t o
                 hospital_ids_NoDup Hs He Ht);
        apply elem_of_app; left; exact Ho
      end
    end
  end.
Defined.

(** ** What the chunker keeps of a text *)

Section ChunkCover.
Import Chunker.

Section Generic.
Context {A : Type} (size keep : nat) (x : list A).
Hypothesis size_pos : 0 < size.
Hypothesis keep_lt : keep < size.

Lemma chunk_tokens_by_cover :
  let chunks := chunk_tokens_by size keep x in
  (∃ tail, x = concat chunks ++ tail ∧ length tail ≤ keep)
  ∧ Forall (λ c, keep < length c ∧ length c ≤ size) chunks
  ∧ (chunks = [] ↔ length x ≤ keep).
Proof.
  intros chunks.
  destruct (chunk_tokens_by_spec size keep x size_pos) as (_ & _ & H3 & H4 & H5 & Hlens).
  fold chunks in H3, H4, Hlens.
  pose proof (Nat.mod_upper_bound (length x) size ltac:(lia)) as Hmod.
  split; [|split].
  - rewrite <- (take_drop (length x / size) chunks), concat_app, H3, H4.
    destruct (Nat.ltb_spec keep (length x mod size)) as [Hlt|Hge].
    + exists []. simpl. rewrite !app_nil_r.
      split; [by rewrite take_drop | lia].
    + exists (drop (size * (length x / size)) x). simpl. rewrite app_nil_r.
      split; [by rewrite take_drop | rewrite H5; lia].
  - assert (Hall : Forall (λ n, keep < n ∧ n ≤ size) (map length chunks)).
    { rewrite Hlens. apply Forall_app. split.
      - apply Forall_replicate. lia.
      - destruct (Nat.ltb_spec keep (length x mod size)); repeat constructor; lia. }
    rewrite Forall_forall in Hall. apply Forall_forall. intros c Hc.
    apply Hall, list_elem_of_fmap. eauto.
  - assert (Hnil : chunks = [] ↔ map length chunks = []).
    { split; [by intros -> | by destruct chunks]. }
    rewrite Hnil, Hlens.
    pose proof (Nat.div_mod_eq (length x) size) as Hdm.
    destruct (Nat.ltb_spec keep (length x mod size)) as [Hlt|Hge].
    + split; [by intros [_ ?]%app_eq_nil | lia].
    + rewrite app_nil_r. split.
      * destruct (length x / size) as [|n] eqn:Hn; [lia | done].
      * intros Hle. rewrite Nat.div_small by lia. done.
Qed.
End Generic.

Context {F : Type}.

Lemma chunk_rows_texts (r : NoteRow F) :
  map (λ row, split (c_TEXT row)) (chunk_rows r)
  = chunk_tokens (split (clean_text (TEXT r))).
Proof.
  unfold chunk_rows. rewrite map_map. simpl.
  assert (Hok : Forall (Forall (λ w, is_token w = true))
                  (chunk_tokens (split (clean_text (TEXT r))))).
  { apply chunk_tokens_tokens. by apply split_from_tokens. }
  induction Hok as [|c cs Hc _ IH]; [done|].
  simpl. by rewrite split_join, IH.
Qed.

Lemma chunk_rows_nil (r : NoteRow F) :
  chunk_rows r = [] ↔ length (split (clean_text (TEXT r))) ≤ 10.
Proof.
  destruct (chunk_tokens_by_cover 318 10 (split (clean_text (TEXT r))))
    as (_ & _ & Hnil); [lia | lia |].
  rewrite <- Hnil. unfold chunk_rows, chunk_tokens.
  split; [apply fmap_nil_inv | by intros ->].
Qed.

Lemma chunk_rows_copy (r : NoteRow F) :
  Forall (λ row, c_HADM_ID row = HADM_ID r ∧ c_Label row = OUTPUT_LABEL r
                 ∧ c_features row = features r) (chunk_rows r).
Proof. unfold chunk_rows. apply Forall_fmap, Forall_forall. by intros toks _. Qed.

(** X16. The characters of a text are the code points below U+0100, with
    the whitespace and lower-case rules of Python's [str] (section 5). Of
    the tokens of an admission's cleaned text at most ten are
    missing from its chunk rows, and only from the end: the texts of the
    rows, split again and put end to end, are a prefix of the tokens. Every
    row has more than 10 and at most 318 tokens and carries the id, the
    label and the structured columns of the admission. An admission has no
    row exactly when its text has at most ten tokens. *)
Theorem chunk_rows_cover (r : NoteRow F) :
  let x := split (clean_text (TEXT r)) in
  let texts := map (λ row, split (c_TEXT row)) (chunk_rows r) in
  (∃ tail, x = concat texts ++ tail ∧ length tail ≤ 10)
  ∧ Forall (λ c, 10 < length c ∧ length c ≤ 318) texts
  ∧ (chunk_rows r = [] ↔ length x ≤ 10)
  ∧ Forall (λ row, c_HADM_ID row = HADM_ID r ∧ c_Label row = OUTPUT_LABEL r
                   ∧ c_features row = features r) (chunk_rows r).
Proof.
  intros x texts. unfold texts. rewrite chunk_rows_texts. fold x.
  destruct (chunk_tokens_by_cover 318 10 x) as (Hcover & Hsize & _); [lia | lia |].
  split; [done|]. split; [done|].
  split; [apply chunk_rows_nil | apply chunk_rows_copy].
Qed.

(** X17. The admissions of the chunk table are the admissions of the note
    table whose cleaned text has more than ten tokens (characters and
    whitespace as in X16). *)
Theorem preprocessing_admissions (df_less_n : list (NoteRow F)) (id : Z) :
  id ∈ map c_HADM_ID (preprocessing df_less_n)
  ↔ ∃ r, r ∈ df_less_n ∧ HADM_ID r = id
         ∧ 10 < length (split (clean_text (TEXT r))).
Proof.
  unfold preprocessing. rewrite list_elem_of_fmap. split.
  - intros (row & -> & Hrow). apply list_elem_of_In, in_flat_map in Hrow as (r & Hr & Hin).
    apply list_elem_of_In in Hr. apply list_elem_of_In in Hin.
    pose proof (chunk_rows_nil r) as Hnil. pose proof (chunk_rows_copy r) as Hcopy.
    rewrite Forall_forall in Hcopy. destruct (Hcopy row Hin) as (Hid & _).
    exists r. split; [done|]. split; [done|].
    apply Nat.lt_nge. intros Hle. apply Hnil in Hle. rewrite Hle in Hin.
    by apply elem_of_nil in Hin.
  - intros (r & Hr & <- & Hlen).
    pose proof (chunk_rows_nil r) as Hnil. pose proof (chunk_rows_copy r) as Hcopy.
    destruct (chunk_rows r) as [|row rows] eqn:Hrows.
    + assert (length (split (clean_text (TEXT r))) ≤ 10) by (by apply Hnil). lia.
    + apply Forall_cons in Hcopy as [(Hid & _) _]. exists row. split; [done|].
      apply list_elem_of_In, in_flat_map. exists r.
      split; [by apply list_elem_of_In|]. rewrite Hrows. by left.
Qed.

End ChunkCover.

Section ChunkCoverExample.
Import Chunker.

Lemma chunk_rows_cover_witness :
  length (split (clean_text (TEXT TextClass.no_break_space_row))) = 11
  ∧ map c_TEXT (chunk_rows TextClass.no_break_space_row)
    = ["a b c d e f g h i j k"]
  ∧ (chunk_rows TextClass.no_break_space_row = []
     ↔ length (split (clean_text (TEXT TextClass.no_break_space_row))) ≤ 10).
Proof.
  split; [vm_compute; reflexivity|]. split; [vm_compute; reflexivity|].
  exact (proj1 (proj2 (proj2 (chunk_rows_cover TextClass.no_break_space_row)))).
Defined.

Lemma preprocessing_admissions_witness :
  map c_HADM_ID (preprocessing [TextClass.no_break_space_row]) = [700%Z]
  ∧ (700%Z ∈ map c_HADM_ID (preprocessing [TextClass.no_break_space_row])
     ↔ ∃ r, r ∈ [TextClass.no_break_space_row] ∧ HADM_ID r = 700%Z
            ∧ 10 < length (split (clean_text (TEXT r)))).
Proof.
  split; [vm_compute; reflexivity|].
  exact (preprocessing_admissions [TextClass.no_break_space_row] 700%Z).
Defined.
End ChunkCoverExample.

(** ** The characters of a cleaned text *)

Section CleanText.
Import Chunker TextClass.

Lemma all_chars_append P (s w : string) :
  all_chars P (s +:+ w) = all_chars P s && all_chars P w.
Proof.
  induction s as [|c s IH]; [done|]. rewrite append_cons. simpl.
  by rewrite IH, andb_assoc.
Qed.

Lemma all_chars_snoc P (s : string) c :
  all_chars P (snoc s c) = all_chars P s && P c.
Proof. unfold snoc. rewrite all_chars_append. simpl. by rewrite andb_true_r. Qed.

Lemma all_chars_replace_char (P Q : ascii → bool) old s :
  P " "%char = true → (∀ c, c ≠ old → Q c = true → P c = true) →
  all_chars Q s = true → all_chars P (replace_char old s) = true.
Proof.
  intros Hsp Hpq. induction s as [|c s IH]; simpl; [done|].
  intros [Hc Hs]%andb_prop. rewrite IH by done.
  destruct (decide (c = old)); [by rewrite Hsp | by rewrite Hpq].
Qed.

Lemma all_chars_lstrip P s : all_chars P s = true → all_chars P (lstrip s) = true.
Proof.
  induction s as [|c s IH]; simpl; [done|]. intros [Hc Hs]%andb_prop.
  destruct (is_space c); [by apply IH|]. simpl. by rewrite Hc, Hs.
Qed.

Lemma all_chars_rstrip P s : all_chars P s = true → all_chars P (rstrip s) = true.
Proof.
  induction s as [|c s IH]; simpl; [done|]. intros [Hc Hs]%andb_prop.
  destruct (is_empty (rstrip s) && is_space c); [done|]. simpl.
  by rewrite Hc, IH.
Qed.

Lemma lower_char_clean c :
  negb (is_line_break c) = true → is_clean (lower_char c) = true.
Proof. destruct c as [[] [] [] [] [] [] [] []]; vm_compute; done. Qed.

Lemma all_chars_lower s :
  all_chars (λ c, negb (is_line_break c)) s = true →
  all_chars is_clean (lower s) = true.
Proof.
  induction s as [|c s IH]; simpl; [done|]. intros [Hc Hs]%andb_prop.
  by rewrite lower_char_clean, IH.
Qed.

Lemma all_chars_sub_brackets P x :
  ∀ pending, all_chars P (default EmptyString pending) = true →
    all_chars P x = true →
    P "["%char = true →
    all_chars P (sub_brackets pending x) = true.
Proof.
  induction x as [|c x IH]; intros pending Hp Hx Hopen; simpl; [done|].
  simpl in Hx. apply andb_prop in Hx as [Hc Hx].
  destruct pending as [p|]; simpl in Hp.
  - destruct (decide (c = "]"%char)); [by apply IH|].
    destruct (decide (c = "010"%char)).
    + rewrite all_chars_append, all_chars_snoc, Hp, Hc. simpl. by apply IH.
    + apply IH; [|done|done]. simpl. by rewrite all_chars_snoc, Hp, Hc.
  - destruct (decide (c = "["%char)).
    + apply IH; [|done|done]. simpl. by rewrite Hopen.
    + simpl. rewrite Hc. by apply IH.
Qed.

Lemma all_chars_sub_numbers P y :
  ∀ digits, all_chars P digits = true → all_chars P y = true →
    all_chars P (sub_numbers digits y) = true.
Proof.
  induction y as [|c y IH]; intros digits Hd Hy; simpl; [done|].
  simpl in Hy. apply andb_prop in Hy as [Hc Hy].
  destruct (is_digit c).
  - apply IH; [|done]. by rewrite all_chars_snoc, Hd, Hc.
  - destruct (bool_decide (c = "."%char) && negb (is_empty digits)).
    + by apply IH.
    + rewrite all_chars_append, Hd. simpl. rewrite Hc. by apply IH.
Qed.

Lemma all_chars_sub_literals P pats rep y :
  all_chars P rep = true →
  ∀ skip, all_chars P y = true → all_chars P (sub_literals pats rep skip y) = true.
Proof.
  intros Hrep. induction y as [|c y IH]; intros skip Hy; [done|].
  cbn [sub_literals]. simpl in Hy. apply andb_prop in Hy as [Hc Hy].
  destruct skip as [|k]; [|by apply IH].
  destruct (List.find _ pats) as [p|].
  - rewrite all_chars_append, Hrep. by apply IH.
  - simpl. rewrite Hc. by apply IH.
Qed.

Lemma all_chars_preprocess1 x :
  all_chars is_clean x = true → all_chars is_clean (preprocess1 x) = true.
Proof.
  intros Hx. unfold preprocess1.
  repeat (apply all_chars_sub_literals; [done|]).
  apply all_chars_sub_numbers; [done|].
  by apply all_chars_sub_brackets.
Qed.

(** X18. A cleaned text has no upper-case letter, no line feed and no
    carriage return, whatever the text of the note, and so has every chunk
    text made of its tokens. *)
Theorem clean_text_lower_single_line (TEXT : option string) :
  all_chars is_clean (clean_text TEXT) = true
  ∧ Forall (λ w, all_chars is_clean w = true) (split (clean_text TEXT)).
Proof.
  assert (Hclean : all_chars is_clean (clean_text TEXT) = true).
  { unfold clean_text. apply all_chars_preprocess1, all_chars_lower.
    unfold strip. apply all_chars_rstrip, all_chars_lstrip.
    apply (all_chars_replace_char _ (λ c, negb (code c =? 10))); [done| |].
    - intros c Hne Hc. unfold is_line_break. rewrite negb_orb, Hc. simpl.
      apply negb_true_iff, Nat.eqb_neq. intros Heq. apply Hne.
      rewrite <- (ascii_nat_embedding c). unfold code in Heq. by rewrite Heq.
    - apply (all_chars_replace_char _ (λ _, true)); [done| |].
      + intros c Hne _. apply negb_true_iff, Nat.eqb_neq. intros Heq. apply Hne.
        rewrite <- (ascii_nat_embedding c). unfold code in Heq. by rewrite Heq.
      + by induction (default " " TEXT). }
  split; [done|]. revert Hclean. generalize (clean_text TEXT). intros s.
  unfold split.
  assert (Hgen : ∀ tok, all_chars is_clean tok = true → all_chars is_clean s = true →
                   Forall (λ w, all_chars is_clean w = true) (split_from tok s)).
  { induction s as [|c s IH]; intros tok Htok Hs; simpl.
    - destruct (is_empty tok); [constructor | by repeat constructor].
    - simpl in Hs. apply andb_prop in Hs as [Hc Hs].
      destruct (is_space c).
      + destruct (is_empty tok); [by apply IH|]. constructor; [done | by apply IH].
      + apply IH; [|done]. by rewrite all_chars_snoc, Htok, Hc. }
  by apply Hgen.
Qed.
End CleanText.

(** ** The note tables *)

Section SortBy.
Import Notes.
Context {R : Type} (le : R → R → bool).

Lemma insert_by_perm r l : insert_by le r l ≡ₚ r :: l.
Proof.
  induction l as [|y l IH]; simpl; [done|].
  destruct (le r y); [done|]. rewrite IH. apply Permutation_swap.
Qed.

Lemma sort_by_perm l : sort_by le l ≡ₚ l.
Proof.
  induction l as [|r l IH]; simpl; [done|].
  by rewrite insert_by_perm, IH.
Qed.

Hypothesis le_total : ∀ a b, le a b = true ∨ le b a = true.
Hypothesis le_trans : ∀ a b c, le a b = true → le b c = true → le a c = true.

Lemma insert_by_sorted r l :
  StronglySorted (λ a b, le a b = true) l →
  StronglySorted (λ a b, le a b = true) (insert_by le r l).
Proof.
  induction 1 as [|y l Hs IH Hy]; simpl; [repeat constructor|].
  destruct (le r y) eqn:Hry.
  - constructor; [by constructor|]. constructor; [done|].
    eapply Forall_impl; [apply Hy|]. intros z Hz. by eapply le_trans.
  - constructor; [done|]. rewrite insert_by_perm. constructor; [|done].
    destruct (le_total r y); congruence.
Qed.

Lemma sort_by_sorted l : StronglySorted (λ a b, le a b = true) (sort_by le l).
Proof.
  induction l as [|r l IH]; simpl; [constructor | by apply insert_by_sorted].
Qed.
End SortBy.

Section NotesProofs.
Import Notes.
Context {F : Type}.
Implicit Types (df : list (AdmNote F)) (r : AdmNote F).

Lemma pair_le_total a b : pair_le a b = true ∨ pair_le b a = true.
Proof.
  unfold pair_le.
  destruct (Z.ltb_spec a.1 b.1), (Z.ltb_spec b.1 a.1), (Z.eqb_spec a.1 b.1),
    (Z.eqb_spec b.1 a.1), (Z.leb_spec a.2 b.2), (Z.leb_spec b.2 a.2);
    simpl; auto; lia.
Qed.

Lemma pair_le_trans a b c :
  pair_le a b = true → pair_le b c = true → pair_le a c = true.
Proof.
  unfold pair_le.
  destruct (Z.ltb_spec a.1 b.1), (Z.ltb_spec b.1 c.1), (Z.ltb_spec a.1 c.1),
    (Z.eqb_spec a.1 b.1), (Z.eqb_spec b.1 c.1), (Z.eqb_spec a.1 c.1),
    (Z.leb_spec a.2 b.2), (Z.leb_spec b.2 c.2), (Z.leb_spec a.2 c.2);
    simpl; try done; lia.
Qed.

Lemma elem_of_group_keys {K} `{EqDecision K} (le : K → K → bool) (keys : list K) k :
  k ∈ group_keys le keys ↔ k ∈ keys.
Proof.
  unfold group_keys. rewrite (sort_by_perm le), elem_of_first_seen.
  split; [tauto|]. intros Hk. split; [done | by intros ?%elem_of_nil].
Qed.

Lemma NoDup_group_keys {K} `{EqDecision K} (le : K → K → bool) (keys : list K) :
  NoDup (group_keys le keys).
Proof. unfold group_keys. rewrite (sort_by_perm le). apply NoDup_first_seen. Qed.

Lemma elem_of_List_filter {X} (p : X → bool) (l : list X) x :
  x ∈ List.filter p l ↔ x ∈ l ∧ p x = true.
Proof. by rewrite !list_elem_of_In, filter_In. Qed.

Lemma List_filter_sublist {X} (p q : X → bool) (l : list X) :
  (∀ x, p x = true → q x = true) → List.filter p l `sublist_of` List.filter q l.
Proof.
  intros Hpq. induction l as [|x l IH]; simpl; [done|].
  destruct (p x) eqn:Hp.
  - rewrite (Hpq x Hp). by apply sublist_skip.
  - destruct (q x); [by apply sublist_cons | done].
Qed.

Lemma List_filter_sublist_self {X} (p : X → bool) (l : list X) :
  List.filter p l `sublist_of` l.
Proof.
  induction l as [|x l IH]; simpl; [done|].
  destruct (p x); [by apply sublist_skip | by apply sublist_cons].
Qed.

Lemma List_filter_sublist_arg {X} (p : X → bool) (l k : list X) :
  l `sublist_of` k → List.filter p l `sublist_of` List.filter p k.
Proof.
  induction 1 as [|x l k _ IH|x l k _ IH]; simpl; [done| |].
  - destruct (p x); [by apply sublist_skip | done].
  - destruct (p x); [by apply sublist_cons | done].
Qed.

(** *** The discharge summaries *)

Lemma last_of_key k df r :
  last (of_key k df) = Some r → note_key r = k ∧ r ∈ df.
Proof.
  intros [before Heq]%last_Some.
  assert (Hin : r ∈ of_key k df).
  { rewrite Heq. apply elem_of_app. right. by left. }
  apply elem_of_List_filter in Hin as [Hin Hk].
  by apply bool_decide_eq_true in Hk.
Qed.

Lemma of_key_lasts df (keys : list (Z * Z)) :
  (∀ k, k ∈ keys → k ∈ map note_key df) →
  map note_key (omap (λ k, last (of_key k df)) keys) = keys.
Proof.
  induction keys as [|k keys IH]; intros Hkeys; [done|].
  csimpl. destruct (last (of_key k df)) as [r|] eqn:Hlast.
  - csimpl. apply last_of_key in Hlast as [-> _]. f_equal. apply IH.
    intros k' Hk'. apply Hkeys. by right.
  - exfalso. apply last_None in Hlast.
    assert (Hk : k ∈ map note_key df) by (apply Hkeys; by left).
    apply list_elem_of_fmap in Hk as (r & Hr & Hin).
    assert (Hmem : r ∈ of_key k df).
    { apply elem_of_List_filter. split; [done | by apply bool_decide_eq_true]. }
    rewrite Hlast in Hmem. by apply elem_of_nil in Hmem.
Qed.

(** X19. The discharge-summary table has at most one row for an admission,
    and a note is in it exactly when it is the last discharge summary of
    its admission, in the order of the note table, and has a text. So an
    admission whose last discharge summary has no text has no row, whatever
    its earlier summaries hold. *)
Theorem select_discharge_last df :
  NoDup (map note_key (select_discharge df))
  ∧ ∀ r, r ∈ select_discharge df
         ↔ is_Some (TEXT r)
           ∧ ∃ before,
               of_key (note_key r) (List.filter is_discharge_summary df)
               = before ++ [r].
Proof.
  unfold select_discharge.
  set (D := List.filter is_discharge_summary df).
  set (keys := group_keys pair_le (map note_key D)).
  assert (Hkeys : ∀ k, k ∈ keys → k ∈ map note_key D).
  { intros k. apply elem_of_group_keys. }
  split.
  - apply (sublist_NoDup _ (map note_key (omap (λ k, last (of_key k D)) keys))).
    + rewrite (of_key_lasts D keys Hkeys). apply NoDup_group_keys.
    + apply (fmap_sublist note_key), List_filter_sublist_self.
  - intros r. rewrite elem_of_List_filter, list_elem_of_omap.
    unfold text_notnull. split.
    + intros [(k & Hk & Hlast) Htext].
      split; [by destruct (TEXT r); eauto|].
      pose proof (last_of_key _ _ _ Hlast) as [<- _].
      by apply last_Some in Hlast.
    + intros [[t Ht] [before Hlast]]. rewrite Ht. split; [|done].
      exists (note_key r). split.
      * apply elem_of_group_keys, list_elem_of_fmap. exists r. split; [done|].
        assert (Hin : r ∈ of_key (note_key r) D).
        { rewrite Hlast. apply elem_of_app. right. by left. }
        by apply elem_of_List_filter in Hin as [Hin _].
      * apply last_Some. eauto.
Qed.

(** *** The early notes *)

Lemma elem_of_early_notes n df r :
  r ∈ early_notes n df ↔ r ∈ df ∧ within_days n r = true ∧ text_notnull r = true.
Proof. unfold early_notes. rewrite !elem_of_List_filter. tauto. Qed.

Lemma texts_of_notes (rows : list (AdmNote F)) :
  Forall (λ r, text_notnull r = true) rows →
  ∃ texts, mapM TEXT rows = Some texts ∧ map TEXT rows = map Some texts.
Proof.
  induction 1 as [|r rows Hr _ (texts & Hm & Ht)].
  - by exists [].
  - unfold text_notnull in Hr. destruct (TEXT r) as [t|] eqn:Htext; [|done].
    exists (t :: texts). split.
    + apply mapM_Some_2. constructor; [done | by apply mapM_Some_1].
    + simpl. by rewrite Htext, Ht.
Qed.

Lemma concat_row_spec (df_less_n : list (AdmNote F)) x :
  Forall (λ r, text_notnull r = true) df_less_n →
  x ∈ map HADM_ID df_less_n →
  ∃ first rest texts,
    of_admission x df_less_n = first :: rest
    ∧ map TEXT (first :: rest) = map Some texts
    ∧ concat_row df_less_n x
      = Some (MkEarlyRow x (Chunker.join texts) (OUTPUT_LABEL first)
                (SUBJECT_ID first) (features first)).
Proof.
  intros Hall (r & -> & Hr)%list_elem_of_fmap. unfold concat_row.
  destruct (of_admission (HADM_ID r) df_less_n) as [|first rest] eqn:Hrows.
  { assert (Hin : r ∈ of_admission (HADM_ID r) df_less_n).
    { apply elem_of_List_filter. split; [done | apply Z.eqb_refl]. }
    rewrite Hrows in Hin. by apply elem_of_nil in Hin. }
  destruct (texts_of_notes (first :: rest)) as (texts & Hm & Ht).
  { rewrite <- Hrows. apply Forall_forall. intros r' [Hr' _]%elem_of_List_filter.
    rewrite Forall_forall in Hall. by apply Hall. }
  exists first, rest, texts. rewrite Hm. done.
Qed.

Lemma concat_rows_spec (df_less_n : list (AdmNote F)) (keys : list Z) :
  Forall (λ r, text_notnull r = true) df_less_n →
  (∀ k, k ∈ keys → k ∈ map HADM_ID df_less_n) →
  ∃ rows, mapM (concat_row df_less_n) keys = Some rows
    ∧ map e_HADM_ID rows = keys
    ∧ ∀ row, row ∈ rows → concat_row df_less_n (e_HADM_ID row) = Some row.
Proof.
  intros Hall. induction keys as [|k keys IH]; intros Hkeys.
  - exists []. split; [done|]. split; [done|]. by intros row ?%elem_of_nil.
  - destruct IH as (rows & Hm & Hids & Hrows); [intros k' ?; apply Hkeys; by right|].
    destruct (concat_row_spec df_less_n k Hall) as (first & rest & texts & _ & _ & Hk);
      [apply Hkeys; by left|].
    eexists (_ :: rows). split.
    { apply mapM_Some_2. constructor; [exact Hk | by apply mapM_Some_1]. }
    split; [simpl; by rewrite Hids|].
    intros row [->|Hrow]%elem_of_cons; [done | by apply Hrows].
Qed.

Lemma early_notes_text n df : Forall (λ r, text_notnull r = true) (early_notes n df).
Proof. apply Forall_forall. by intros r (_ & _ & ?)%elem_of_early_notes. Qed.

Lemma forallb_false {X} (p : X → bool) (l : list X) :
  forallb p l = false → ∃ x, x ∈ l ∧ p x = false.
Proof.
  induction l as [|x l IH]; simpl; [done|].
  destruct (p x) eqn:Hp; simpl.
  - intros (y & Hy & Hpy)%IH. exists y. split; [by right | done].
  - intros _. exists x. split; [by left | done].
Qed.

Lemma gap_fits_false r :
  gap_fits r = false →
  ∃ x y, CHARTDATE r = Some x ∧ ADMITTIME_C r = Some y
         ∧ (9223372036 < Z.abs (x - y))%Z.
Proof.
  unfold gap_fits, max_timedelta.
  destruct (CHARTDATE r) as [x|], (ADMITTIME_C r) as [y|]; try done.
  intros Hgap%Z.leb_gt. eauto.
Qed.

Lemma less_n_days_data_run df n :
  forallb gap_fits df = true →
  ∃ rows,
    mapM (concat_row (early_notes n df))
         (group_keys Z.leb (map HADM_ID (early_notes n df))) = Some rows
    ∧ less_n_days_data df n = Some (sort_by row_le rows)
    ∧ map e_HADM_ID rows = group_keys Z.leb (map HADM_ID (early_notes n df))
    ∧ ∀ row, row ∈ rows → concat_row (early_notes n df) (e_HADM_ID row) = Some row.
Proof.
  intros Hfits.
  destruct (concat_rows_spec (early_notes n df)
              (group_keys Z.leb (map HADM_ID (early_notes n df))))
    as (rows & Hm & Hids & Hrows).
  - apply early_notes_text.
  - intros k. apply elem_of_group_keys.
  - exists rows. unfold less_n_days_data. rewrite Hfits, Hm. done.
Qed.

Lemma less_n_days_data_fits df n out :
  less_n_days_data df n = Some out → forallb gap_fits df = true.
Proof. unfold less_n_days_data. by destruct (forallb gap_fits df). Qed.

Lemma less_n_days_data_ids df n out id :
  less_n_days_data df n = Some out →
  id ∈ map e_HADM_ID out ↔ id ∈ map HADM_ID (early_notes n df).
Proof.
  intros Hout.
  destruct (less_n_days_data_run df n (less_n_days_data_fits df n out Hout))
    as (rows & _ & Hrun & Hids & _).
  rewrite Hrun in Hout. injection Hout as <-.
  rewrite (sort_by_perm row_le rows), Hids. apply elem_of_group_keys.
Qed.

(** X20. [less_n_days_data] raises exactly when some row has a chart date
    and an admission date more than 9223372036 seconds apart, where the
    subtraction of the two date columns overflows. Otherwise it returns a
    table with one row for each admission that has a note with a text
    charted less than [n] days after the day of admission, in the order of
    patient and admission id; the text of the row is the texts of these
    notes, in the order of the note table, joined by a space, and the other
    columns are those of the first of these notes. *)
Theorem less_n_days_data_rows df (n : Q) :
  match less_n_days_data df n with
  | None =>
      ∃ r x y, r ∈ df ∧ CHARTDATE r = Some x ∧ ADMITTIME_C r = Some y
               ∧ (9223372036 < Z.abs (x - y))%Z
  | Some out =>
      Forall (λ r, ∀ x y, CHARTDATE r = Some x → ADMITTIME_C r = Some y →
                          (Z.abs (x - y) <= 9223372036)%Z) df
      ∧ NoDup (map e_HADM_ID out)
      ∧ StronglySorted (λ a b, row_le a b = true) out
      ∧ (∀ id, id ∈ map e_HADM_ID out
               ↔ ∃ r, r ∈ df ∧ HADM_ID r = id
                      ∧ within_days n r = true ∧ is_Some (TEXT r))
      ∧ ∀ row, row ∈ out →
          ∃ first rest texts,
            of_admission (e_HADM_ID row) (early_notes n df) = first :: rest
            ∧ map TEXT (first :: rest) = map Some texts
            ∧ e_TEXT row = Chunker.join texts
            ∧ e_OUTPUT_LABEL row = OUTPUT_LABEL first
            ∧ e_SUBJECT_ID row = SUBJECT_ID first
            ∧ e_features row = features first
  end.
Proof.
  destruct (forallb gap_fits df) eqn:Hfits.
  2:{ unfold less_n_days_data. rewrite Hfits.
      apply forallb_false in Hfits as (r & Hr & (x & y & Hx & Hy & Hgap)%gap_fits_false).
      eauto 10. }
  destruct (less_n_days_data_run df n Hfits) as (rows & _ & Hrun & Hids & Hrows).
  rewrite Hrun. split; [|split; [|split; [|split]]].
  - apply Forall_forall. intros r Hr x y Hx Hy.
    rewrite forallb_forall in Hfits. specialize (Hfits r).
    unfold gap_fits, max_timedelta in Hfits. rewrite Hx, Hy in Hfits.
    apply Z.leb_le, Hfits. by apply list_elem_of_In.
  - rewrite (sort_by_perm row_le rows), Hids. apply NoDup_group_keys.
  - apply sort_by_sorted.
    + intros a b. apply pair_le_total.
    + intros a b c. apply pair_le_trans.
  - intros id. rewrite (less_n_days_data_ids df n _ id Hrun), list_elem_of_fmap.
    split.
    + intros (r & -> & (Hr & Hn & Ht)%elem_of_early_notes).
      exists r. repeat split; try done.
      unfold text_notnull in Ht. by destruct (TEXT r); eauto.
    + intros (r & Hr & <- & Hn & [t Ht]). exists r. split; [done|].
      apply elem_of_early_notes. unfold text_notnull. by rewrite Ht.
  - intros row Hrow. rewrite (sort_by_perm row_le rows) in Hrow.
    pose proof (Hrows row Hrow) as Hrow'.
    destruct (concat_row_spec (early_notes n df) (e_HADM_ID row))
      as (first & rest & texts & Hadm & Htexts & Hc).
    { apply early_notes_text. }
    { rewrite <- (elem_of_group_keys Z.leb), <- Hids. apply list_elem_of_fmap. eauto. }
    exists first, rest, texts. rewrite Hc in Hrow'. injection Hrow' as <-. done.
Qed.

(** X21. The early notes grow with the number of days: for [n <= m] every
    admission of the [n]-day table is in the [m]-day table, and the notes
    that make up its [n]-day text are among those of its [m]-day text, in
    the same order. *)
Theorem less_n_days_data_monotone df (n m : Q) (out_n out_m : list (EarlyRow F)) :
  (n <= m)%Q →
  less_n_days_data df n = Some out_n →
  less_n_days_data df m = Some out_m →
  (∀ id, id ∈ map e_HADM_ID out_n → id ∈ map e_HADM_ID out_m)
  ∧ ∀ id, of_admission id (early_notes n df) `sublist_of` of_admission id (early_notes m df).
Proof.
  intros Hnm Hn Hm.
  assert (Hsub : early_notes n df `sublist_of` early_notes m df).
  { unfold early_notes. apply List_filter_sublist_arg, List_filter_sublist.
    intros r. unfold within_days. rewrite !lt_days_spec.
    intros (x & Hx & Hlt). exists x. split; [done|]. by eapply Qlt_le_trans. }
  split.
  - intros id. rewrite (less_n_days_data_ids df n out_n id Hn),
      (less_n_days_data_ids df m out_m id Hm).
    intros Hid. eapply elem_of_sublist; [done|]. by apply fmap_sublist.
  - intros id. by apply List_filter_sublist_arg.
Qed.
End NotesProofs.

Lemma less_n_days_data_rows_witness :
  Notes.less_n_days_data Notes.far_dates_example 3 = None
  ∧ ∃ r x y, r ∈ Notes.far_dates_example
      ∧ Notes.CHARTDATE r = Some x ∧ Notes.ADMITTIME_C r = Some y
      ∧ (9223372036 < Z.abs (x - y))%Z.
Proof.
  assert (Hnone : Notes.less_n_days_data Notes.far_dates_example 3 = None)
    by (vm_compute; reflexivity).
  split; [exact Hnone|].
  pose proof (less_n_days_data_rows Notes.far_dates_example 3) as Hrows.
  rewrite Hnone in Hrows. exact Hrows.
Defined.

Lemma less_n_days_data_monotone_witness :
  ∃ out_2 out_3,
    Notes.less_n_days_data Notes.addendum_example 2 = Some out_2
    ∧ Notes.less_n_days_data Notes.addendum_example 3 = Some out_3
    ∧ ∀ id, id ∈ map Notes.e_HADM_ID out_2 → id ∈ map Notes.e_HADM_ID out_3.
Proof.
  eassert (H2 : Notes.less_n_days_data Notes.addendum_example 2 = Some _)
    by (vm_compute; reflexivity).
  eassert (H3 : Notes.less_n_days_data Notes.addendum_example 3 = Some _)
    by (vm_compute; reflexivity).
  eexists _, _. split; [exact H2|]. split; [exact H3|].
  apply (less_n_days_data_monotone Notes.addendum_example 2 3 _ _); [done | exact H2 | exact H3].
Defined.

(** ** The training script *)

Section TrainerProofs.
Import Trainer.
Context {T : Type} (copy_ : T → T → option T).

(** X22. [copy_optimizer_params_to_model] copies the parameters in order
    up to a position [k] and leaves the others as they were; the names and
    the number of the parameters of the model do not change. It ends
    without error exactly when [k] is the length of the shorter list, so
    parameters beyond the shorter list are skipped silently; on a name
    mismatch or a failed copy at [k] the parameters before [k] have
    already been overwritten. *)
Theorem copy_optimizer_params_prefix (model opti : list (string * T)) :
  let '(model', out) := copy_optimizer_params_to_model copy_ model opti in
  map fst model' = map fst model
  ∧ ∃ k, k ≤ length model `min` length opti
      ∧ (∀ i, i < k → fst <$> model !! i = fst <$> opti !! i
                      ∧ model' !! i = copied copy_ model opti i)
      ∧ (∀ i, k ≤ i → model' !! i = model !! i)
      ∧ (out = Done ↔ k = length model `min` length opti)
      ∧ (out = NameMismatch →
         ∃ m o, model !! k = Some m ∧ opti !! k = Some o ∧ m.1 ≠ o.1)
      ∧ (out = CopyFailed →
         ∃ m o, model !! k = Some m ∧ opti !! k = Some o ∧ m.1 = o.1
                ∧ copy_ m.2 o.2 = None).
Proof.
  revert opti. induction model as [|[name_model param_model] model IH];
    intros [|[name_opti param_opti] opti]; simpl.
  - split; [done|]. exists 0. repeat split; try done; lia.
  - split; [done|]. exists 0. repeat split; try done; lia.
  - split; [done|]. exists 0. repeat split; try done; lia.
  - destruct (decide (name_opti ≠ name_model)) as [Hne|Heq].
    { split; [done|]. exists 0. repeat split; try done; try lia.
      intros _. eexists _, _. repeat split; simpl; congruence. }
    apply dec_stable in Heq as ->.
    destruct (copy_ param_model param_opti) as [data|] eqn:Hcopy.
    2:{ split; [done|]. exists 0. repeat split; try done; try lia.
        intros _. eexists _, _. repeat split; simpl; done. }
    specialize (IH opti).
    destruct (copy_optimizer_params_to_model copy_ model opti) as [rest out].
    destruct IH as (Hnames & k & Hk & Hcopied & Hkept & Hdone & Hname & Hfail).
    split; [simpl; by rewrite Hnames|].
    exists (S k). split; [lia|]. split; [|split; [|split; [|split]]].
    + intros [|i] Hi; simpl.
      * unfold copied. simpl. by rewrite Hcopy.
      * apply Hcopied. lia.
    + intros [|i] Hi; [lia|]. simpl. apply Hkept. lia.
    + rewrite Hdone. lia.
    + intros Hout. apply Hname in Hout. done.
    + intros Hout. apply Hfail in Hout. done.
Qed.

(** *** The positions of the additional features *)

Lemma add_feature_inv feats done name st :
  feature_inv feats done st → name ∉ done →
  feature_inv feats (done ++ [name]) (add_feature feats name st).
Proof.
  intros (Htensors & Hidx & Hdict) Hnew. unfold feature_inv, add_feature.
  rewrite List.filter_app. simpl.
  destruct (decide (name ∈ feats)) as [Hin|Hnin].
  - rewrite bool_decide_eq_true_2 by done. simpl.
    set (extra := List.filter (λ name0, bool_decide (name0 ∈ feats)) done) in *.
    assert (Hfresh : name ∉ extra).
    { intros [Hc _]%list_elem_of_In%filter_In. by apply Hnew, list_elem_of_In. }
    split; [simpl; rewrite Htensors; by rewrite <- app_assoc|]. split; [rewrite length_app; simpl; lia|].
    intros name' pos. destruct (decide (name' = name)) as [->|Hne].
    + rewrite lookup_insert_eq, Hidx. split.
      * intros [= <-]. by rewrite lookup_app_r, Nat.sub_diag.
      * intros Hpos. f_equal. apply lookup_snoc_Some in Hpos as [[_ Hpos]|[Hpos _]]; [|done].
        exfalso. apply Hfresh. by eapply list_elem_of_lookup_2.
    + rewrite lookup_insert_ne by done. rewrite Hdict, lookup_snoc_Some.
      split; [intros Hpos; left; split; [by eapply lookup_lt_Some | done] |].
      intros [[_ Hpos]|[_ Heq]]; [done | congruence].
  - rewrite bool_decide_eq_false_2 by done. simpl. by rewrite app_nil_r.
Qed.

(** X23. The tensors that follow the four fixed ones in a batch are those
    of the requested features the script knows, in the order of the script
    and not in the order of the command line, and the position recorded for
    a feature is the position of its tensor among them. Without the option
    no tensor is added and no position is recorded. *)
Theorem feature_positions (additional_features : option (list string)) :
  let st := feature_tensors additional_features in
  let feats := default [] additional_features in
  take 4 (tensors st) = ["input_ids"; "input_mask"; "segment_ids"; "label_ids"]
  ∧ extraFeatures (tensors st)
    = List.filter (λ name, bool_decide (name ∈ feats)) feature_order
  ∧ positionIdx st = length (extraFeatures (tensors st))
  ∧ ∀ name pos,
      featurePositionDict st !! name = Some pos
      ↔ extraFeatures (tensors st) !! pos = Some name.
Proof.
  intros st feats.
  assert (Hinv : feature_inv feats feature_order st).
  { unfold st, feats. destruct additional_features as [l|]; simpl.
    - assert (H0 : feature_inv l []
                     (FeatureState ["input_ids"; "input_mask"; "segment_ids"; "label_ids"] ∅ 0)).
      { split; [done|]. split; [done|]. intros name pos. simpl.
        by rewrite lookup_empty, lookup_nil. }
      assert (Hstep : ∀ done name st',
                feature_inv l done st' → bool_decide (name ∉ done) = true →
                feature_inv l (done ++ [name]) (add_feature l name st')).
      { intros done name st' Hst Hnew. apply add_feature_inv; [done|].
        by apply bool_decide_eq_true in Hnew. }
      apply (Hstep _ "admittime") in H0; [|reflexivity].
      apply (Hstep _ "daystonextadmit") in H0; [|reflexivity].
      apply (Hstep _ "duration") in H0; [|reflexivity].
      apply (Hstep _ "diag_icd9") in H0; [|reflexivity].
      apply (Hstep _ "diag_ccs") in H0; [|reflexivity].
      apply (Hstep _ "proc_icd9") in H0; [|reflexivity].
      apply (Hstep _ "proc_ccs") in H0; [|reflexivity].
      apply (Hstep _ "ndc") in H0; [|reflexivity].
      exact H0.
    - split; [done|]. split; [done|]. intros name pos. simpl.
      by rewrite lookup_empty, lookup_nil. }
  destruct Hinv as (Htensors & Hidx & Hdict).
  unfold extraFeatures. rewrite Htensors. simpl. done.
Qed.
End TrainerProofs.
